(** * Catch-The-PacMan: the scoreboard, the entities and the game controller

    A shallow embedding of [internal/model/score.go] and
    [internal/game/pacman.go], with the properties the specification states
    about them; and of the frame function of [internal/graphics/engine.go]
    and the level and save readers of packages config and persistence,
    with further properties of the code.

    Conventions of the embedding:
    - Go's [int] is the 64-bit two's-complement integer of the 64-bit
      targets; a value is a [Z] and every arithmetic operation is followed
      by [wrap64].
    - [float64] is Rocq's primitive binary64 [float]; every operation is
      rounded on its own (no fused multiply-add), and comparisons are the
      IEEE ones ([PrimFloat.ltb] is false on NaN, as Go's [<]).
    - a [string] is its byte sequence; a [rune] is a [Z].
    - a slice of scores is a header (backing array, length) over a store of
      backing arrays, so that two headers over one array see each other's
      writes, as in Go.
    - [sort.Sort] is the insertion sort and the pattern-defeating quicksort
      of go 1.24, driven through the three methods of [sort.Interface].
    - the clock is an input: every reading of [time.Now()] is an argument
      of the operation that takes it.
    - mutexes are not modelled: every operation below runs under the lock
      its Go method takes, so the embedding is the sequential behaviour.
    - [log.Printf] output is not part of the state and is left out.
    - what the engine polls from ebiten in a frame is an input; the files
      are given by what opening and scanning them returns, and the
      functions of Go's [strings] and [strconv] are left open.
    - sounds and drawing are not modelled. *)

From Stdlib Require Import ZArith Floats String Ascii Sorted Permutation DecimalString
  DecimalZ.
From stdpp Require Import base list.

Local Open Scope Z_scope.

(** ** Go's [int] *)

Definition min_int : Z := - 2 ^ 63.
Definition max_int : Z := 2 ^ 63 - 1.

Definition wrap64 (z : Z) : Z := (z + 2 ^ 63) mod 2 ^ 64 - 2 ^ 63.

Definition int_add (a b : Z) : Z := wrap64 (a + b).
Definition int_sub (a b : Z) : Z := wrap64 (a - b).
Definition int_mul (a b : Z) : Z := wrap64 (a * b).

Definition in_int (z : Z) : Prop := min_int <= z <= max_int.

(** ** [float64] and the clock *)

(** The conversion [float64(n)] of an [int]: to nearest, ties to even. *)
Definition float64_of_int (z : Z) : float :=
  if z =? min_int then
    PrimFloat.opp (PrimFloat.mul (PrimFloat.of_uint63 (Uint63.of_Z (2 ^ 62))) 2)
  else if z <? 0 then PrimFloat.opp (PrimFloat.of_uint63 (Uint63.of_Z (- z)))
  else PrimFloat.of_uint63 (Uint63.of_Z z).

Definition f_lt (a b : float) : bool := PrimFloat.ltb a b.
Definition f_gt (a b : float) : bool := PrimFloat.ltb b a.

(** An instant and a [time.Duration] are counts of nanoseconds.  Each call
    of [time.Now()] is an input of the operation that makes it. *)
Definition Time := Z.
Definition Duration := Z.

Definition Millisecond : Duration := 1000000.
Definition Second : Duration := 1000000000.

(** [t.Sub(u)]: the difference, saturated at the range of a [Duration]. *)
Definition time_Sub (t u : Time) : Duration :=
  Z.max min_int (Z.min max_int (t - u)).

(** [d.Seconds()]: [float64(d / Second) + float64(d % Second) / 1e9]. *)
Definition Seconds (d : Duration) : float :=
  (float64_of_int (Z.quot d Second)
   + float64_of_int (Z.rem d Second) / float64_of_int 1000000000)%float.

(** ** package game: the entity (pacman.go) *)

Definition DirHorizontal : Z := 72.  (* 'H' *)
Definition DirVertical : Z := 86.    (* 'V' *)
Definition baseSpeed : float := 60%float.

Record Pacman := mkPacman {
  ID : Z;
  Radius : float;
  PosX : float;
  PosY : float;
  Speed : float;
  Direction : Z;
  SubDirection : Z;
  IsStopped : bool;
  WaitTimeMs : Z;
  Bounces : Z;
  animFrame : Z;
  lastAnimTime : Time;
  animInterval : Duration
}.

Definition set_PosX (p : Pacman) (v : float) : Pacman :=
  mkPacman (ID p) (Radius p) v (PosY p) (Speed p) (Direction p)
    (SubDirection p) (IsStopped p) (WaitTimeMs p) (Bounces p)
    (animFrame p) (lastAnimTime p) (animInterval p).
Definition set_PosY (p : Pacman) (v : float) : Pacman :=
  mkPacman (ID p) (Radius p) (PosX p) v (Speed p) (Direction p)
    (SubDirection p) (IsStopped p) (WaitTimeMs p) (Bounces p)
    (animFrame p) (lastAnimTime p) (animInterval p).
Definition set_SubDirection (p : Pacman) (v : Z) : Pacman :=
  mkPacman (ID p) (Radius p) (PosX p) (PosY p) (Speed p) (Direction p)
    v (IsStopped p) (WaitTimeMs p) (Bounces p)
    (animFrame p) (lastAnimTime p) (animInterval p).
Definition set_IsStopped (p : Pacman) (v : bool) : Pacman :=
  mkPacman (ID p) (Radius p) (PosX p) (PosY p) (Speed p) (Direction p)
    (SubDirection p) v (WaitTimeMs p) (Bounces p)
    (animFrame p) (lastAnimTime p) (animInterval p).
Definition set_Bounces (p : Pacman) (v : Z) : Pacman :=
  mkPacman (ID p) (Radius p) (PosX p) (PosY p) (Speed p) (Direction p)
    (SubDirection p) (IsStopped p) (WaitTimeMs p) v
    (animFrame p) (lastAnimTime p) (animInterval p).
Definition set_anim (p : Pacman) (frame : Z) (t : Time) : Pacman :=
  mkPacman (ID p) (Radius p) (PosX p) (PosY p) (Speed p) (Direction p)
    (SubDirection p) (IsStopped p) (WaitTimeMs p) (Bounces p)
    frame t (animInterval p).

(** [NewPacman]; [now] is the reading of [time.Now()]. *)
Definition NewPacman (now : Time) (id : Z) (radius posX posY : float)
    (direction subDirection waitTimeMs bounces : Z) (isStopped : bool)
  : Pacman :=
  let speed :=
    (baseSpeed * (100 / (float64_of_int waitTimeMs + 1)))%float in
  mkPacman id radius posX posY speed direction subDirection isStopped
    waitTimeMs bounces 0 now (150 * Millisecond).

(** [(p *Pacman).Update(dt, screenWidth, screenHeight)].  [now1] is the clock
    read by [time.Since], [now2] the one stored in [lastAnimTime].  The
    result is the entity after the call and the returned count. *)
Definition Pacman_Update (now1 now2 : Time) (dt screenWidth screenHeight : float)
    (p : Pacman) : Pacman * Z :=
  if IsStopped p then (p, 0)
  else
    let p :=
      if animInterval p <? time_Sub now1 (lastAnimTime p)
      then set_anim p (Z.rem (int_add (animFrame p) 1) 2) now2
      else p in
    let distance := (Speed p * dt)%float in
    let startBounces := Bounces p in
    let '(p, bounced) :=
      if Direction p =? DirHorizontal then
        let p :=
          set_PosX p (PosX p + distance * float64_of_int (SubDirection p))%float in
        if f_lt (PosX p - Radius p) 0 && (SubDirection p =? -1) then
          (set_SubDirection (set_PosX p (Radius p))
             (int_mul (SubDirection p) (-1)), true)
        else if f_gt (PosX p + Radius p) screenWidth && (SubDirection p =? 1) then
          (set_SubDirection (set_PosX p (screenWidth - Radius p)%float)
             (int_mul (SubDirection p) (-1)), true)
        else (p, false)
      else
        let p :=
          set_PosY p (PosY p + distance * float64_of_int (SubDirection p))%float in
        if f_lt (PosY p - Radius p) 0 && (SubDirection p =? -1) then
          (set_SubDirection (set_PosY p (Radius p))
             (int_mul (SubDirection p) (-1)), true)
        else if f_gt (PosY p + Radius p) screenHeight && (SubDirection p =? 1) then
          (set_SubDirection (set_PosY p (screenHeight - Radius p)%float)
             (int_mul (SubDirection p) (-1)), true)
        else (p, false) in
    let p := if bounced then set_Bounces p (int_add (Bounces p) 1) else p in
    (p, int_sub (Bounces p) startBounces).

(** [(p *Pacman).Bounce()]. *)
Definition Pacman_Bounce (p : Pacman) : Pacman * bool :=
  if IsStopped p then (p, false)
  else
    let p := set_SubDirection p (int_mul (SubDirection p) (-1)) in
    let p := set_Bounces p (int_add (Bounces p) 1) in
    let nudge := 0x1.199999999999ap+0%float in (* 1.1 *)
    let p :=
      if Direction p =? DirHorizontal
      then set_PosX p (PosX p + nudge * float64_of_int (SubDirection p))%float
      else set_PosY p (PosY p + nudge * float64_of_int (SubDirection p))%float in
    (p, true).

(** [(p *Pacman).Stop()]. *)
Definition Pacman_Stop (p : Pacman) : Pacman * bool :=
  if negb (IsStopped p) then (set_IsStopped p true, true)
  else (p, false).

(** [(p *Pacman).IsClicked(cx, cy)]. *)
Definition IsClicked (p : Pacman) (cx cy : float) : bool :=
  let dx := (PosX p - cx)%float in
  let dy := (PosY p - cy)%float in
  let distanceSq := (dx * dx + dy * dy)%float in
  f_lt distanceSq (Radius p * Radius p) && negb (IsStopped p).

(** [(p *Pacman).GetData()]. *)
Definition GetData (p : Pacman) : float * float * float * Z * bool :=
  (PosX p, PosY p, Radius p, animFrame p, IsStopped p).

(** [(p *Pacman).CheckCollision(otherPosX, otherPosY, otherRadius)]. *)
Definition CheckCollision (p : Pacman) (otherPosX otherPosY otherRadius : float)
  : bool :=
  if IsStopped p then false
  else
    let dx := (PosX p - otherPosX)%float in
    let dy := (PosY p - otherPosY)%float in
    let distSq := (dx * dx + dy * dy)%float in
    let radiiSum := (Radius p + otherRadius)%float in
    f_lt distSq (radiiSum * radiiSum).

(** [(p *Pacman).GetStateForCollisionCheck()]. *)
Definition GetStateForCollisionCheck (p : Pacman) : float * float * float * bool :=
  (PosX p, PosY p, Radius p, IsStopped p).

(** ** package model: score.go *)

Definition MaxHighScores : nat := 10.

(** [Score_] is the field [Score] of the Go struct. *)
Record Score := mkScore { Name : string; Score_ : Z }.

Global Instance Score_eq_dec : EqDecision Score.
Proof. unfold EqDecision, Decision. repeat decide equality. Defined.

(** The zero value of [Score], what a freshly allocated array cell holds. *)
Definition zeroScore : Score := mkScore "" 0.

(** [sort.Interface]: the three methods [sort.Sort] drives a collection
    through.  [Less] and [Swap] index the collection; Go panics on an index
    out of range, which [sort.Sort] never produces, and the instance below
    leaves the collection alone there. *)
Class Interface (A : Type) := {
  Len : A -> nat;
  Less : A -> nat -> nat -> bool;
  Swap : A -> nat -> nat -> A
}.

Abbreviation ByScore := (list Score).

Global Instance ByScore_Interface : Interface ByScore := {|
  Len a := length a;
  Less a i j :=
    match a !! i, a !! j with
    | Some x, Some y => Score_ x <? Score_ y
    | _, _ => false
    end;
  Swap a i j :=
    match a !! i, a !! j with
    | Some x, Some y => <[j := x]> (<[i := y]> a)
    | _, _ => a
    end
|}.

(** [sort.insertionSort(data, a, b)]:
    [for i := a+1; i < b; i++ { for j := i; j > a && data.Less(j, j-1); j-- { data.Swap(j, j-1) } }] *)
Fixpoint insertionSort_inner {A} `{Interface A} (data : A) (a j : nat) : A :=
  match j with
  | O => data
  | S j' =>
      if (a <? j)%nat && Less data j j'
      then insertionSort_inner (Swap data j j') a j'
      else data
  end.

Definition insertionSort {A} `{Interface A} (data : A) (a b : nat) : A :=
  fold_left (fun d i => insertionSort_inner d a i) (seq (S a) (b - S a)) data.

Definition maxInsertion : nat := 12.

(** *** [sort.Sort] on long collections: pattern-defeating quicksort *)

(** The functions of package sort (go 1.24, zsortinterface.go) that
    [sort.Sort] runs on more than [maxInsertion] elements, over the same
    three methods.  Every loop is a recursion on a bound of its number of
    rounds. *)

Inductive sortedHint := unknownHint | increasingHint | decreasingHint.

(** [bits.Len(x)]: the number of bits of [x], 0 for 0. *)
Definition bits_Len (x : nat) : nat :=
  if (x =? 0)%nat then 0%nat else S (Nat.log2 x).

(** [for p(i) { i++ }] and [for p(j) { j-- }]. *)
Fixpoint advance (fuel : nat) (p : nat -> bool) (i : nat) : nat :=
  match fuel with
  | O => i
  | S fuel => if p i then advance fuel p (S i) else i
  end.

Fixpoint retreat (fuel : nat) (p : nat -> bool) (j : nat) : nat :=
  match fuel with
  | O => j
  | S fuel => if p j then retreat fuel p (j - 1)%nat else j
  end.

Section Pdqsort.
Context {A : Type} `{Interface A}.

(** [breakPatterns(data, a, b)] swaps three elements around the middle of
    the range with elements at places drawn from a generator seeded by the
    length.  [pdqsort] calls it only after a partition that left one side
    shorter than an eighth of the range; what it does is left open. *)
Variable breakPatterns : A -> nat -> nat -> A.

(** [siftDown(data, lo, hi, first)] and [heapSort(data, a, b)]. *)
Fixpoint siftDown_from (fuel : nat) (data : A) (root hi first : nat) : A :=
  match fuel with
  | O => data
  | S fuel =>
      let child := (2 * root + 1)%nat in
      if (hi <=? child)%nat then data
      else
        let child :=
          if (child + 1 <? hi)%nat && Less data (first + child) (first + child + 1)
          then (child + 1)%nat else child in
        if negb (Less data (first + root) (first + child)) then data
        else siftDown_from fuel (Swap data (first + root) (first + child))
               child hi first
  end.

Definition siftDown (data : A) (lo hi first : nat) : A :=
  siftDown_from hi data lo hi first.

Definition heapSort (data : A) (a b : nat) : A :=
  let first := a in
  let lo := 0%nat in
  let hi := (b - a)%nat in
  let data :=
    fold_left (fun d i => siftDown d i hi first)
      (rev (seq 0 (S ((hi - 1) / 2)))) data in
  fold_left (fun d i => siftDown (Swap d first (first + i)) lo i first)
    (rev (seq 0 hi)) data.

(** [reverseRange(data, a, b)]. *)
Fixpoint reverseRange_from (fuel : nat) (data : A) (i j : nat) : A :=
  match fuel with
  | O => data
  | S fuel =>
      if (i <? j)%nat then reverseRange_from fuel (Swap data i j) (S i) (j - 1)
      else data
  end.

Definition reverseRange (data : A) (a b : nat) : A :=
  reverseRange_from b data a (b - 1).

(** [order2], [median], [medianAdjacent] and [choosePivot(data, a, b)]:
    the median of three places a quarter of the range apart (of three
    medians of adjacent places from 50 elements on), and a hint: increasing
    when no pair had to be exchanged, decreasing when all twelve had. *)
Definition order2 (data : A) (a b swaps : nat) : nat * nat * nat :=
  if Less data b a then (b, a, S swaps) else (a, b, swaps).

Definition median (data : A) (a b c swaps : nat) : nat * nat :=
  let '(a, b, swaps) := order2 data a b swaps in
  let '(b, c, swaps) := order2 data b c swaps in
  let '(a, b, swaps) := order2 data a b swaps in
  (b, swaps).

Definition medianAdjacent (data : A) (a swaps : nat) : nat * nat :=
  median data (a - 1) a (a + 1) swaps.

Definition choosePivot (data : A) (a b : nat) : nat * sortedHint :=
  let shortestNinther := 50%nat in
  let maxSwaps := (4 * 3)%nat in
  let l := (b - a)%nat in
  let swaps := 0%nat in
  let i := (a + l / 4 * 1)%nat in
  let j := (a + l / 4 * 2)%nat in
  let k := (a + l / 4 * 3)%nat in
  let '(j, swaps) :=
    if (8 <=? l)%nat then
      let '(i, j, k, swaps) :=
        if (shortestNinther <=? l)%nat then
          let '(i, swaps) := medianAdjacent data i swaps in
          let '(j, swaps) := medianAdjacent data j swaps in
          let '(k, swaps) := medianAdjacent data k swaps in
          (i, j, k, swaps)
        else (i, j, k, swaps) in
      median data i j k swaps
    else (j, swaps) in
  if (swaps =? 0)%nat then (j, increasingHint)
  else if (swaps =? maxSwaps)%nat then (j, decreasingHint)
  else (j, unknownHint).

(** [partialInsertionSort(data, a, b)]: up to five out-of-order places are
    repaired by shifting, in ranges of at least 50 elements; a shorter
    range is left as it is unless it is sorted already. *)
Fixpoint shift_left (fuel : nat) (data : A) (j : nat) : A :=
  match fuel with
  | O => data
  | S fuel =>
      if (1 <=? j)%nat then
        if negb (Less data j (j - 1)) then data
        else shift_left fuel (Swap data j (j - 1)) (j - 1)
      else data
  end.

Fixpoint shift_right (fuel : nat) (data : A) (j b : nat) : A :=
  match fuel with
  | O => data
  | S fuel =>
      if (j <? b)%nat then
        if negb (Less data j (j - 1)) then data
        else shift_right fuel (Swap data j (j - 1)) (S j) b
      else data
  end.

Fixpoint partialInsertionSort_from (steps : nat) (data : A) (a b i : nat)
  : A * bool :=
  let shortestShifting := 50%nat in
  match steps with
  | O => (data, false)
  | S steps =>
      let i := advance b (fun i => (i <? b)%nat && negb (Less data i (i - 1))) i in
      if (i =? b)%nat then (data, true)
      else if (b - a <? shortestShifting)%nat then (data, false)
      else
        let data := Swap data i (i - 1) in
        let data := if (2 <=? i - a)%nat then shift_left i data (i - 1) else data in
        let data := if (2 <=? b - i)%nat then shift_right b data (i + 1) b else data in
        partialInsertionSort_from steps data a b i
  end.

Definition partialInsertionSort (data : A) (a b : nat) : A * bool :=
  let maxSteps := 5%nat in
  partialInsertionSort_from maxSteps data a b (a + 1).

(** [partition(data, a, b, pivot)] and [partitionEqual(data, a, b, pivot)]:
    the pivot is swapped to [a], the elements are gathered on its two
    sides by swaps from both ends, and in [partition] the pivot is swapped
    to its place [mid]. *)
Fixpoint partition_from (fuel : nat) (data : A) (a i j : nat) : A * nat :=
  match fuel with
  | O => (data, j)
  | S fuel =>
      let i := advance (S j) (fun i => (i <=? j)%nat && Less data i a) i in
      let j := retreat (S j) (fun j => (i <=? j)%nat && negb (Less data j a)) j in
      if (j <? i)%nat then (data, j)
      else partition_from fuel (Swap data i j) a (S i) (j - 1)
  end.

Definition partition (data : A) (a b pivot : nat) : A * nat * bool :=
  let data := Swap data a pivot in
  let i := (a + 1)%nat in
  let j := (b - 1)%nat in
  let i := advance b (fun i => (i <=? j)%nat && Less data i a) i in
  let j := retreat b (fun j => (i <=? j)%nat && Less data a j) j in
  if (j <? i)%nat then (Swap data j a, j, true)
  else
    let data := Swap data i j in
    let '(data, j) := partition_from b data a (S i) (j - 1) in
    (Swap data j a, j, false).

Fixpoint partitionEqual_from (fuel : nat) (data : A) (a i j : nat) : A * nat :=
  match fuel with
  | O => (data, i)
  | S fuel =>
      let i := advance (S j) (fun i => (i <=? j)%nat && negb (Less data a i)) i in
      let j := retreat (S j) (fun j => (i <=? j)%nat && Less data a j) j in
      if (j <? i)%nat then (data, i)
      else partitionEqual_from fuel (Swap data i j) a (S i) (j - 1)
  end.

Definition partitionEqual (data : A) (a b pivot : nat) : A * nat :=
  let data := Swap data a pivot in
  partitionEqual_from b data a (a + 1) (b - 1).

(** [pdqsort(data, a, b, limit)]: the loop of the source, with its
    recursive call on the shorter side. *)
Fixpoint pdqsort_from (fuel : nat) (data : A) (a b limit : nat)
    (wasBalanced wasPartitioned : bool) : A :=
  match fuel with
  | O => data
  | S fuel =>
      let length := (b - a)%nat in
      if (length <=? maxInsertion)%nat then insertionSort data a b
      else if (limit =? 0)%nat then heapSort data a b
      else
        let '(data, limit) :=
          if negb wasBalanced then (breakPatterns data a b, (limit - 1)%nat)
          else (data, limit) in
        let '(pivot, hint) := choosePivot data a b in
        let '(data, pivot, hint) :=
          match hint with
          | decreasingHint =>
              (reverseRange data a b, ((b - 1) - (pivot - a))%nat, increasingHint)
          | _ => (data, pivot, hint)
          end in
        let '(data, sorted) :=
          match hint with
          | increasingHint =>
              if wasBalanced && wasPartitioned then partialInsertionSort data a b
              else (data, false)
          | _ => (data, false)
          end in
        if sorted then data
        else if (0 <? a)%nat && negb (Less data (a - 1) pivot) then
          let '(data, mid) := partitionEqual data a b pivot in
          pdqsort_from fuel data mid b limit wasBalanced wasPartitioned
        else
          let '(data, mid, alreadyPartitioned) := partition data a b pivot in
          let wasPartitioned := alreadyPartitioned in
          let leftLen := (mid - a)%nat in
          let rightLen := (b - mid)%nat in
          let balanceThreshold := (length / 8)%nat in
          if (leftLen <? rightLen)%nat then
            let wasBalanced := (balanceThreshold <=? leftLen)%nat in
            let data := pdqsort_from fuel data a mid limit true true in
            pdqsort_from fuel data (mid + 1) b limit wasBalanced wasPartitioned
          else
            let wasBalanced := (balanceThreshold <=? rightLen)%nat in
            let data := pdqsort_from fuel data (mid + 1) b limit true true in
            pdqsort_from fuel data a mid limit wasBalanced wasPartitioned
  end.

Definition pdqsort (data : A) (a b limit : nat) : A :=
  pdqsort_from (S (b - a)) data a b limit true true.

(** [sort.Sort(data)]. *)
Definition Sort (data : A) : A :=
  let n := Len data in
  if (n <=? 1)%nat then data
  else
    let limit := bits_Len n in
    pdqsort data 0 n limit.

End Pdqsort.

(** *** Slices of scores over a store of backing arrays *)

(** Every slice of this program starts at cell 0 of its array, so a header
    is the array and the length; the capacity is the array's size. *)
Record Slice := mkSlice { array : nat; len : nat }.

Abbreviation Heap := (list (list Score)).

Definition backing (h : Heap) (s : Slice) : list Score :=
  default [] (h !! array s).

Definition cap (h : Heap) (s : Slice) : nat := length (backing h s).

(** The elements a slice shows: [s[0], ..., s[len(s)-1]]. *)
Definition elems (h : Heap) (s : Slice) : list Score :=
  take (len s) (backing h s).

Definition wf_slice (h : Heap) (s : Slice) : Prop :=
  (array s < length h)%nat /\ (len s <= cap h s)%nat.

(** A fresh array holding [cells], and the slice of its first [n] cells;
    [alloc h [] 0] is the empty slice literal. *)
Definition alloc (h : Heap) (cells : list Score) (n : nat) : Heap * Slice :=
  (h ++ [cells], mkSlice (length h) n).

(** *** The ranking as the specification words it *)

(** "Sort ascending by score, ties kept in insertion order": each entry is
    placed behind every entry whose score is not greater than its own. *)
Fixpoint insert_stable (x : Score) (l : list Score) : list Score :=
  match l with
  | [] => [x]
  | y :: l' =>
      if Score_ x <? Score_ y then x :: y :: l' else y :: insert_stable x l'
  end.

Definition stable_sort (l : list Score) : list Score :=
  fold_left (fun acc x => insert_stable x acc) l [].

(** "On insert: append, sort ascending by score (stable), truncate to capacity." *)
Definition spec_insert (l : list Score) (candidate : Score) : list Score :=
  take MaxHighScores (stable_sort (l ++ [candidate])).

Definition le_score (a b : Score) : Prop := Score_ a <= Score_ b.

(** Ascending by score. *)
Definition ascending (l : list Score) : Prop := StronglySorted le_score l.

(** The worst (largest) score of a non-empty list. *)
Fixpoint max_score (l : list Score) : Z :=
  match l with
  | [] => 0
  | [s] => Score_ s
  | s :: l' => Z.max (Score_ s) (max_score l')
  end.

(** ** package game: the controller's data (pacman.go) *)

Inductive GameState :=
  | StateStarting
  | StatePlaying
  | StateGameOver
  | StateEnteringHighScore
  | StateHallOfFame.

Global Instance GameState_eq_dec : EqDecision GameState.
Proof. unfold EqDecision, Decision. decide equality. Defined.

(** An [error]: its message and the error it wraps ([%w]), if any. *)
Inductive error :=
  | errorString (msg : string)
  | wrapError (msg : string) (cause : error).

Definition Error (e : error) : string :=
  match e with errorString m => m | wrapError m _ => m end.

(** [%d] of [fmt.Sprintf]. *)
Definition itoa (z : Z) : string := NilZero.string_of_int (Z.to_int z).

(** [utf8.EncodeRune], and [string(rs)] for [rs []rune]: a rune that is no
    Unicode scalar value is written as U+FFFD. *)
Definition byte (z : Z) : ascii := ascii_of_N (Z.to_N z).

Definition EncodeRune (r : Z) : string :=
  if (r <? 0) || (1114111 <? r) || ((55296 <=? r) && (r <=? 57343)) then
    String (byte 239) (String (byte 191) (String (byte 189) EmptyString))
  else if r <=? 127 then String (byte r) EmptyString
  else if r <=? 2047 then
    String (byte (Z.lor 192 (Z.shiftr r 6)))
      (String (byte (Z.lor 128 (Z.land r 63))) EmptyString)
  else if r <=? 65535 then
    String (byte (Z.lor 224 (Z.shiftr r 12)))
      (String (byte (Z.lor 128 (Z.land (Z.shiftr r 6) 63)))
         (String (byte (Z.lor 128 (Z.land r 63))) EmptyString))
  else
    String (byte (Z.lor 240 (Z.shiftr r 18)))
      (String (byte (Z.lor 128 (Z.land (Z.shiftr r 12) 63)))
         (String (byte (Z.lor 128 (Z.land (Z.shiftr r 6) 63)))
            (String (byte (Z.lor 128 (Z.land r 63))) EmptyString))).

Fixpoint string_of_runes (rs : list Z) : string :=
  match rs with
  | [] => EmptyString
  | r :: rs' => (EncodeRune r ++ string_of_runes rs')%string
  end.

(** The entities are held by value: the loaders build every entity with
    [NewPacman], so the pointers of [Pacmans] are distinct and non-nil.
    [audioManager] records whether the pointer is non-nil. *)
Record Game := mkGame {
  Pacmans : list Pacman;
  Level : Z;
  TotalBounces : Z;
  ScreenWidth : float;
  ScreenHeight : float;
  CurrentState : GameState;
  HighScores : Slice;
  highScorePath : string;
  saveGamePath : string;
  levelConfigPath : string;
  lastUpdateTime : Time;
  deltaTime : float;
  playerNameInput : list Z;
  isNewHighScore : bool;
  audioManager : bool
}.

Definition set_Pacmans (g : Game) (v : list Pacman) : Game :=
  mkGame v (Level g) (TotalBounces g) (ScreenWidth g) (ScreenHeight g)
    (CurrentState g) (HighScores g) (highScorePath g) (saveGamePath g)
    (levelConfigPath g) (lastUpdateTime g) (deltaTime g) (playerNameInput g)
    (isNewHighScore g) (audioManager g).
Definition set_TotalBounces (g : Game) (v : Z) : Game :=
  mkGame (Pacmans g) (Level g) v (ScreenWidth g) (ScreenHeight g)
    (CurrentState g) (HighScores g) (highScorePath g) (saveGamePath g)
    (levelConfigPath g) (lastUpdateTime g) (deltaTime g) (playerNameInput g)
    (isNewHighScore g) (audioManager g).
Definition set_CurrentState (g : Game) (v : GameState) : Game :=
  mkGame (Pacmans g) (Level g) (TotalBounces g) (ScreenWidth g) (ScreenHeight g)
    v (HighScores g) (highScorePath g) (saveGamePath g)
    (levelConfigPath g) (lastUpdateTime g) (deltaTime g) (playerNameInput g)
    (isNewHighScore g) (audioManager g).
Definition set_HighScores (g : Game) (v : Slice) : Game :=
  mkGame (Pacmans g) (Level g) (TotalBounces g) (ScreenWidth g) (ScreenHeight g)
    (CurrentState g) v (highScorePath g) (saveGamePath g)
    (levelConfigPath g) (lastUpdateTime g) (deltaTime g) (playerNameInput g)
    (isNewHighScore g) (audioManager g).
Definition set_time (g : Game) (dt : float) (now : Time) : Game :=
  mkGame (Pacmans g) (Level g) (TotalBounces g) (ScreenWidth g) (ScreenHeight g)
    (CurrentState g) (HighScores g) (highScorePath g) (saveGamePath g)
    (levelConfigPath g) now dt (playerNameInput g)
    (isNewHighScore g) (audioManager g).
Definition set_playerNameInput (g : Game) (v : list Z) : Game :=
  mkGame (Pacmans g) (Level g) (TotalBounces g) (ScreenWidth g) (ScreenHeight g)
    (CurrentState g) (HighScores g) (highScorePath g) (saveGamePath g)
    (levelConfigPath g) (lastUpdateTime g) (deltaTime g) v
    (isNewHighScore g) (audioManager g).
Definition set_isNewHighScore (g : Game) (v : bool) : Game :=
  mkGame (Pacmans g) (Level g) (TotalBounces g) (ScreenWidth g) (ScreenHeight g)
    (CurrentState g) (HighScores g) (highScorePath g) (saveGamePath g)
    (levelConfigPath g) (lastUpdateTime g) (deltaTime g) (playerNameInput g)
    v (audioManager g).

(** A runtime to run the examples with: growth by doubling, and insertion
    for the long slices too.  No slice of the examples is long, and none of
    their results depends on this choice. *)
Definition example_pdqsort_large (data : ByScore) : ByScore :=
  insertionSort data 0 (Len data).

Definition example_growslice_spare (oldCap : nat) : nat := (oldCap - 1)%nat.

(** A scatter step to run [Sort] with where an example needs Go's own
    sort of a long slice: none.  The examples never reach it. *)
Definition example_breakPatterns (data : ByScore) (a b : nat) : ByScore := data.

Definition failing_loader : string -> Game + error :=
  fun _ => inr (errorString "open level.txt: no such file or directory").

Definition failing_score_loader : string -> (list Score * list Score) + error :=
  fun _ => inr (errorString "unexpected EOF").

Section Runtime.

(** Two behaviours of the Go toolchain (go 1.24, as go.mod asks) that the
    repository does not fix are left open:
    - [pdqsort_large]: what [sort.Sort] does to a [ByScore] of more than
      [maxInsertion] elements (pattern-defeating quicksort); on at most
      [maxInsertion] elements it runs [insertionSort], modelled above.
      The statements of this section hold whatever it is; [Sort] above is
      what go 1.24 runs, up to its scatter step;
    - [growslice_spare]: how many cells beyond the needed one [append]
      allocates when the capacity is exhausted, from the old capacity. *)
Variable pdqsort_large : ByScore -> ByScore.
Variable growslice_spare : nat -> nat.

(** [sort.Sort(data)]: [n := data.Len(); if n <= 1 { return }; pdqsort(data, 0, n, limit)],
    and [pdqsort] starts with [if length <= maxInsertion { insertionSort(data, a, b); return }]. *)
Definition sort_Sort (data : ByScore) : ByScore :=
  let n := Len data in
  if (n <=? 1)%nat then data
  else if (n <=? maxInsertion)%nat then insertionSort data 0 n
  else pdqsort_large data.

(** [append(s, x)]: in place when a spare cell is left, into a fresh,
    larger array otherwise. *)
Definition append (h : Heap) (s : Slice) (x : Score) : Heap * Slice :=
  if (len s <? cap h s)%nat then
    (<[array s := <[len s := x]> (backing h s)]> h,
     mkSlice (array s) (S (len s)))
  else
    alloc h (elems h s ++ x :: replicate (growslice_spare (cap h s)) zeroScore)
          (S (len s)).

(** [sort.Sort(ByScore(s))]: sorts the cells the slice shows, in its array. *)
Definition sort_slice (h : Heap) (s : Slice) : Heap :=
  <[array s := sort_Sort (elems h s) ++ drop (len s) (backing h s)]> h.

(** [AddScore(scores, newScore)].  [tempScores] is a private copy that does
    not outlive the call; it is kept as a value. *)
Definition shouldAdd (h : Heap) (scores : Slice) (newScore : Score) : bool :=
  if (len scores <? MaxHighScores)%nat then true
  else
    let tempScores := sort_Sort (elems h scores) in
    match tempScores !! (length tempScores - 1)%nat with
    | Some worst => Score_ newScore <? Score_ worst
    | None => false
    end.

Definition AddScore (h : Heap) (scores : Slice) (newScore : Score)
  : Heap * Slice * bool :=
  if shouldAdd h scores newScore then
    let '(h1, scores1) := append h scores newScore in
    let h2 := sort_slice h1 scores1 in
    let scores2 :=
      if (MaxHighScores <? len scores1)%nat
      then mkSlice (array scores1) MaxHighScores
      else scores1 in
    (h2, scores2,
     existsb (fun s => bool_decide (s = newScore)) (elems h2 scores2))
  else (h, scores, false).

(** A sequence of [AddScore] calls, each on the list the last one returned. *)
Definition AddScore_all (h : Heap) (scores : Slice) (candidates : list Score)
  : Heap * Slice :=
  fold_left (fun st c => (AddScore st.1 st.2 c).1) candidates (h, scores).

(** *** The controller's operations *)

(** What the injected loaders return: a level or save loader the partial
    [Game] it read, or an error; the high-score loader a slice, given by
    the elements it shows and the spare cells of its array, or an error. *)
Definition LoadFunc := string -> Game + error.
Definition ScoreLoader := string -> (list Score * list Score) + error.

(** [NewGame]. *)
Definition NewGame (screenWidth screenHeight : float) (audioMgr : bool)
    (h : Heap) : Heap * Game :=
  let '(h', hs) := alloc h [] 0 in
  (h', mkGame [] (-1) 0 screenWidth screenHeight StateStarting hs
         EmptyString EmptyString EmptyString 0 0%float [] false audioMgr).

(** [(g *Game).RequestLoadLevel(level, configPath, loadFunc)].
    [loadHighScoresFunc] is the package variable of that name ([None] when
    nil), [now] the reading of [time.Now()]. *)
Definition RequestLoadLevel (now : Time) (loadHighScoresFunc : option ScoreLoader)
    (level : Z) (configPath : string) (loadFunc : LoadFunc)
    (h : Heap) (g : Game) : Heap * Game * option error :=
  match loadFunc configPath with
  | inr err =>
      (h, g,
       Some (wrapError ("failed to load level config '" ++ configPath
                        ++ "': " ++ Error err)%string err))
  | inl loadedGameData =>
      let lvl := Level loadedGameData in
      let hsPath := ("assets/highscores/highscores_" ++ itoa lvl ++ ".gob")%string in
      let svPath := ("assets/saves/savegame_" ++ itoa lvl ++ ".txt")%string in
      let '(h', hs) :=
        match loadHighScoresFunc with
        | Some f =>
            match f hsPath with
            | inr _ => alloc h [] 0
            | inl (loadedScores, spare) =>
                alloc h (loadedScores ++ spare) (length loadedScores)
            end
        | None => alloc h [] 0
        end in
      (h',
       mkGame (Pacmans loadedGameData) lvl (TotalBounces loadedGameData)
         (ScreenWidth g) (ScreenHeight g) StatePlaying hs hsPath svPath
         configPath now (deltaTime g) [] false (audioManager g),
       None)
  end.

(** [(g *Game).RequestLoadSavedGame(savePath, loadFunc)]. *)
Definition RequestLoadSavedGame (now : Time) (loadHighScoresFunc : option ScoreLoader)
    (savePath : string) (loadFunc : LoadFunc)
    (h : Heap) (g : Game) : Heap * Game * option error :=
  match loadFunc savePath with
  | inr err =>
      (h, g,
       Some (wrapError ("failed to load saved game '" ++ savePath
                        ++ "': " ++ Error err)%string err))
  | inl loadedGameData =>
      let lvl := Level loadedGameData in
      let cfgPath := ("assets/levels/level_" ++ itoa lvl ++ ".txt")%string in
      let hsPath := ("assets/highscores/highscores_" ++ itoa lvl ++ ".gob")%string in
      let '(h', hs) :=
        match loadHighScoresFunc with
        | Some f =>
            match f hsPath with
            | inr _ => alloc h [] 0
            | inl (loadedScores, spare) =>
                alloc h (loadedScores ++ spare) (length loadedScores)
            end
        | None => alloc h [] 0
        end in
      (h',
       mkGame (Pacmans loadedGameData) lvl (TotalBounces loadedGameData)
         (ScreenWidth g) (ScreenHeight g) StatePlaying hs hsPath savePath
         cfgPath now (deltaTime g) [] false (audioManager g),
       None)
  end.

(** [(g *Game).RequestSaveGame(saveFunc)]. *)
Definition RequestSaveGame (saveFunc : Game -> string -> option error) (g : Game)
  : option error :=
  if negb (bool_decide (CurrentState g = StatePlaying)) || (Level g <? 0) then
    Some (errorString "cannot save game: not playing")
  else
    match saveFunc g (saveGamePath g) with
    | Some err => Some (wrapError ("failed to save game: " ++ Error err)%string err)
    | None => None
    end.

(** The first loop of [Update]: every entity moves; [clk i] is the pair of
    clock readings the [i]-th entity's [Update] may take. *)
Fixpoint update_pacmans (clk : nat -> Time * Time) (i : nat)
    (dt screenWidth screenHeight : float) (ps : list Pacman)
    (bouncesThisFrame : Z) (allStopped : bool) : list Pacman * Z * bool :=
  match ps with
  | [] => ([], bouncesThisFrame, allStopped)
  | p :: rest =>
      let '(p', bounces) :=
        Pacman_Update (fst (clk i)) (snd (clk i)) dt screenWidth screenHeight p in
      let bouncesThisFrame := int_add bouncesThisFrame bounces in
      let '(_, _, _, _, stopped) := GetData p' in
      let allStopped := if negb stopped then false else allStopped in
      let '(rest', b, a) :=
        update_pacmans clk (S i) dt screenWidth screenHeight rest
          bouncesThisFrame allStopped in
      (p' :: rest', b, a)
  end.

(** [g.Pacmans[i].Bounce()]. *)
Definition bounce_at (ps : list Pacman) (i : nat) : list Pacman * bool :=
  match ps !! i with
  | Some p => let '(p', b) := Pacman_Bounce p in (<[i := p']> ps, b)
  | None => (ps, false)
  end.

(** The body of the inner collision loop, for the pair [(i, j)]; the first
    entity is seen through the snapshot taken before the inner loop. *)
Definition collide_inner (p1PosX p1PosY p1Radius : float) (i : nat)
    (acc : list Pacman * Z) (j : nat) : list Pacman * Z :=
  let '(ps, bouncesThisFrame) := acc in
  match ps !! j with
  | None => acc
  | Some p2 =>
      let '(p2PosX, p2PosY, p2Radius, p2Stopped) := GetStateForCollisionCheck p2 in
      if p2Stopped then acc
      else
        let dx := (p1PosX - p2PosX)%float in
        let dy := (p1PosY - p2PosY)%float in
        let distSq := (dx * dx + dy * dy)%float in
        let radiiSum := (p1Radius + p2Radius)%float in
        if f_gt distSq 0 && f_lt distSq (radiiSum * radiiSum) then
          let '(ps, bounced1) := bounce_at ps i in
          let '(ps, bounced2) := bounce_at ps j in
          let bouncesThisFrame :=
            if bounced1 then int_add bouncesThisFrame 1 else bouncesThisFrame in
          let bouncesThisFrame :=
            if bounced2 then int_add bouncesThisFrame 1 else bouncesThisFrame in
          (ps, bouncesThisFrame)
        else acc
  end.

(** The body of the outer collision loop, for the index [i]. *)
Definition collide_outer (numPacmans : nat) (acc : list Pacman * Z) (i : nat)
  : list Pacman * Z :=
  match fst acc !! i with
  | None => acc
  | Some p1 =>
      let '(p1PosX, p1PosY, p1Radius, p1Stopped) := GetStateForCollisionCheck p1 in
      if p1Stopped then acc
      else
        fold_left (collide_inner p1PosX p1PosY p1Radius i)
          (seq (S i) (numPacmans - S i)) acc
  end.

Definition collisions (ps : list Pacman) (bouncesThisFrame : Z) : list Pacman * Z :=
  fold_left (collide_outer (length ps)) (seq 0 (length ps)) (ps, bouncesThisFrame).

(** [(g *Game).Update()].  [now] is the reading of [time.Now()] at the start
    of the tick. *)
Definition Game_Update (now : Time) (clk : nat -> Time * Time)
    (h : Heap) (g : Game) : Heap * Game :=
  let g := set_time g (Seconds (time_Sub now (lastUpdateTime g))) now in
  if negb (bool_decide (CurrentState g = StatePlaying)) then (h, g)
  else if Level g <? 0 then (h, g)
  else
    let '(ps, bouncesThisFrame, allStopped) :=
      update_pacmans clk 0 (deltaTime g) (ScreenWidth g) (ScreenHeight g)
        (Pacmans g) 0 true in
    let '(ps, bouncesThisFrame) := collisions ps bouncesThisFrame in
    let g := set_Pacmans g ps in
    let g := set_TotalBounces g (int_add (TotalBounces g) bouncesThisFrame) in
    if allStopped then
      let g := set_CurrentState g StateGameOver in
      let '(h', _, added) :=
        AddScore h (HighScores g) (mkScore EmptyString (TotalBounces g)) in
      let g := set_isNewHighScore g added in
      if isNewHighScore g then
        (h', set_playerNameInput (set_CurrentState g StateEnteringHighScore) [])
      else (h', g)
    else (h, g).

(** [(g *Game).HandleClick(x, y)]: the first entity under the point stops. *)
Fixpoint click_first (ps : list Pacman) (x y : float) : list Pacman :=
  match ps with
  | [] => []
  | p :: rest =>
      if IsClicked p x y then fst (Pacman_Stop p) :: rest
      else p :: click_first rest x y
  end.

Definition Game_HandleClick (x y : float) (g : Game) : Game :=
  if negb (bool_decide (CurrentState g = StatePlaying)) then g
  else set_Pacmans g (click_first (Pacmans g) x y).

(** [(g *Game).HandleTextInput(chars)]. *)
Definition Game_HandleTextInput (chars : list Z) (g : Game) : Game :=
  if negb (bool_decide (CurrentState g = StateEnteringHighScore)) then g
  else if (length (playerNameInput g) <? 15)%nat then
    set_playerNameInput g (playerNameInput g ++ chars)
  else g.

(** [(g *Game).HandleBackspace()]. *)
Definition Game_HandleBackspace (g : Game) : Game :=
  if negb (bool_decide (CurrentState g = StateEnteringHighScore))
     && (0 <? length (playerNameInput g))%nat
  then set_playerNameInput g
         (take (length (playerNameInput g) - 1) (playerNameInput g))
  else g.

(** [(g *Game).HandleEnter(saveFunc)].  The third component lists the calls
    made to [saveFunc]: the elements of the slice and the path it was given,
    and what it returned. *)
Definition Game_HandleEnter (saveFunc : list Score -> string -> option error)
    (h : Heap) (g : Game)
  : Heap * Game * list (list Score * string * option error) :=
  if negb (bool_decide (CurrentState g = StateEnteringHighScore)) then (h, g, [])
  else
    let playerName := string_of_runes (playerNameInput g) in
    let playerName :=
      if String.eqb playerName EmptyString then "Anonymous"%string else playerName in
    let '(h', scores, added) :=
      AddScore h (HighScores g) (mkScore playerName (TotalBounces g)) in
    let g := set_HighScores g scores in
    let calls :=
      if added then
        [(elems h' (HighScores g), highScorePath g,
          saveFunc (elems h' (HighScores g)) (highScorePath g))]
      else [] in
    (h', set_playerNameInput (set_CurrentState g StateHallOfFame) [], calls).

(** [(g *Game).GetGameState()] and [(g *Game).GetHighScoreData()]. *)
Definition GetGameState (g : Game) : GameState * Z * Z :=
  (CurrentState g, TotalBounces g, Level g).

Definition GetHighScoreData (h : Heap) (g : Game) : GameState * list Score * string :=
  (CurrentState g, elems h (HighScores g), string_of_runes (playerNameInput g)).

(** *** Vocabulary of the statements about an entity *)

(** The coordinate an entity moves along, and the far wall of that axis. *)
Definition axis_pos (p : Pacman) : float :=
  if Direction p =? DirHorizontal then PosX p else PosY p.

Definition axis_bound (screenWidth screenHeight : float) (p : Pacman) : float :=
  if Direction p =? DirHorizontal then screenWidth else screenHeight.

(** The centre after the move of one [Update], before any snap. *)
Definition moved_pos (dt : float) (p : Pacman) : float :=
  (axis_pos p + Speed p * dt * float64_of_int (SubDirection p))%float.

(** The circle passes the near wall (coordinate 0) while heading to it, and
    the far wall while heading to it. *)
Definition past_near_wall (dt : float) (p : Pacman) : bool :=
  f_lt (moved_pos dt p - Radius p) 0 && (SubDirection p =? -1).

Definition past_far_wall (dt screenWidth screenHeight : float) (p : Pacman) : bool :=
  f_gt (moved_pos dt p + Radius p) (axis_bound screenWidth screenHeight p)
  && (SubDirection p =? 1).

(** A call on an entity, and a sequence of calls run in order. *)
Inductive Call :=
  | CallUpdate (now1 now2 : Time) (dt screenWidth screenHeight : float)
  | CallBounce
  | CallStop.

Definition run_call (p : Pacman) (c : Call) : Pacman :=
  match c with
  | CallUpdate now1 now2 dt w hgt => (Pacman_Update now1 now2 dt w hgt p).1
  | CallBounce => (Pacman_Bounce p).1
  | CallStop => (Pacman_Stop p).1
  end.

Definition run_calls (p : Pacman) (cs : list Call) : Pacman :=
  fold_left run_call cs p.

(** An entity whose counter holds the largest [int]. *)
Definition pacman_at_max_int : Pacman :=
  NewPacman 0 0 10 50 50 DirHorizontal 1 100 max_int false.

(** A running entity about to pass the far wall of a 640 x 480 arena. *)
Definition pacman_near_wall : Pacman :=
  NewPacman 0 0 10 625 50 DirHorizontal 1 0 3 false.

(** *** Example states of the controller *)

(** A stopped entity, as a save file lists it. *)
Definition stopped_pacman : Pacman :=
  NewPacman 0 0 10 50 50 DirHorizontal 1 100 0 true.

(** The state [RequestLoadSavedGame] installs from a save file whose level
    line reads -5 and that lists one stopped entity: Playing, [Level] -5. *)
Definition game_negative_level : Game :=
  mkGame [stopped_pacman] (-5) 7 640 480 StatePlaying (mkSlice 0 0)
    "assets/highscores/highscores_-5.gob" "save.txt"
    "assets/levels/level_-5.txt" 0 0%float [] false false.

(** A game over at 5 bounces, waiting for the player's name, with the name
    typed so far. *)
Definition game_entering (name : list Z) : Game :=
  mkGame [stopped_pacman] 0 5 640 480 StateEnteringHighScore (mkSlice 0 10)
    "assets/highscores/highscores_0.gob" "assets/saves/savegame_0.txt"
    "assets/levels/level_0.txt" 0 0%float name true false.

(** A store whose one array is a full list of ten runs of one bounce. *)
Definition ten_runs_of_one : list Score :=
  replicate 10 (mkScore "Ann" 1).

(** Score lists of the examples. *)
Definition unsorted_full : list Score :=
  [mkScore "j" 10; mkScore "i" 9; mkScore "h" 8; mkScore "g" 7; mkScore "f" 6;
   mkScore "e" 5; mkScore "d" 4; mkScore "c" 3; mkScore "b" 2; mkScore "a" 1].

Definition three_sorted : list Score :=
  [mkScore "Ann" 1; mkScore "Bob" 3; mkScore "Cy" 3].

(** A list of one run whose array has one spare cell, as a loader that
    builds its result with [append] returns it; and a game about to end at
    3 bounces over it. *)
Definition one_run_spare : list Score := [mkScore "Ann" 5; zeroScore].

Definition game_last_tick (bounces : Z) (highScores : Slice) : Game :=
  mkGame [stopped_pacman] 0 bounces 640 480 StatePlaying highScores
    "assets/highscores/highscores_0.gob" "assets/saves/savegame_0.txt"
    "assets/levels/level_0.txt" 0 0%float [] false false.

(** A full list whose array has spare cells. *)
Definition full_spare : list Score :=
  [mkScore "a" 1; mkScore "b" 2; mkScore "c" 3; mkScore "d" 4; mkScore "e" 5;
   mkScore "f" 6; mkScore "g" 7; mkScore "h" 8; mkScore "i" 9; mkScore "j" 20;
   zeroScore; zeroScore].

(** Twelve ranked runs, two more than the hall of fame keeps, as a file of
    scores written by another program may hold them. *)
Definition twelve_runs : list Score :=
  [mkScore "a" 1; mkScore "b" 2; mkScore "c" 3; mkScore "d" 4; mkScore "e" 5;
   mkScore "f" 6; mkScore "g" 7; mkScore "h" 8; mkScore "i" 9; mkScore "j" 10;
   mkScore "k" 11; mkScore "l" 12].

(** A sequence of calls on an entity. *)
Definition example_calls : list Call :=
  [CallUpdate 0 0 1 640 480; CallBounce; CallStop; CallUpdate 0 0 1 640 480].

(** *** Vocabulary of the further statements *)

(** The coordinate an entity does not move along. *)
Definition off_axis_pos (p : Pacman) : float :=
  if Direction p =? DirHorizontal then PosY p else PosX p.

(** The direction sign is one of the two the loaders install. *)
Definition sign_ok (p : Pacman) : Prop :=
  SubDirection p = 1 \/ SubDirection p = -1.

(** The animation frame is one of the two frames. *)
Definition frame_ok (p : Pacman) : Prop :=
  animFrame p = 0 \/ animFrame p = 1.

(** The bounce counters of a list of entities, added up without wrap-around. *)
Definition sum_bounces (ps : list Pacman) : Z :=
  foldr (fun p acc => Bounces p + acc) 0 ps.

(** Equal as Go [int]s: congruent modulo 2^64. *)
Definition eq_int (a b : Z) : Prop := a mod 2 ^ 64 = b mod 2 ^ 64.

(** [p'] is [p] after some [Update] and [Bounce] calls, and no [Stop]. *)
Definition moved_from (p p' : Pacman) : Prop :=
  exists cs, Forall (fun c => c <> CallStop) cs /\ p' = run_calls p cs.

(** *** Sequences of controller operations *)

(** The operations the controller offers, with what each call is given:
    clock readings, the click point, the typed characters, and the injected
    readers and writers. *)
Inductive Op :=
| OpUpdate (now : Time) (clk : nat -> Time * Time)
| OpClick (x y : float)
| OpText (chars : list Z)
| OpBackspace
| OpEnter (saveFunc : list Score -> string -> option error)
| OpSave (saveFunc : Game -> string -> option error)
| OpLoadLevel (now : Time) (loadHighScoresFunc : option ScoreLoader)
    (level : Z) (configPath : string) (loadFunc : LoadFunc)
| OpLoadSaved (now : Time) (loadHighScoresFunc : option ScoreLoader)
    (savePath : string) (loadFunc : LoadFunc).

Definition run_op (op : Op) (st : Heap * Game) : Heap * Game :=
  let '(h, g) := st in
  match op with
  | OpUpdate now clk => Game_Update now clk h g
  | OpClick x y => (h, Game_HandleClick x y g)
  | OpText chars => (h, Game_HandleTextInput chars g)
  | OpBackspace => (h, Game_HandleBackspace g)
  | OpEnter saveFunc => (Game_HandleEnter saveFunc h g).1
  | OpSave saveFunc => let _ := RequestSaveGame saveFunc g in (h, g)
  | OpLoadLevel now lhs level configPath loadFunc =>
      (RequestLoadLevel now lhs level configPath loadFunc h g).1
  | OpLoadSaved now lhs savePath loadFunc =>
      (RequestLoadSavedGame now lhs savePath loadFunc h g).1
  end.

Definition run_ops (ops : list Op) (st : Heap * Game) : Heap * Game :=
  fold_left (fun st op => run_op op st) ops st.

(** The high-score reader an operation is given, if any. *)
Definition op_loader (op : Op) : option ScoreLoader :=
  match op with
  | OpLoadLevel _ lhs _ _ _ => lhs
  | OpLoadSaved _ lhs _ _ => lhs
  | _ => None
  end.

(** A reader whose slices have no spare capacity, as a decoder that sizes
    its result to the data returns them. *)
Definition tight_loader (f : ScoreLoader) : Prop :=
  forall path l spare, f path = inl (l, spare) -> spare = [].

(** A reader whose lists are ranked and within the cap, whatever spare
    capacity their slices have. *)
Definition ranked_loader (f : ScoreLoader) : Prop :=
  forall path l spare, f path = inl (l, spare) ->
    (length l <= MaxHighScores)%nat /\ ascending l.

Definition ops_loaders (P : ScoreLoader -> Prop) (ops : list Op) : Prop :=
  Forall (fun op => match op_loader op with Some f => P f | None => True end) ops.

(** The operations other than the two loads. *)
Definition is_load (op : Op) : bool :=
  match op with
  | OpLoadLevel _ _ _ _ _ | OpLoadSaved _ _ _ _ => true
  | _ => false
  end.

(** The moves of the state machine. *)
Definition state_step (s s' : GameState) : Prop :=
  s' = s
  \/ s' = StatePlaying
  \/ (s = StatePlaying /\ (s' = StateGameOver \/ s' = StateEnteringHighScore))
  \/ (s = StateEnteringHighScore /\ s' = StateHallOfFame).

(** The same without the loads. *)
Definition state_step_no_load (s s' : GameState) : Prop :=
  s' = s
  \/ (s = StatePlaying /\ (s' = StateGameOver \/ s' = StateEnteringHighScore))
  \/ (s = StateEnteringHighScore /\ s' = StateHallOfFame).

(** The stored high-score slice is in the store and fills its array. *)
Definition scores_tight (h : Heap) (g : Game) : Prop :=
  wf_slice h (HighScores g) /\ cap h (HighScores g) = len (HighScores g).

(** What holds of the controller after any operations on a new game whose
    readers return slices without spare capacity. *)
Definition reachable_inv (st : Heap * Game) : Prop :=
  (CurrentState st.2 <> StateHallOfFame -> scores_tight st.1 st.2)
  /\ (CurrentState st.2 <> StateEnteringHighScore -> playerNameInput st.2 = []).

(** The stored list is ranked and within the cap. *)
Definition scores_ranked (st : Heap * Game) : Prop :=
  wf_slice st.1 (HighScores st.2)
  /\ (len (HighScores st.2) <= MaxHighScores)%nat
  /\ ascending (elems st.1 (HighScores st.2)).

(** An example session: level 0 is loaded with three ranked runs on file
    and one entity, already stopped; the next tick ends the game with a
    score that ranks; the player types a letter, presses backspace and
    confirms. *)
Definition example_score_loader : ScoreLoader :=
  fun _ => inl (three_sorted, []).

Definition example_level_loader : LoadFunc :=
  fun _ => inl (game_last_tick 0 (mkSlice 0 0)).

Definition example_ops : list Op :=
  [OpLoadLevel 0 (Some example_score_loader) 0 "assets/levels/level_0.txt"
     example_level_loader;
   OpClick 50 50;
   OpUpdate 16 (fun _ => (16, 16));
   OpText [65];
   OpBackspace;
   OpEnter (fun _ _ => None)].

(** A session on a reader that returns the ten runs of [full_spare] in a
    slice of capacity twelve: a save of level 0, taken when its only entity
    had stopped after 15 bounces, is loaded; the next tick ends the game;
    the player types a name and confirms. *)
Definition spare_score_loader : ScoreLoader :=
  fun _ => inl (take 10 full_spare, drop 10 full_spare).

Definition finished_save_loader : LoadFunc :=
  fun _ => inl (game_last_tick 15 (mkSlice 0 0)).

Definition spare_ops : list Op :=
  [OpLoadSaved 0 (Some spare_score_loader) "assets/saves/savegame_0.txt"
     finished_save_loader;
   OpUpdate 16 (fun _ => (16, 16));
   OpText [82]; OpText [111]; OpText [121];
   OpEnter (fun _ _ => None)].

(** The characters an operation types: none unless it is a text input. *)
Definition op_chars (op : Op) : list Z :=
  match op with
  | OpText chars => chars
  | _ => []
  end.

(** ** package graphics: engine.go *)

(** What [EbitenGame.Update] polls from ebiten in one frame: the keys and
    the mouse button just pressed, the cursor, the characters typed, and
    the press duration of backspace. *)
Record Input := mkInput {
  KeyQ : bool;
  MouseButtonLeft : bool;
  CursorPosition : Z * Z;
  KeyS : bool;
  KeyL : bool;
  KeyF1 : bool;
  KeyF2 : bool;
  KeyF3 : bool;
  KeyEnter : bool;
  InputChars : list Z;
  KeyBackspaceDuration : Z
}.

(** The file functions of packages persistence and config the engine
    passes on, [persistence.SaveGame] and the like, each under its name
    with a small initial; [loadHighScores] is the one [NewEbitenGame]
    injects. *)
Record Persistence := mkPersistence {
  saveGame : Game -> string -> option error;
  loadGame : LoadFunc;
  loadLevelConfig : LoadFunc;
  saveHighScores : list Score -> string -> option error;
  loadHighScores : ScoreLoader
}.

(** The clock readings of one frame, by the call that takes them. *)
Record FrameClock := mkFrameClock {
  nowLoadSaved : Time;
  nowF1 : Time;
  nowF2 : Time;
  nowF3 : Time;
  nowLoad : Time;
  nowUpdate : Time;
  clkUpdate : nat -> Time * Time
}.

(** [repeatingKeyPressed(key)], on [d = inpututil.KeyPressDuration(key)]. *)
Definition repeatingKeyPressed (d : Z) : bool :=
  let delay := 30 in
  let interval := 5 in
  if d =? 1 then true
  else if (delay <=? d) && (Z.rem (int_sub d delay) interval =? 0) then true
  else false.

(** [(eg *EbitenGame).loadLevel(level)]. *)
Definition loadLevel (ps : Persistence) (now : Time) (level : Z)
    (st : Heap * Game) : Heap * Game * option error :=
  let levelPath := ("assets/levels/level_" ++ itoa level ++ ".txt")%string in
  RequestLoadLevel now (Some (loadHighScores ps)) level levelPath
    (loadLevelConfig ps) st.1 st.2.

(** [(eg *EbitenGame).Update()].  The result is the store and game after
    the frame and the returned error. *)
Definition EbitenGame_Update (ps : Persistence) (ck : FrameClock) (inp : Input)
    (st : Heap * Game) : Heap * Game * option error :=
  let '(state, _, currentLevel) := GetGameState st.2 in
  if KeyQ inp then (st, Some (errorString "user requested quit"))
  else
    match state with
    | StatePlaying =>
        let st :=
          if MouseButtonLeft inp then
            let '(x, y) := CursorPosition inp in
            (st.1, Game_HandleClick (float64_of_int x) (float64_of_int y) st.2)
          else st in
        let _ :=
          if KeyS inp then RequestSaveGame (saveGame ps) st.2 else None in
        let st :=
          if KeyL inp then
            if 0 <=? currentLevel then
              let savePath :=
                ("assets/saves/savegame_" ++ itoa currentLevel ++ ".txt")%string in
              (RequestLoadSavedGame (nowLoadSaved ck) (Some (loadHighScores ps))
                 savePath (loadGame ps) st.1 st.2).1
            else st
          else st in
        let st := if KeyF1 inp then (loadLevel ps (nowF1 ck) 0 st).1 else st in
        let st := if KeyF2 inp then (loadLevel ps (nowF2 ck) 1 st).1 else st in
        let st := if KeyF3 inp then (loadLevel ps (nowF3 ck) 2 st).1 else st in
        (Game_Update (nowUpdate ck) (clkUpdate ck) st.1 st.2, None)
    | StateGameOver =>
        if KeyEnter inp || MouseButtonLeft inp then
          if 0 <=? currentLevel
          then ((loadLevel ps (nowLoad ck) currentLevel st).1, None)
          else ((loadLevel ps (nowLoad ck) 0 st).1, None)
        else (st, None)
    | StateEnteringHighScore =>
        let inputChars := InputChars inp in
        let st :=
          if (0 <? length inputChars)%nat
          then (st.1, Game_HandleTextInput inputChars st.2) else st in
        let st :=
          if repeatingKeyPressed (KeyBackspaceDuration inp)
          then (st.1, Game_HandleBackspace st.2) else st in
        let st :=
          if KeyEnter inp
          then (Game_HandleEnter (saveHighScores ps) st.1 st.2).1 else st in
        (st, None)
    | StateHallOfFame =>
        if KeyEnter inp || MouseButtonLeft inp
        then ((loadLevel ps (nowLoad ck) 0 st).1, None)
        else (st, None)
    | StateStarting =>
        if KeyEnter inp || MouseButtonLeft inp
        then ((loadLevel ps (nowLoad ck) 0 st).1, None)
        else (st, None)
    end.

(** [NewEbitenGame], once [LoadAssets] has returned the audio manager:
    the controller of a 640 x 480 screen. *)
Definition NewEbitenGame (audioMgr : bool) (h : Heap) : Heap * Game :=
  NewGame 640 480 audioMgr h.

(** The game loop of [ebiten.RunGame]: one [Update] per frame until one
    returns an error. *)
Fixpoint run_frames (ps : Persistence) (frames : list (FrameClock * Input))
    (st : Heap * Game) : Heap * Game * option error :=
  match frames with
  | [] => (st, None)
  | (ck, inp) :: rest =>
      match EbitenGame_Update ps ck inp st with
      | (st', None) => run_frames ps rest st'
      | (st', Some err) => (st', Some err)
      end
  end.

(** The calls a frame makes on the controller, in order. *)
Definition frame_ops (ps : Persistence) (ck : FrameClock) (inp : Input)
    (state : GameState) (currentLevel : Z) : list Op :=
  let load now level :=
    OpLoadLevel now (Some (loadHighScores ps)) level
      ("assets/levels/level_" ++ itoa level ++ ".txt")%string
      (loadLevelConfig ps) in
  if KeyQ inp then []
  else
    match state with
    | StatePlaying =>
        (if MouseButtonLeft inp
         then [OpClick (float64_of_int (CursorPosition inp).1)
                 (float64_of_int (CursorPosition inp).2)]
         else [])
        ++ (if KeyS inp then [OpSave (saveGame ps)] else [])
        ++ (if KeyL inp && (0 <=? currentLevel)
            then [OpLoadSaved (nowLoadSaved ck) (Some (loadHighScores ps))
                    ("assets/saves/savegame_" ++ itoa currentLevel ++ ".txt")%string
                    (loadGame ps)]
            else [])
        ++ (if KeyF1 inp then [load (nowF1 ck) 0] else [])
        ++ (if KeyF2 inp then [load (nowF2 ck) 1] else [])
        ++ (if KeyF3 inp then [load (nowF3 ck) 2] else [])
        ++ [OpUpdate (nowUpdate ck) (clkUpdate ck)]
    | StateGameOver =>
        if KeyEnter inp || MouseButtonLeft inp
        then [load (nowLoad ck) (if 0 <=? currentLevel then currentLevel else 0)]
        else []
    | StateEnteringHighScore =>
        (if (0 <? length (InputChars inp))%nat
         then [OpText (InputChars inp)] else [])
        ++ (if repeatingKeyPressed (KeyBackspaceDuration inp)
            then [OpBackspace] else [])
        ++ (if KeyEnter inp then [OpEnter (saveHighScores ps)] else [])
    | StateHallOfFame | StateStarting =>
        if KeyEnter inp || MouseButtonLeft inp then [load (nowLoad ck) 0] else []
    end.

(** The moves of the state machine in one frame of the engine. *)
Definition frame_step (s s' : GameState) : Prop :=
  match s with
  | StateStarting => s' = StateStarting \/ s' = StatePlaying
  | StatePlaying =>
      s' = StatePlaying \/ s' = StateGameOver \/ s' = StateEnteringHighScore
  | StateGameOver => s' = StateGameOver \/ s' = StatePlaying
  | StateEnteringHighScore =>
      s' = StateEnteringHighScore \/ s' = StateHallOfFame
  | StateHallOfFame => s' = StateHallOfFame \/ s' = StatePlaying
  end.

(** The engine's files keep the level in their names: a save file read
    back carries the level its name says. *)
Definition saves_named_by_level (ps : Persistence) : Prop :=
  forall level loaded,
    loadGame ps ("assets/saves/savegame_" ++ itoa level ++ ".txt")%string
    = inl loaded ->
    Level loaded = level.

(** The file names derived from the level in play. *)
Definition paths_by_level (g : Game) : Prop :=
  highScorePath g
  = ("assets/highscores/highscores_" ++ itoa (Level g) ++ ".gob")%string
  /\ saveGamePath g
     = ("assets/saves/savegame_" ++ itoa (Level g) ++ ".txt")%string.

(** What the engine's frames keep of a game past the start screen. *)
Definition paths_inv (st : Heap * Game) : Prop :=
  CurrentState st.2 <> StateStarting -> paths_by_level st.2.

(** A load from a save file, as the engine asks for it: from the file
    named after the level in play, with the reader of [ps]. *)
Definition engine_load (ps : Persistence) (op : Op) (st : Heap * Game) : Prop :=
  match op with
  | OpLoadSaved _ _ savePath loadFunc =>
      loadFunc = loadGame ps
      /\ savePath = ("assets/saves/savegame_" ++ itoa (Level st.2) ++ ".txt")%string
  | _ => True
  end.

(** An example run of the game loop: no save file but that of level 0,
    which holds a finished game of 4 bounces.  Enter starts level 0; the
    player saves; loads the save, which ends the game with a score that
    ranks; types a letter and confirms. *)
Definition example_persistence : Persistence :=
  mkPersistence
    (fun _ _ => None)
    (fun path =>
       if String.eqb path "assets/saves/savegame_0.txt"
       then inl (game_last_tick 4 (mkSlice 0 0))
       else inr (errorString "open: no such file or directory"))
    (fun _ =>
       inl (mkGame [pacman_near_wall; stopped_pacman] 0 0 0 0 StateStarting
              (mkSlice 0 0) "" "" "" 0 0%float [] false false))
    (fun _ _ => None)
    example_score_loader.

Definition no_input : Input :=
  mkInput false false (0, 0) false false false false false false [] 0.

Definition frame_clock (t : Time) : FrameClock :=
  mkFrameClock t t t t t t (fun _ => (t, t)).

Definition example_frames : list (FrameClock * Input) :=
  [(frame_clock 0,
    mkInput false false (0, 0) false false false false false true [] 0);
   (frame_clock 16,
    mkInput false false (0, 0) true false false false false false [] 0);
   (frame_clock 32,
    mkInput false false (0, 0) false true false false false false [] 0);
   (frame_clock 48,
    mkInput false false (0, 0) false false false false false true [65] 0)].

(** Where the entities are, where they head and what they have counted. *)
Definition motion (ps : list Pacman) : list (float * float * Z * Z) :=
  (fun p => (PosX p, PosY p, SubDirection p, Bounces p)) <$> ps.

(** No two distinct entities of the list are both running. *)
Definition at_most_one_running (ps : list Pacman) : Prop :=
  forall i j p q, i <> j -> ps !! i = Some p -> ps !! j = Some q ->
    IsStopped p = true \/ IsStopped q = true.

(** ** packages config and persistence: the level and save readers *)

(** The functions of Go's [strings] and [strconv] packages the readers
    call, left open. *)
Record GoStrings := mkGoStrings {
  TrimSpace : string -> string;
  HasPrefix : string -> string -> bool;
  Split : string -> string -> list string;
  ToLower : string -> string;
  ToUpper : string -> string;
  Atoi : string -> Z + error;
  ParseFloat : string -> float + error
}.

(** What [os.Open] and the [bufio.Scanner] over the file give: an error of
    [os.Open], which may say the file does not exist, or the lines
    scanned and the error [scanner.Err()] reports after them. *)
Inductive OpenResult :=
  | OpenFailed (err : error) (isNotExist : bool)
  | Opened (lines : list string) (scanErr : option error).

(** The variables of the readers' loops. *)
Record LoadState := mkLoadState {
  ls_lineNum : Z;
  ls_level : Z;
  ls_totalBounces : Z;
  ls_pacmans : list Pacman;
  ls_idCounter : Z
}.

(** How one pass of a loop ends: with [continue] or at its end, with a
    [return] of an error, or in a run-time panic. *)
Inductive Flow :=
  | Continue (st : LoadState)
  | ReturnErr (err : error)
  | Panics.

(** What a reader gives: a return, of a partial game or an error, or a
    run-time panic. *)
Inductive Outcome :=
  | Returns (r : Game + error)
  | Panicked.

Definition tab : string := String (ascii_of_nat 9) EmptyString.

(** The direction column, as both readers decode it; [None] is the panic
    of indexing an empty string. *)
Definition direction_of (go : GoStrings) (directionStr : string) : option Z :=
  if (0 <? String.length directionStr)%nat then
    match ToUpper go directionStr with
    | String c _ =>
        let d := Z.of_N (N_of_ascii c) in
        if (d =? DirHorizontal) || (d =? DirVertical) then Some d
        else Some DirHorizontal
    | EmptyString => None
    end
  else Some DirHorizontal.

(** The partial game the readers return: the other fields are zero. *)
Definition partial_game (level totalBounces : Z) (pacmans : list Pacman) : Game :=
  mkGame pacmans level totalBounces 0 0 StateStarting (mkSlice 0 0)
    EmptyString EmptyString EmptyString 0 0%float [] false false.

(** The body of the loop of [persistence.LoadGame]; [now] is the reading
    of [time.Now()] in [NewPacman]. *)
Definition LoadGame_line (go : GoStrings) (now : Time) (filepath : string)
    (st : LoadState) (text : string) : Flow :=
  let lineNum := int_add (ls_lineNum st) 1 in
  let st := mkLoadState lineNum (ls_level st) (ls_totalBounces st)
              (ls_pacmans st) (ls_idCounter st) in
  let line := TrimSpace go text in
  if String.eqb line EmptyString || HasPrefix go line "#" then Continue st
  else if ls_level st =? -1 then
    match Atoi go line with
    | inr err =>
        ReturnErr (wrapError ("line " ++ itoa lineNum
                              ++ ": expected level number, got '" ++ line
                              ++ "': " ++ Error err)%string err)
    | inl levelVal =>
        Continue (mkLoadState lineNum levelVal (ls_totalBounces st)
                    (ls_pacmans st) (ls_idCounter st))
    end
  else if ls_totalBounces st =? -1 then
    match Atoi go line with
    | inr err =>
        ReturnErr (wrapError ("line " ++ itoa lineNum
                              ++ ": expected total bounces number, got '" ++ line
                              ++ "': " ++ Error err)%string err)
    | inl bouncesVal =>
        Continue (mkLoadState lineNum (ls_level st) bouncesVal
                    (ls_pacmans st) (ls_idCounter st))
    end
  else
    let parts := Split go line tab in
    if (length parts <? 8)%nat then Continue st
    else
      let directionStr := nth 4 parts EmptyString in
      let isStoppedStr := ToLower go (nth 7 parts EmptyString) in
      match ParseFloat go (nth 0 parts EmptyString),
            ParseFloat go (nth 1 parts EmptyString),
            ParseFloat go (nth 2 parts EmptyString),
            Atoi go (nth 3 parts EmptyString),
            Atoi go (nth 5 parts EmptyString),
            Atoi go (nth 6 parts EmptyString) with
      | inl diameter, inl posX, inl posY, inl waitTimeMs, inl subDirection,
        inl bounces =>
          match direction_of go directionStr with
          | None => Panics
          | Some direction =>
              let subDirection :=
                if negb (subDirection =? 1) && negb (subDirection =? -1)
                then 1 else subDirection in
              let isStopped :=
                String.eqb isStoppedStr "true" || String.eqb isStoppedStr "1" in
              let radius := (diameter / 2)%float in
              if PrimFloat.leb radius 0 then Continue st
              else
                let pacman :=
                  NewPacman now (ls_idCounter st) radius posX posY direction
                    subDirection waitTimeMs bounces isStopped in
                Continue (mkLoadState lineNum (ls_level st) (ls_totalBounces st)
                            (ls_pacmans st ++ [pacman])
                            (int_add (ls_idCounter st) 1))
          end
      | _, _, _, _, _, _ => Continue st
      end.

(** The body of the loop of [config.LoadLevelConfig]. *)
Definition LoadLevelConfig_line (go : GoStrings) (now : Time) (filepath : string)
    (st : LoadState) (text : string) : Flow :=
  let lineNum := int_add (ls_lineNum st) 1 in
  let st := mkLoadState lineNum (ls_level st) (ls_totalBounces st)
              (ls_pacmans st) (ls_idCounter st) in
  let line := TrimSpace go text in
  if String.eqb line EmptyString || HasPrefix go line "#" then Continue st
  else if ls_level st =? -1 then
    match Atoi go line with
    | inr err =>
        ReturnErr (wrapError ("line " ++ itoa lineNum
                              ++ ": expected level number, got '" ++ line
                              ++ "': " ++ Error err)%string err)
    | inl levelVal =>
        let level := if (levelVal <? 0) || (2 <? levelVal) then 0 else levelVal in
        Continue (mkLoadState lineNum level (ls_totalBounces st)
                    (ls_pacmans st) (ls_idCounter st))
    end
  else
    let parts := Split go line tab in
    if (length parts <? 7)%nat then Continue st
    else
      let directionStr := nth 4 parts EmptyString in
      let isStoppedStr := ToLower go (nth 6 parts EmptyString) in
      match ParseFloat go (nth 0 parts EmptyString),
            ParseFloat go (nth 1 parts EmptyString),
            ParseFloat go (nth 2 parts EmptyString),
            Atoi go (nth 3 parts EmptyString),
            Atoi go (nth 5 parts EmptyString) with
      | inl diameter, inl posX, inl posY, inl waitTimeMs, inl bounces =>
          match direction_of go directionStr with
          | None => Panics
          | Some direction =>
              let initialSubDirection := 1 in
              let isStopped :=
                String.eqb isStoppedStr "true" || String.eqb isStoppedStr "1" in
              let radius := (diameter / 2)%float in
              if PrimFloat.leb radius 0 then Continue st
              else
                let pacman :=
                  NewPacman now (ls_idCounter st) radius posX posY direction
                    initialSubDirection waitTimeMs bounces isStopped in
                Continue (mkLoadState lineNum (ls_level st) (ls_totalBounces st)
                            (ls_pacmans st ++ [pacman])
                            (int_add (ls_idCounter st) 1))
          end
      | _, _, _, _, _ => Continue st
      end.

(** The loop [for scanner.Scan()] over the lines; [now i] is the clock at
    the [i]-th line. *)
Fixpoint scan_lines (body : Time -> LoadState -> string -> Flow)
    (now : nat -> Time) (i : nat) (lines : list string) (st : LoadState) : Flow :=
  match lines with
  | [] => Continue st
  | text :: rest =>
      match body (now i) st text with
      | Continue st' => scan_lines body now (S i) rest st'
      | ReturnErr err => ReturnErr err
      | Panics => Panics
      end
  end.

(** [persistence.LoadGame(filepath)], on what the file system gives for
    the path. *)
Definition LoadGame (go : GoStrings) (now : nat -> Time) (file : OpenResult)
    (filepath : string) : Outcome :=
  match file with
  | OpenFailed err isNotExist =>
      if isNotExist then
        Returns (inr (errorString ("save file '" ++ filepath ++ "' not found")))
      else
        Returns (inr (wrapError ("error opening save file " ++ filepath ++ ": "
                                 ++ Error err)%string err))
  | Opened lines scanErr =>
      match scan_lines (fun t => LoadGame_line go t filepath) now 0 lines
              (mkLoadState 0 (-1) (-1) [] 0) with
      | Panics => Panicked
      | ReturnErr err => Returns (inr err)
      | Continue st =>
          match scanErr with
          | Some err =>
              Returns (inr (wrapError ("error reading save file " ++ filepath
                                       ++ ": " ++ Error err)%string err))
          | None =>
              if (ls_level st =? -1) || (ls_totalBounces st =? -1) then
                Returns (inr (errorString
                                ("save file " ++ filepath
                                 ++ " did not contain valid level or bounce data")))
              else
                Returns (inl (partial_game (ls_level st) (ls_totalBounces st)
                                (ls_pacmans st)))
          end
      end
  end.

(** [config.LoadLevelConfig(filepath)]. *)
Definition LoadLevelConfig (go : GoStrings) (now : nat -> Time)
    (file : OpenResult) (filepath : string) : Outcome :=
  match file with
  | OpenFailed err _ =>
      Returns (inr (wrapError ("error opening level file " ++ filepath ++ ": "
                               ++ Error err)%string err))
  | Opened lines scanErr =>
      match scan_lines (fun t => LoadLevelConfig_line go t filepath) now 0 lines
              (mkLoadState 0 (-1) 0 [] 0) with
      | Panics => Panicked
      | ReturnErr err => Returns (inr err)
      | Continue st =>
          match scanErr with
          | Some err =>
              Returns (inr (wrapError ("error reading level file " ++ filepath
                                       ++ ": " ++ Error err)%string err))
          | None =>
              if ls_level st =? -1 then
                Returns (inr (errorString
                                ("level file " ++ filepath
                                 ++ " did not contain a valid level number")))
              else Returns (inl (partial_game (ls_level st) 0 (ls_pacmans st)))
          end
      end
  end.

(** An entity as the readers build it: a direction sign of 1 or -1, one of
    the two axes, a radius that is not at most zero, and an animation
    frame of 0 or 1. *)
Definition entity_ok (p : Pacman) : Prop :=
  sign_ok p
  /\ (Direction p = DirHorizontal \/ Direction p = DirVertical)
  /\ PrimFloat.leb (Radius p) 0 = false
  /\ frame_ok p.

(** The level or save reader an operation is given, if any. *)
Definition op_loadFunc (op : Op) : option LoadFunc :=
  match op with
  | OpLoadLevel _ _ _ _ loadFunc => Some loadFunc
  | OpLoadSaved _ _ _ loadFunc => Some loadFunc
  | _ => None
  end.

(** A reader all of whose entities are as above. *)
Definition entities_ok_loader (f : LoadFunc) : Prop :=
  forall path loaded, f path = inl loaded -> Forall entity_ok (Pacmans loaded).

(** An entity as [NewPacman] hands it to the readers: of the kind above,
    and on animation frame 0. *)
Definition entity_new (p : Pacman) : Prop := entity_ok p /\ animFrame p = 0.

(** What the readers' loops keep: the entities built so far are as
    [NewPacman] left them, and numbered from 0 in the order they were
    built. *)
Definition load_inv (st : LoadState) : Prop :=
  Forall entity_new (ls_pacmans st)
  /\ ls_idCounter st = wrap64 (Z.of_nat (length (ls_pacmans st)))
  /\ forall i p, ls_pacmans st !! i = Some p -> ID p = wrap64 (Z.of_nat i).

(** What the loop of the level reader keeps besides. *)
Definition level_inv (st : LoadState) : Prop :=
  Forall (fun p => SubDirection p = 1) (ls_pacmans st)
  /\ (ls_level st = -1 \/ 0 <= ls_level st <= 2).

(** Example string functions, enough for files of plain decimal numbers:
    no space is trimmed and no case is changed. *)
Fixpoint split_on (c : ascii) (s : string) : list string :=
  match s with
  | EmptyString => [EmptyString]
  | String a rest =>
      if Ascii.eqb a c then EmptyString :: split_on c rest
      else match split_on c rest with
           | first :: others => String a first :: others
           | [] => [String a EmptyString]
           end
  end.

Definition example_Atoi (s : string) : Z + error :=
  match NilZero.int_of_string s with
  | Some d => inl (Z.of_int d)
  | None => inr (errorString "strconv.Atoi: invalid syntax")
  end.

Definition example_go : GoStrings :=
  mkGoStrings
    (fun s => s)
    (fun s p => String.prefix p s)
    (fun s sep =>
       match sep with
       | String c EmptyString => split_on c s
       | _ => [s]
       end)
    (fun s => s)
    (fun s => s)
    example_Atoi
    (fun s =>
       match example_Atoi s with
       | inl z => inl (float64_of_int z)
       | inr err => inr err
       end).

(** A save file: level -5, 7 bounces, and three entity lines, the second
    with a diameter of zero and the third with a direction sign of 3. *)
Definition example_save_file : OpenResult :=
  Opened
    ["-5"; "7";
     "20" ++ tab ++ "50" ++ tab ++ "60" ++ tab ++ "100" ++ tab ++ "V" ++ tab
       ++ "-1" ++ tab ++ "2" ++ tab ++ "false";
     "0" ++ tab ++ "50" ++ tab ++ "60" ++ tab ++ "100" ++ tab ++ "V" ++ tab
       ++ "1" ++ tab ++ "0" ++ tab ++ "false";
     "30" ++ tab ++ "90" ++ tab ++ "60" ++ tab ++ "100" ++ tab ++ "x" ++ tab
       ++ "3" ++ tab ++ "0" ++ tab ++ "true"]%string
    None.

(** A level file: a comment, level 7, and one entity line. *)
Definition example_level_file : OpenResult :=
  Opened
    ["# level"; "7";
     "20" ++ tab ++ "50" ++ tab ++ "60" ++ tab ++ "100" ++ tab ++ "H" ++ tab
       ++ "0" ++ tab ++ "false"]%string
    None.

(** Unfolds the field updates of a [Game]. *)
Ltac game_simpl :=
  cbn [CurrentState Level Pacmans TotalBounces HighScores playerNameInput
       isNewHighScore highScorePath saveGamePath levelConfigPath
       ScreenWidth ScreenHeight deltaTime lastUpdateTime audioManager
       set_time set_Pacmans set_TotalBounces set_CurrentState
       set_isNewHighScore set_playerNameInput set_HighScores fst snd] in *.

(** ** Properties *)

(** *** Insertion sort on a [ByScore] is the stable sort *)

Lemma insert_stable_snoc_lt x y l :
  Score_ x < Score_ y -> insert_stable x (l ++ [y]) = insert_stable x l ++ [y].
Proof.
  intros Hxy. induction l as [|z l IH]; simpl.
  - apply Z.ltb_lt in Hxy. now rewrite Hxy.
  - destruct (Score_ x <? Score_ z); [reflexivity|]. now rewrite IH.
Qed.

Lemma insert_stable_all_le x l :
  Forall (fun z => Score_ z <= Score_ x) l -> insert_stable x l = l ++ [x].
Proof.
  induction 1 as [|z l Hz _ IH]; simpl; [reflexivity|].
  apply Z.ltb_ge in Hz. now rewrite Hz, IH.
Qed.

Lemma ascending_snoc_inv l y :
  ascending (l ++ [y]) -> ascending l /\ Forall (fun z => Score_ z <= Score_ y) l.
Proof.
  induction l as [|z l IH]; simpl; intros H.
  - split; constructor.
  - apply StronglySorted_inv in H as [Hs Hall].
    destruct (IH Hs) as [Hl Hle]. split.
    + constructor; [exact Hl|]. apply Forall_app in Hall. tauto.
    + constructor; [|exact Hle].
      apply Forall_app in Hall as [_ Hy]. now inversion Hy.
Qed.

Lemma insertionSort_inner_spec pre x post :
  ascending pre ->
  insertionSort_inner (pre ++ x :: post : ByScore) 0 (length pre)
  = insert_stable x pre ++ post.
Proof.
  revert x post. induction pre as [|y pre IH] using rev_ind; intros x post Hs.
  - reflexivity.
  - apply ascending_snoc_inv in Hs as [Hs Hle].
    rewrite length_app, Nat.add_1_r. cbn [insertionSort_inner].
    replace (0 <? S (length pre))%nat with true by (symmetry; apply Nat.ltb_lt; lia).
    cbn [andb Less Swap ByScore_Interface].
    rewrite <- (app_assoc pre [y] (x :: post)). cbn [app].
    assert (Hx : (pre ++ y :: x :: post) !! S (length pre) = Some x).
    { change (pre ++ y :: x :: post) with (pre ++ [y] ++ x :: post).
      rewrite app_assoc. apply list_lookup_middle.
      now rewrite length_app, Nat.add_1_r. }
    assert (Hy : (pre ++ y :: x :: post) !! length pre = Some y).
    { now apply list_lookup_middle. }
    rewrite Hx, Hy.
    destruct (Score_ x <? Score_ y) eqn:Hlt.
    + apply Z.ltb_lt in Hlt.
      assert (Hsw : <[length pre := x]> (<[S (length pre) := y]> (pre ++ y :: x :: post))
                    = pre ++ x :: y :: post).
      { rewrite !insert_app_r_alt by lia.
        replace (S (length pre) - length pre)%nat with 1%nat by lia.
        now rewrite Nat.sub_diag. }
      rewrite Hsw, IH by exact Hs.
      rewrite insert_stable_snoc_lt by exact Hlt.
      now rewrite <- app_assoc.
    + apply Z.ltb_ge in Hlt.
      rewrite insert_stable_all_le.
      * now rewrite <- !app_assoc.
      * apply Forall_app. split; [|now repeat constructor].
        eapply Forall_impl; [exact Hle|]. intros z Hz. cbn in Hz. lia.
Qed.

Lemma insert_stable_length x l : length (insert_stable x l) = S (length l).
Proof.
  induction l as [|y l IH]; simpl; [reflexivity|].
  destruct (Score_ x <? Score_ y); simpl; congruence.
Qed.

Lemma insert_stable_perm x l : Permutation (insert_stable x l) (x :: l).
Proof.
  induction l as [|y l IH]; simpl; [reflexivity|].
  destruct (Score_ x <? Score_ y); [reflexivity|].
  rewrite IH. apply perm_swap.
Qed.

Lemma insert_stable_ascending x l : ascending l -> ascending (insert_stable x l).
Proof.
  induction 1 as [|y l Hs IH Hall]; simpl.
  - repeat constructor.
  - destruct (Score_ x <? Score_ y) eqn:Hlt.
    + apply Z.ltb_lt in Hlt. constructor; [now constructor|].
      constructor; [unfold le_score; lia|].
      eapply Forall_impl; [exact Hall|]. unfold le_score. intros z Hz. lia.
    + apply Z.ltb_ge in Hlt. constructor; [exact IH|].
      rewrite (insert_stable_perm x l). now constructor.
Qed.

Lemma fold_insert_ascending rest pre :
  ascending pre -> ascending (fold_left (fun acc x => insert_stable x acc) rest pre).
Proof.
  revert pre. induction rest as [|x rest IH]; intros pre Hs; simpl; [exact Hs|].
  apply IH. now apply insert_stable_ascending.
Qed.

Lemma fold_insert_perm rest pre :
  Permutation (fold_left (fun acc x => insert_stable x acc) rest pre) (pre ++ rest).
Proof.
  revert pre. induction rest as [|x rest IH]; intros pre; simpl.
  - now rewrite app_nil_r.
  - rewrite IH, insert_stable_perm. simpl. apply Permutation_middle.
Qed.

Lemma stable_sort_ascending l : ascending (stable_sort l).
Proof. apply fold_insert_ascending. constructor. Qed.

Lemma stable_sort_perm l : Permutation (stable_sort l) l.
Proof. unfold stable_sort. now rewrite fold_insert_perm. Qed.

Lemma stable_sort_length l : length (stable_sort l) = length l.
Proof. now rewrite (stable_sort_perm l). Qed.

Lemma stable_sort_snoc l x : stable_sort (l ++ [x]) = insert_stable x (stable_sort l).
Proof. unfold stable_sort. now rewrite fold_left_app. Qed.

Lemma insertionSort_outer_spec rest pre :
  ascending pre ->
  fold_left (fun (d : ByScore) i => insertionSort_inner d 0 i)
    (seq (length pre) (length rest)) (pre ++ rest)
  = fold_left (fun acc x => insert_stable x acc) rest pre.
Proof.
  revert pre. induction rest as [|x rest IH]; intros pre Hs; simpl.
  - now rewrite app_nil_r.
  - rewrite insertionSort_inner_spec by exact Hs.
    rewrite <- (insert_stable_length x pre).
    apply IH. now apply insert_stable_ascending.
Qed.

Lemma insertionSort_stable (data : ByScore) :
  insertionSort data 0 (length data) = stable_sort data.
Proof.
  destruct data as [|x rest]; [reflexivity|].
  unfold insertionSort. cbn [length]. rewrite Nat.sub_succ, Nat.sub_0_r.
  change (x :: rest) with ([x] ++ rest).
  change 1%nat with (length [x]).
  rewrite insertionSort_outer_spec by (repeat constructor).
  reflexivity.
Qed.

(** On the slices [sort.Sort] hands to [insertionSort], it is the stable sort. *)
Lemma sort_Sort_small (data : ByScore) :
  (length data <= maxInsertion)%nat -> sort_Sort data = stable_sort data.
Proof.
  intros Hn. unfold sort_Sort. cbn [Len ByScore_Interface].
  destruct (length data <=? 1)%nat eqn:H1.
  - apply Nat.leb_le in H1.
    destruct data as [|x [|y data]]; [reflexivity|reflexivity|simpl in H1; lia].
  - apply Nat.leb_le in Hn. rewrite Hn. apply insertionSort_stable.
Qed.

(** *** Slices over the store *)

Lemma wf_slice_backing h s :
  wf_slice h s -> h !! array s = Some (backing h s) /\ (len s <= length (backing h s))%nat.
Proof.
  intros [Ha Hl]. unfold cap in Hl. split; [|exact Hl].
  unfold backing. destruct (h !! array s) eqn:E; [reflexivity|].
  apply lookup_ge_None in E. lia.
Qed.

Lemma elems_length h s : wf_slice h s -> length (elems h s) = len s.
Proof.
  intros Hwf. destruct (wf_slice_backing h s Hwf) as [_ Hl].
  unfold elems. rewrite length_take. lia.
Qed.

Lemma backing_insert h s a :
  (array s < length h)%nat -> backing (<[array s := a]> h) s = a.
Proof. intros Ha. unfold backing. now rewrite list_lookup_insert_eq. Qed.

Lemma backing_alloc h cells n : backing (h ++ [cells]) (mkSlice (length h) n) = cells.
Proof. unfold backing. cbn [array]. now rewrite list_lookup_middle. Qed.

Lemma append_spec h s x h1 s1 :
  wf_slice h s -> append h s x = (h1, s1) ->
  elems h1 s1 = elems h s ++ [x] /\ wf_slice h1 s1 /\ len s1 = S (len s).
Proof.
  intros Hwf. destruct (wf_slice_backing h s Hwf) as [Hb Hl].
  destruct Hwf as [Ha _]. unfold append, cap.
  destruct (len s <? length (backing h s))%nat eqn:Hlt; intros [= <- <-].
  - apply Nat.ltb_lt in Hlt. cbn [len array].
    unfold elems, wf_slice, cap. cbn [len array].
    change (backing (<[array s := <[len s := x]> (backing h s)]> h)
              {| array := array s; len := S (len s) |})
      with (backing (<[array s := <[len s := x]> (backing h s)]> h) s).
    rewrite backing_insert by exact Ha.
    rewrite !length_insert. repeat split; try lia.
    rewrite (take_S_r _ _ x) by (now apply list_lookup_insert_eq).
    now rewrite take_insert_ge.
  - apply Nat.ltb_ge in Hlt. unfold alloc, elems, wf_slice, cap.
    rewrite backing_alloc. cbn [len array].
    assert (Hlen : length (take (len s) (backing h s)) = len s)
      by (rewrite length_take; lia).
    rewrite !length_app, Hlen. cbn [length]. repeat split; try lia.
    rewrite take_app_ge by lia. rewrite Hlen.
    replace (S (len s) - len s)%nat with 1%nat by lia. reflexivity.
Qed.

Lemma sort_slice_spec h s :
  wf_slice h s -> (len s <= maxInsertion)%nat ->
  elems (sort_slice h s) s = stable_sort (elems h s) /\ wf_slice (sort_slice h s) s.
Proof.
  intros Hwf Hn. pose proof (elems_length h s Hwf) as Hlen.
  destruct (wf_slice_backing h s Hwf) as [Hb Hl]. destruct Hwf as [Ha _].
  unfold sort_slice. rewrite sort_Sort_small by lia.
  unfold elems at 1, wf_slice, cap.
  rewrite backing_insert by exact Ha.
  rewrite length_insert, length_app, stable_sort_length, Hlen, length_drop.
  split; [|lia].
  rewrite take_app_ge by (rewrite stable_sort_length; lia).
  rewrite stable_sort_length, Hlen, Nat.sub_diag, take_0. apply app_nil_r.
Qed.

(** [s[:n]] for [n <= len(s)]. *)
Lemma reslice_spec h s n :
  wf_slice h s -> (n <= len s)%nat ->
  elems h (mkSlice (array s) n) = take n (elems h s)
  /\ wf_slice h (mkSlice (array s) n).
Proof.
  intros [Ha Hl] Hn. unfold elems, wf_slice, cap, backing in *. cbn [array len].
  split; [|lia]. rewrite take_take. f_equal. lia.
Qed.

(** What [AddScore] returns when the candidate is admitted: the stable sort
    of the list with the candidate appended, cut at the capacity. *)
Lemma AddScore_added h s c :
  wf_slice h s -> (len s < maxInsertion)%nat -> shouldAdd h s c = true ->
  exists h2 s2,
    AddScore h s c
    = (h2, s2, existsb (fun x => bool_decide (x = c)) (spec_insert (elems h s) c))
    /\ elems h2 s2 = spec_insert (elems h s) c /\ wf_slice h2 s2.
Proof.
  intros Hwf Hn Hadd. unfold AddScore. rewrite Hadd.
  destruct (append h s c) as [h1 s1] eqn:Happ.
  destruct (append_spec _ _ _ _ _ Hwf Happ) as (Hel & Hwf1 & Hlen1).
  destruct (sort_slice_spec h1 s1 Hwf1 ltac:(lia)) as [Hsorted Hwf2].
  set (h2 := sort_slice h1 s1) in *.
  set (s2 := if (MaxHighScores <? len s1)%nat
             then mkSlice (array s1) MaxHighScores else s1).
  assert (Hs2 : elems h2 s2 = spec_insert (elems h s) c /\ wf_slice h2 s2).
  { unfold spec_insert. rewrite <- Hel, <- Hsorted. subst s2.
    destruct (MaxHighScores <? len s1)%nat eqn:Hcut.
    - apply Nat.ltb_lt in Hcut. apply reslice_spec; [exact Hwf2|lia].
    - apply Nat.ltb_ge in Hcut. split; [|exact Hwf2].
      rewrite take_ge; [reflexivity|].
      rewrite (elems_length _ _ Hwf2). exact Hcut. }
  exists h2, s2. destruct Hs2 as [Hs2 Hwf3]. now rewrite Hs2.
Qed.

Lemma AddScore_not_added h s c :
  shouldAdd h s c = false -> AddScore h s c = (h, s, false).
Proof. intros H. unfold AddScore. now rewrite H. Qed.

(** *** The worst score and the admission test *)

Lemma lt_max_score z l :
  l <> [] -> z < max_score l <-> Exists (fun s => z < Score_ s) l.
Proof.
  induction l as [|s l IH]; [congruence|]. intros _.
  destruct l as [|t l].
  - cbn. rewrite Exists_cons, Exists_nil. tauto.
  - change (max_score (s :: t :: l)) with (Z.max (Score_ s) (max_score (t :: l))).
    rewrite Exists_cons, <- IH by congruence. lia.
Qed.

Lemma ascending_last_max t w :
  ascending t -> t !! (length t - 1)%nat = Some w ->
  Forall (fun s => Score_ s <= Score_ w) t.
Proof.
  intros Hs Hw. destruct t as [|a t] using rev_ind; [discriminate|]. clear IHt.
  rewrite length_app, Nat.add_sub in Hw.
  rewrite list_lookup_middle in Hw by reflexivity. injection Hw as ->.
  apply ascending_snoc_inv in Hs as [_ Hle].
  apply Forall_app. split; [exact Hle|]. repeat constructor. lia.
Qed.

Lemma shouldAdd_spec h s c :
  wf_slice h s -> (len s <= maxInsertion)%nat ->
  shouldAdd h s c
  = (len s <? MaxHighScores)%nat || (Score_ c <? max_score (elems h s)).
Proof.
  intros Hwf Hn. pose proof (elems_length h s Hwf) as Hlen. unfold shouldAdd.
  destruct (len s <? MaxHighScores)%nat eqn:Hfull; [reflexivity|].
  apply Nat.ltb_ge in Hfull. cbn [orb]. cbv zeta.
  rewrite sort_Sort_small by lia.
  set (l := elems h s) in *. set (t := stable_sort l).
  assert (Hne : l <> []) by (intros E; rewrite E in Hlen; cbn in *; unfold MaxHighScores in *; lia).
  assert (Ht : length t = len s) by (unfold t; now rewrite stable_sort_length).
  destruct (t !! (length t - 1)%nat) as [w|] eqn:Hw.
  2:{ apply lookup_ge_None in Hw. unfold MaxHighScores in *. lia. }
  pose proof (ascending_last_max t w (stable_sort_ascending l) Hw) as Hmax.
  assert (Hin : w ∈ l).
  { rewrite <- (stable_sort_perm l). eapply list_elem_of_lookup_2. exact Hw. }
  destruct (Score_ c <? Score_ w) eqn:Hc; symmetry.
  - apply Z.ltb_lt in Hc. apply Z.ltb_lt. apply lt_max_score; [exact Hne|].
    apply Exists_exists. exists w. split; [exact Hin|exact Hc].
  - apply Z.ltb_ge in Hc. apply Z.ltb_ge.
    destruct (Z.lt_ge_cases (Score_ c) (max_score l)) as [Hlt|Hge]; [|exact Hge].
    apply lt_max_score in Hlt; [|exact Hne].
    apply Exists_exists in Hlt as (x & Hx & Hcx).
    rewrite <- (stable_sort_perm l) in Hx.
    rewrite Forall_forall in Hmax. specialize (Hmax x Hx). cbn in Hmax. lia.
Qed.

(** Where [insert_stable] puts the candidate in an ascending list: behind
    every entry that is not worse, before every entry that is worse. *)
Lemma insert_stable_split c t :
  ascending t ->
  exists before after,
    t = before ++ after /\ insert_stable c t = before ++ c :: after
    /\ Forall (fun s => Score_ s <= Score_ c) before
    /\ Forall (fun s => Score_ c < Score_ s) after.
Proof.
  induction 1 as [|y t Hs IH Hall]; simpl.
  - exists [], []. repeat split; constructor.
  - destruct (Score_ c <? Score_ y) eqn:Hlt.
    + apply Z.ltb_lt in Hlt. exists [], (y :: t). repeat split; [constructor|].
      constructor; [exact Hlt|]. eapply Forall_impl; [exact Hall|].
      unfold le_score. intros z Hz. lia.
    + apply Z.ltb_ge in Hlt. destruct IH as (b & a & -> & -> & Hb & Ha).
      exists (y :: b), a. repeat split; [|exact Ha]. now constructor.
Qed.

Lemma ascending_take n t : ascending t -> ascending (take n t).
Proof.
  intros Hs. revert n. induction Hs as [|y t Hs IH Hall]; intros [|n]; simpl; try constructor.
  - apply IH.
  - apply Forall_take. exact Hall.
Qed.

Lemma spec_insert_ascending l c : ascending (spec_insert l c).
Proof. apply ascending_take, stable_sort_ascending. Qed.

Lemma spec_insert_length l c : (length (spec_insert l c) <= MaxHighScores)%nat.
Proof. unfold spec_insert. rewrite length_take. lia. Qed.

(** An admitted candidate is found again after the truncation. *)
Lemma admitted_is_retained h s c :
  wf_slice h s -> (len s <= MaxHighScores)%nat -> shouldAdd h s c = true ->
  existsb (fun x => bool_decide (x = c)) (spec_insert (elems h s) c) = true.
Proof.
  intros Hwf Hn Hadd. pose proof (elems_length h s Hwf) as Hlen.
  rewrite shouldAdd_spec in Hadd by (unfold maxInsertion, MaxHighScores in *; lia || exact Hwf).
  set (l := elems h s) in *.
  destruct (insert_stable_split c (stable_sort l) (stable_sort_ascending l))
    as (before & after & Ht & Hins & Hb & Ha).
  assert (Hlt : (length before < MaxHighScores)%nat).
  { assert (Hl : (length before + length after = len s)%nat)
      by (rewrite <- length_app, <- Ht, stable_sort_length; exact Hlen).
    destruct (len s <? MaxHighScores)%nat eqn:Hfull.
    - apply Nat.ltb_lt in Hfull. lia.
    - apply Nat.ltb_ge in Hfull. cbn [orb] in Hadd. apply Z.ltb_lt in Hadd.
      assert (Hne : l <> []).
      { intros E. rewrite E in Hlen. cbn in Hlen. unfold MaxHighScores in *. lia. }
      apply lt_max_score in Hadd; [|exact Hne].
      apply Exists_exists in Hadd as (x & Hx & Hcx).
      rewrite <- (stable_sort_perm l), Ht in Hx.
      apply elem_of_app in Hx as [Hx|Hx].
      + rewrite Forall_forall in Hb. specialize (Hb x Hx). cbn in Hb. lia.
      + destruct after; [inversion Hx|]. cbn in Hl. lia. }
  apply existsb_exists. exists c. split; [|now apply bool_decide_eq_true].
  apply list_elem_of_In. unfold spec_insert. rewrite stable_sort_snoc, Hins.
  apply (list_elem_of_lookup_2 _ (length before)).
  rewrite lookup_take_lt by exact Hlt. now apply list_lookup_middle.
Qed.

Lemma max_score_map l l' :
  map Score_ l = map Score_ l' -> max_score l = max_score l'.
Proof.
  revert l'. induction l as [|x l IH]; intros [|x' l'] E; try discriminate; [reflexivity|].
  injection E as Ex El. specialize (IH l' El).
  destruct l as [|y l], l' as [|y' l']; try discriminate.
  - cbn. exact Ex.
  - change (Z.max (Score_ x) (max_score (y :: l))
            = Z.max (Score_ x') (max_score (y' :: l'))).
    now rewrite Ex, IH.
Qed.

(** What [AddScore] returns, for a list within the capacity. *)
Lemma AddScore_spec h s c :
  wf_slice h s -> (len s <= MaxHighScores)%nat ->
  if (len s <? MaxHighScores)%nat || (Score_ c <? max_score (elems h s))
  then exists h2 s2,
         AddScore h s c = (h2, s2, true)
         /\ elems h2 s2 = spec_insert (elems h s) c /\ wf_slice h2 s2
  else AddScore h s c = (h, s, false).
Proof.
  intros Hwf Hn.
  rewrite <- shouldAdd_spec by (exact Hwf || unfold maxInsertion, MaxHighScores in *; lia).
  destruct (shouldAdd h s c) eqn:Hadd.
  - destruct (AddScore_added h s c Hwf) as (h2 & s2 & HA & Hel & Hwf2);
      [unfold maxInsertion, MaxHighScores in *; lia|exact Hadd|].
    rewrite admitted_is_retained in HA by assumption.
    exists h2, s2. auto.
  - now apply AddScore_not_added.
Qed.

(** The stable sort keeps the entries of equal score in their order. *)
Lemma insert_stable_filter k x t :
  ascending t ->
  filter (fun s => Score_ s = k) (insert_stable x t)
  = filter (fun s => Score_ s = k) (t ++ [x]).
Proof.
  intros Hs. destruct (insert_stable_split x t Hs) as (b & a & -> & -> & Hb & Ha).
  rewrite <- !app_assoc, !filter_app, !filter_cons, filter_nil.
  destruct (decide (Score_ x = k)) as [Hk|Hk]; [|now rewrite app_nil_r].
  assert (Hnone : filter (fun s => Score_ s = k) a = []).
  { clear -Ha Hk. induction Ha as [|y a Hy _ IH]; [reflexivity|].
    rewrite filter_cons_False by lia. exact IH. }
  rewrite Hnone. reflexivity.
Qed.

Lemma stable_sort_stable k l :
  filter (fun s => Score_ s = k) (stable_sort l) = filter (fun s => Score_ s = k) l.
Proof.
  induction l as [|x l IH] using rev_ind; [reflexivity|].
  rewrite stable_sort_snoc, insert_stable_filter by apply stable_sort_ascending.
  now rewrite !filter_app, IH.
Qed.

(** *** The claims about [AddScore] *)

(** C2, as amended.  For every well-formed score list of length at most 10
    and every candidate, the list [AddScore] returns has length at most 10;
    it is ascending by score whenever the input list is ascending or the
    candidate is admitted (the list is not full, or the candidate's score
    is below the maximum); and when the list is full and the candidate's
    score is at least the maximum, the store and the list are returned
    untouched with [false]. *)
Theorem AddScore_sorted_capped h s c :
  wf_slice h s -> (len s <= MaxHighScores)%nat ->
  (length (elems (AddScore h s c).1.1 (AddScore h s c).1.2) <= MaxHighScores)%nat
  /\ (ascending (elems h s) \/ (len s < MaxHighScores)%nat
      \/ Score_ c < max_score (elems h s) ->
      ascending (elems (AddScore h s c).1.1 (AddScore h s c).1.2))
  /\ (len s = MaxHighScores -> max_score (elems h s) <= Score_ c ->
      AddScore h s c = (h, s, false)).
Proof.
  intros Hwf Hn. pose proof (AddScore_spec h s c Hwf Hn) as H.
  pose proof (elems_length h s Hwf) as Hlen.
  destruct (len s <? MaxHighScores)%nat eqn:Hfull; cbn [orb] in H.
  - apply Nat.ltb_lt in Hfull. destruct H as (h2 & s2 & -> & Hel & _). cbn.
    rewrite Hel. split; [apply spec_insert_length|].
    split; [intros _; apply spec_insert_ascending|lia].
  - apply Nat.ltb_ge in Hfull.
    destruct (Score_ c <? max_score (elems h s)) eqn:Hc.
    + apply Z.ltb_lt in Hc. destruct H as (h2 & s2 & -> & Hel & _). cbn.
      rewrite Hel. split; [apply spec_insert_length|].
      split; [intros _; apply spec_insert_ascending|lia].
    + apply Z.ltb_ge in Hc. rewrite H. cbn. split; [lia|].
      split; [|reflexivity]. intros [Ha|[Hl|Hl]]; [exact Ha|lia|lia].
Qed.

(** C6.  When [AddScore] admits a candidate to a well-formed list of at most
    11 entries (the lists [sort.Sort] sorts by insertion once the candidate
    is appended), the list it returns is the one the specification words:
    append the candidate, sort ascending by score with ties in insertion
    order, cut at the capacity 10.  The sorted list is ascending, a
    permutation of the appended list, and holds the entries of each score
    in the order the appended list has them; the candidate stands in it
    behind every entry whose score is not greater than its own, so behind
    every existing entry of equal score, and before every entry of greater
    score. *)
Theorem AddScore_insert_stable h s c :
  wf_slice h s -> (len s < maxInsertion)%nat -> shouldAdd h s c = true ->
  let sorted := stable_sort (elems h s ++ [c]) in
  elems (AddScore h s c).1.1 (AddScore h s c).1.2 = take MaxHighScores sorted
  /\ ascending sorted
  /\ Permutation sorted (elems h s ++ [c])
  /\ (forall k, filter (fun x => Score_ x = k) sorted
                = filter (fun x => Score_ x = k) (elems h s ++ [c]))
  /\ exists before after,
       stable_sort (elems h s) = before ++ after
       /\ sorted = before ++ c :: after
       /\ Forall (fun x => Score_ x <= Score_ c) before
       /\ Forall (fun x => Score_ c < Score_ x) after.
Proof.
  intros Hwf Hn Hadd. cbv zeta.
  destruct (AddScore_added h s c Hwf Hn Hadd) as (h2 & s2 & -> & Hel & _). cbn.
  split; [exact Hel|].
  split; [apply stable_sort_ascending|].
  split; [apply stable_sort_perm|].
  split; [intros k; apply stable_sort_stable|].
  destruct (insert_stable_split c _ (stable_sort_ascending (elems h s)))
    as (b & a & Ht & Hins & Hb & Ha).
  exists b, a. now rewrite stable_sort_snoc.
Qed.

(** For every well-formed score list of length at most 10 and every
    candidate, the boolean [AddScore] returns is: the list has fewer than 10
    entries, or the candidate's score is strictly below the maximum score of
    the list.  It depends on the scores alone: a second call, on a list
    with the same scores and a candidate with the same score, whatever the
    names, returns the same boolean. *)
Theorem AddScore_retained_by_scores h s c h' s' c' :
  wf_slice h s -> (len s <= MaxHighScores)%nat -> wf_slice h' s' ->
  map Score_ (elems h' s') = map Score_ (elems h s) -> Score_ c' = Score_ c ->
  (AddScore h s c).2
  = (len s <? MaxHighScores)%nat || (Score_ c <? max_score (elems h s))
  /\ (AddScore h' s' c').2 = (AddScore h s c).2.
Proof.
  intros Hwf Hn Hwf' Hmap Hc.
  assert (Hret : forall h0 s0 c0, wf_slice h0 s0 -> (len s0 <= MaxHighScores)%nat ->
            (AddScore h0 s0 c0).2
            = (len s0 <? MaxHighScores)%nat || (Score_ c0 <? max_score (elems h0 s0))).
  { intros h0 s0 c0 Hwf0 Hn0. pose proof (AddScore_spec h0 s0 c0 Hwf0 Hn0) as H.
    destruct ((len s0 <? MaxHighScores)%nat || (Score_ c0 <? max_score (elems h0 s0))).
    - destruct H as (h2 & s2 & -> & _). reflexivity.
    - now rewrite H. }
  assert (Hlen : len s' = len s).
  { rewrite <- (elems_length h s Hwf), <- (elems_length h' s' Hwf').
    rewrite <- (length_map Score_ (elems h' s')), Hmap. apply length_map. }
  split; [apply Hret; assumption|].
  rewrite !Hret by (assumption || lia).
  now rewrite Hlen, Hc, (max_score_map _ _ Hmap).
Qed.

(** Over any sequence of [AddScore] calls from an ascending list within the
    capacity (the empty list of a new level, say), the list stays
    ascending and within the capacity. *)
Lemma AddScore_all_invariant h s cs :
  wf_slice h s -> (len s <= MaxHighScores)%nat -> ascending (elems h s) ->
  let r := AddScore_all h s cs in
  wf_slice r.1 r.2 /\ (length (elems r.1 r.2) <= MaxHighScores)%nat
  /\ ascending (elems r.1 r.2).
Proof.
  cbv zeta. unfold AddScore_all. revert h s.
  induction cs as [|c cs IH]; intros h s Hwf Hn Hs; cbn [fold_left fst snd].
  - split; [exact Hwf|]. split; [|exact Hs]. now rewrite elems_length.
  - pose proof (AddScore_spec h s c Hwf Hn) as H.
    destruct ((len s <? MaxHighScores)%nat || (Score_ c <? max_score (elems h s))).
    + destruct H as (h2 & s2 & -> & Hel & Hwf2). cbn [fst snd].
      apply IH; [exact Hwf2| |].
      * rewrite <- (elems_length h2 s2 Hwf2), Hel. apply spec_insert_length.
      * rewrite Hel. apply spec_insert_ascending.
    + rewrite H. cbn [fst snd]. now apply IH.
Qed.

(** *** The entity *)

Lemma wrap64_small z : in_int z -> wrap64 z = z.
Proof.
  unfold in_int, min_int, max_int, wrap64. intros H.
  rewrite Z.mod_small by lia. lia.
Qed.

Lemma int_sub_add_one b : int_sub (int_add b 1) b = 1.
Proof.
  unfold int_sub, int_add, wrap64.
  replace ((b + 1 + 2 ^ 63) mod 2 ^ 64 - 2 ^ 63 - b + 2 ^ 63)
    with ((b + 1 + 2 ^ 63) mod 2 ^ 64 - b) by lia.
  rewrite Zminus_mod_idemp_l.
  replace (b + 1 + 2 ^ 63 - b) with (1 + 2 ^ 63) by lia.
  reflexivity.
Qed.

Lemma int_sub_diag b : int_sub b b = 0.
Proof. unfold int_sub. now rewrite Z.sub_diag. Qed.

(** Below the largest [int], [b++] is [b + 1]. *)
Lemma int_add_succ b : in_int b -> b < max_int -> int_add b 1 = b + 1.
Proof.
  intros Hb Hlt. unfold int_add. apply wrap64_small.
  unfold in_int, min_int, max_int in *. lia.
Qed.

(** C1.  One call of [Update] on a running entity bounces at most once.  If
    the moved circle passes the wall the entity is heading to, the centre
    is set to that wall minus or plus the radius, the direction sign is
    flipped, [Bounces] is incremented once ([int_add], the [++] of a Go
    [int]: plus one below [max_int], see [int_add_succ]) and 1 is returned;
    otherwise the centre is the moved one, sign and counter are kept and 0
    is returned.  Nothing depends on how far the move overshoots, nor on
    the sign of [dt].  A stopped entity is returned as it is, with 0. *)
Theorem Pacman_Update_one_bounce now1 now2 dt screenWidth screenHeight p :
  let p' := (Pacman_Update now1 now2 dt screenWidth screenHeight p).1 in
  let n := (Pacman_Update now1 now2 dt screenWidth screenHeight p).2 in
  (n = 0 \/ n = 1)
  /\ if IsStopped p then p' = p /\ n = 0
     else if past_near_wall dt p then
       axis_pos p' = Radius p /\ SubDirection p' = - SubDirection p
       /\ Bounces p' = int_add (Bounces p) 1 /\ n = 1
     else if past_far_wall dt screenWidth screenHeight p then
       axis_pos p' = (axis_bound screenWidth screenHeight p - Radius p)%float
       /\ SubDirection p' = - SubDirection p
       /\ Bounces p' = int_add (Bounces p) 1 /\ n = 1
     else
       axis_pos p' = moved_pos dt p /\ SubDirection p' = SubDirection p
       /\ Bounces p' = Bounces p /\ n = 0.
Proof.
  unfold Pacman_Update, past_near_wall, past_far_wall, moved_pos, axis_pos, axis_bound.
  destruct (IsStopped p) eqn:Hs; cbn zeta; [cbn; auto|].
  destruct (animInterval p <? time_Sub now1 (lastAnimTime p));
    destruct (Direction p =? DirHorizontal) eqn:Hd;
    cbn -[int_add int_sub int_mul Z.eqb PrimFloat.add PrimFloat.sub PrimFloat.mul f_lt f_gt];
    rewrite ?Hd;
    repeat match goal with
    | |- context [f_lt ?a ?b] => destruct (f_lt a b) eqn:?
    | |- context [f_gt ?a ?b] => destruct (f_gt a b) eqn:?
    | |- context [SubDirection p =? ?k] =>
        let H := fresh "Hsd" in
        destruct (SubDirection p =? k) eqn:H; [apply Z.eqb_eq in H|]
    | |- _ => progress cbn -[int_add int_sub int_mul Z.eqb PrimFloat.add PrimFloat.sub PrimFloat.mul f_lt f_gt]
    end;
    rewrite ?Hd, ?int_sub_add_one, ?int_sub_diag;
    try (split; [auto|]; repeat split; try reflexivity; try congruence).
  all: match goal with H : SubDirection _ = _ |- _ => rewrite H; reflexivity end.
Qed.

Lemma Pacman_Update_effect now1 now2 dt screenWidth screenHeight p :
  let p' := (Pacman_Update now1 now2 dt screenWidth screenHeight p).1 in
  IsStopped p' = IsStopped p
  /\ (Bounces p' = Bounces p \/ Bounces p' = int_add (Bounces p) 1)
  /\ (IsStopped p = true -> Pacman_Update now1 now2 dt screenWidth screenHeight p = (p, 0)).
Proof.
  unfold Pacman_Update.
  destruct (IsStopped p) eqn:Hs; cbn zeta; [cbn; auto|].
  split; [|split; [|discriminate]];
    destruct (animInterval p <? time_Sub now1 (lastAnimTime p));
    destruct (Direction p =? DirHorizontal) eqn:Hd;
    cbn -[int_add int_sub int_mul Z.eqb PrimFloat.add PrimFloat.sub PrimFloat.mul f_lt f_gt];
    rewrite ?Hd;
    repeat match goal with
    | |- context [f_lt ?a ?b] => destruct (f_lt a b)
    | |- context [f_gt ?a ?b] => destruct (f_gt a b)
    | |- context [SubDirection p =? ?k] => destruct (SubDirection p =? k)
    | |- _ => progress cbn -[int_add int_sub int_mul Z.eqb PrimFloat.add PrimFloat.sub PrimFloat.mul f_lt f_gt]
    end; auto.
Qed.

Lemma Pacman_Bounce_effect p :
  let p' := (Pacman_Bounce p).1 in
  IsStopped p' = IsStopped p
  /\ (Bounces p' = Bounces p \/ Bounces p' = int_add (Bounces p) 1)
  /\ (Pacman_Bounce p).2 = negb (IsStopped p).
Proof.
  unfold Pacman_Bounce. destruct (IsStopped p) eqn:Hs; cbn zeta; [cbn; auto|].
  destruct (Direction _ =? DirHorizontal); cbn -[int_add int_mul]; auto.
Qed.

Lemma Pacman_Stop_effect p :
  let p' := (Pacman_Stop p).1 in
  IsStopped p' = true /\ Bounces p' = Bounces p.
Proof. unfold Pacman_Stop. destruct (IsStopped p) eqn:Hs; cbn; auto. Qed.

Lemma run_call_effect p c :
  (IsStopped p = true -> IsStopped (run_call p c) = true)
  /\ (Bounces (run_call p c) = Bounces p
      \/ Bounces (run_call p c) = int_add (Bounces p) 1).
Proof.
  destruct c as [now1 now2 dt w hgt| |]; cbn [run_call].
  - destruct (Pacman_Update_effect now1 now2 dt w hgt p) as (Hs & Hb & _).
    cbv zeta in Hs. rewrite Hs. auto.
  - destruct (Pacman_Bounce_effect p) as (Hs & Hb & _).
    cbv zeta in Hs. rewrite Hs. auto.
  - destruct (Pacman_Stop_effect p) as (Hs & Hb). auto.
Qed.

(** C9, as amended.  Over every sequence of [Update], [Bounce] and [Stop]
    calls on an entity, [IsStopped] never goes back from true to false; and
    [Bounces], a Go [int], grows by at most one per call and does not
    decrease as long as it cannot pass the largest [int]. *)
Theorem Bounces_nondecreasing_below_max_int p cs :
  (IsStopped p = true -> IsStopped (run_calls p cs) = true)
  /\ (in_int (Bounces p) -> Bounces p + Z.of_nat (length cs) <= max_int ->
      Bounces p <= Bounces (run_calls p cs) <= Bounces p + Z.of_nat (length cs)).
Proof.
  revert p. induction cs as [|c cs IH]; intros p.
  - cbn. split; [auto|lia].
  - cbn [run_calls fold_left].
    destruct (run_call_effect p c) as [Hs Hb].
    destruct (IH (run_call p c)) as [IHs IHb].
    split; [auto|]. intros Hin Hmax.
    rewrite length_cons, Nat2Z.inj_succ in *.
    assert (Hstep : Bounces p <= Bounces (run_call p c) <= Bounces p + 1
                    /\ in_int (Bounces (run_call p c))).
    { destruct Hb as [-> | ->]; [split; [lia|exact Hin]|].
      unfold int_add. rewrite wrap64_small; unfold in_int in *; lia. }
    destruct Hstep as [Hstep Hin'].
    unfold run_calls in *. specialize (IHb Hin'). lia.
Qed.

(** *** The tick *)

Lemma update_pacmans_stopped clk i dt w hgt ps bf all :
  let r := update_pacmans clk i dt w hgt ps bf all in
  IsStopped <$> r.1.1 = IsStopped <$> ps
  /\ r.2 = all && forallb IsStopped ps.
Proof.
  revert i bf all. induction ps as [|p ps IH]; intros i bf all; cbn.
  - now rewrite andb_true_r.
  - destruct (Pacman_Update_effect (clk i).1 (clk i).2 dt w hgt p) as (Hs & _ & _).
    cbv zeta in Hs.
    destruct (Pacman_Update (clk i).1 (clk i).2 dt w hgt p) as [p' n]. cbn in Hs.
    specialize (IH (S i) (int_add bf n) (if negb (IsStopped p') then false else all)).
    destruct (update_pacmans clk (S i) dt w hgt ps _ _) as [[ps' b] a].
    cbn in *. destruct IH as [IH1 IH2]. rewrite IH1, IH2, Hs. split; [reflexivity|].
    destruct (IsStopped p), all; reflexivity.
Qed.

Lemma bounce_at_stopped ps i :
  IsStopped <$> (bounce_at ps i).1 = IsStopped <$> ps.
Proof.
  unfold bounce_at. destruct (ps !! i) as [p|] eqn:Hp; [|reflexivity].
  destruct (Pacman_Bounce_effect p) as (Hs & _ & _). cbv zeta in Hs.
  destruct (Pacman_Bounce p) as [p' b]. cbn in *.
  rewrite list_fmap_insert, Hs. apply list_insert_id.
  now rewrite list_lookup_fmap, Hp.
Qed.

Lemma fold_left_invariant {A B} (I : A -> Prop) (f : A -> B -> A) l a :
  (forall a b, I a -> I (f a b)) -> I a -> I (fold_left f l a).
Proof.
  intros Hf. revert a. induction l as [|b l IH]; intros a Ha; cbn; [exact Ha|].
  apply IH, Hf, Ha.
Qed.

Lemma collide_inner_stopped m x y r i acc j :
  IsStopped <$> acc.1 = m -> IsStopped <$> (collide_inner x y r i acc j).1 = m.
Proof.
  destruct acc as [ps bf]. cbn [fst]. intros Hm. unfold collide_inner.
  destruct (ps !! j) as [p2|]; [|exact Hm]. cbn -[bounce_at int_add].
  destruct (IsStopped p2); [exact Hm|].
  match goal with |- context [if ?b then _ else _] => destruct b end; [|exact Hm].
  pose proof (bounce_at_stopped ps i) as H1.
  destruct (bounce_at ps i) as [ps1 b1]. cbn [fst] in H1.
  pose proof (bounce_at_stopped ps1 j) as H2.
  destruct (bounce_at ps1 j) as [ps2 b2]. cbn [fst] in *. congruence.
Qed.

Lemma collisions_stopped ps bf :
  IsStopped <$> (collisions ps bf).1 = IsStopped <$> ps.
Proof.
  unfold collisions.
  apply (fold_left_invariant (fun acc => IsStopped <$> acc.1 = IsStopped <$> ps));
    [|reflexivity].
  intros acc i Hacc. unfold collide_outer.
  destruct (acc.1 !! i) as [p1|]; [|exact Hacc]. cbn.
  destruct (IsStopped p1); [exact Hacc|].
  apply (fold_left_invariant (fun acc => IsStopped <$> acc.1 = IsStopped <$> ps));
    [|exact Hacc].
  intros a j Ha. now apply collide_inner_stopped.
Qed.

Lemma forallb_IsStopped ps :
  forallb IsStopped ps = true <-> Forall (fun p => IsStopped p = true) ps.
Proof.
  rewrite forallb_forall, Forall_forall.
  split; intros H x Hx; apply H; now apply list_elem_of_In.
Qed.

Lemma Forall_IsStopped_fmap ps ps' :
  IsStopped <$> ps' = IsStopped <$> ps ->
  Forall (fun p => IsStopped p = true) ps' -> Forall (fun p => IsStopped p = true) ps.
Proof.
  intros E H.
  apply (Forall_fmap IsStopped (fun b => b = true)).
  rewrite <- E. now apply Forall_fmap.
Qed.

(** C3, as amended.  Whenever a tick in the Playing state with a level
    loaded ([Level >= 0]) ends with every entity stopped, the state becomes
    EnteringHighScore, with the name buffer cleared, if [AddScore] would
    retain a candidate of score [TotalBounces] against the current
    [HighScores], and GameOver otherwise; the [HighScores] field itself is
    not assigned. *)
Theorem Game_Update_all_stopped now clk h g :
  CurrentState g = StatePlaying -> 0 <= Level g ->
  Forall (fun p => IsStopped p = true) (Pacmans (Game_Update now clk h g).2) ->
  let g' := (Game_Update now clk h g).2 in
  HighScores g' = HighScores g
  /\ if (AddScore h (HighScores g) (mkScore EmptyString (TotalBounces g'))).2
     then CurrentState g' = StateEnteringHighScore /\ playerNameInput g' = []
     else CurrentState g' = StateGameOver.
Proof.
  intros Hplay Hlevel. unfold Game_Update. game_simpl.
  rewrite Hplay, bool_decide_eq_true_2 by reflexivity. cbn [negb].
  replace (Level g <? 0) with false by (symmetry; apply Z.ltb_ge; exact Hlevel).
  pose proof (update_pacmans_stopped clk 0
                (Seconds (time_Sub now (lastUpdateTime g)))
                (ScreenWidth g) (ScreenHeight g) (Pacmans g) 0 true) as Hup.
  cbv zeta in Hup.
  destruct (update_pacmans clk 0 _ _ _ (Pacmans g) 0 true) as [[ps b] a].
  cbn [fst snd] in Hup. destruct Hup as [Hps Ha]. cbn [andb] in Ha.
  pose proof (collisions_stopped ps b) as Hcol.
  destruct (collisions ps b) as [ps2 b2]. cbn [fst] in Hcol.
  destruct a.
  - game_simpl.
    destruct (AddScore h (HighScores g)
                (mkScore EmptyString (int_add (TotalBounces g) b2)))
      as [[h' sl] added] eqn:HA.
    game_simpl. destruct added; game_simpl; intros _; rewrite HA; cbn [snd]; auto.
  - game_simpl. intros Hall. exfalso.
    apply (Forall_IsStopped_fmap ps) in Hall; [|exact Hcol].
    apply (Forall_IsStopped_fmap (Pacmans g)) in Hall; [|exact Hps].
    apply forallb_IsStopped in Hall. congruence.
Qed.

(** *** The requests *)

Lemma EncodeRune_not_empty r : EncodeRune r <> EmptyString.
Proof.
  unfold EncodeRune.
  repeat match goal with |- context [if ?b then _ else _] => destruct b end;
    discriminate.
Qed.

Lemma string_of_runes_empty rs :
  String.eqb (string_of_runes rs) EmptyString = bool_decide (rs = []).
Proof.
  destruct rs as [|r rs]; [reflexivity|].
  rewrite bool_decide_eq_false_2 by discriminate.
  apply String.eqb_neq. cbn [string_of_runes].
  pose proof (EncodeRune_not_empty r) as H.
  destruct (EncodeRune r); [congruence|discriminate].
Qed.

(** C4, as amended.  [HandleEnter] outside EnteringHighScore changes
    nothing and writes nothing.  In EnteringHighScore it runs [AddScore]
    against the typed name, or the placeholder "Anonymous" when the buffer
    is empty, and [TotalBounces]; it stores the returned list; it calls the
    writer, once, with the stored list and the high-score path, exactly
    when [AddScore] reports the candidate retained; and whatever [AddScore]
    and the writer return, the state becomes HallOfFame with the name
    buffer cleared: the resulting store and game do not depend on the
    writer. *)
Theorem Game_HandleEnter_spec saveFunc h g :
  let r := Game_HandleEnter saveFunc h g in
  (CurrentState g <> StateEnteringHighScore -> r = (h, g, []))
  /\ (CurrentState g = StateEnteringHighScore ->
      let playerName :=
        if bool_decide (playerNameInput g = []) then "Anonymous"%string
        else string_of_runes (playerNameInput g) in
      let a := AddScore h (HighScores g) (mkScore playerName (TotalBounces g)) in
      r.1.1 = a.1.1
      /\ r.1.2 = set_playerNameInput
                   (set_CurrentState (set_HighScores g a.1.2) StateHallOfFame) []
      /\ r.2 = (if a.2
                then [(elems a.1.1 a.1.2, highScorePath g,
                       saveFunc (elems a.1.1 a.1.2) (highScorePath g))]
                else [])
      /\ forall saveFunc', (Game_HandleEnter saveFunc' h g).1 = r.1).
Proof.
  cbv zeta. unfold Game_HandleEnter. split.
  - intros Hst. now rewrite bool_decide_eq_false_2.
  - intros Hst. rewrite Hst, bool_decide_eq_true_2 by reflexivity. cbn [negb].
    rewrite string_of_runes_empty.
    destruct (AddScore h (HighScores g) _) as [[h' sl] added]. game_simpl.
    repeat split; reflexivity.
Qed.

(** C5.  When the injected loader fails, [RequestLoadLevel] and
    [RequestLoadSavedGame] return the store and the game as they were,
    every field included, with an error that wraps the loader's.  When the
    loader succeeds and the high-score loader is missing or fails, the
    request reports no error, the game is Playing and its high-score list
    is empty. *)
Theorem load_requests_failure now loadHighScoresFunc level path loadFunc h g :
  (forall err, loadFunc path = inr err ->
     RequestLoadLevel now loadHighScoresFunc level path loadFunc h g
     = (h, g, Some (wrapError ("failed to load level config '" ++ path
                               ++ "': " ++ Error err)%string err))
     /\ RequestLoadSavedGame now loadHighScoresFunc path loadFunc h g
        = (h, g, Some (wrapError ("failed to load saved game '" ++ path
                                  ++ "': " ++ Error err)%string err)))
  /\ (forall data, loadFunc path = inl data ->
        match loadHighScoresFunc with
        | None => True
        | Some f =>
            exists e,
              f ("assets/highscores/highscores_" ++ itoa (Level data) ++ ".gob")%string
              = inr e
        end ->
        let r1 := RequestLoadLevel now loadHighScoresFunc level path loadFunc h g in
        let r2 := RequestLoadSavedGame now loadHighScoresFunc path loadFunc h g in
        r1.2 = None /\ CurrentState r1.1.2 = StatePlaying
        /\ elems r1.1.1 (HighScores r1.1.2) = []
        /\ r2.2 = None /\ CurrentState r2.1.2 = StatePlaying
        /\ elems r2.1.1 (HighScores r2.1.2) = []).
Proof.
  unfold RequestLoadLevel, RequestLoadSavedGame. split.
  - intros err ->. split; reflexivity.
  - intros data -> Hhs. cbv zeta.
    destruct loadHighScoresFunc as [f|].
    + destruct Hhs as [e ->]. cbn. unfold elems, backing. cbn [array len].
      rewrite list_lookup_middle by reflexivity. repeat split; reflexivity.
    + cbn. unfold elems, backing. cbn [array len].
      rewrite list_lookup_middle by reflexivity. repeat split; reflexivity.
Qed.

(** The two input handlers, as the code has them. *)
Lemma Game_HandleTextInput_spec chars g :
  Game_HandleTextInput chars g
  = if bool_decide (CurrentState g = StateEnteringHighScore)
       && (length (playerNameInput g) <? 15)%nat
    then set_playerNameInput g (playerNameInput g ++ chars)
    else g.
Proof.
  unfold Game_HandleTextInput.
  destruct (bool_decide (CurrentState g = StateEnteringHighScore)); reflexivity.
Qed.

Lemma Game_HandleBackspace_entering g :
  CurrentState g = StateEnteringHighScore -> Game_HandleBackspace g = g.
Proof.
  intros Hst. unfold Game_HandleBackspace.
  now rewrite Hst, bool_decide_eq_true_2.
Qed.

(** C7, at the failing input: in EnteringHighScore with an empty buffer, 16
    characters arriving in one call are all appended; the buffer then holds
    16 characters, above the cap of 15. *)
Theorem Game_HandleTextInput_exceeds_cap :
  CurrentState (game_entering []) = StateEnteringHighScore
  /\ playerNameInput (Game_HandleTextInput (replicate 16 65%Z) (game_entering []))
     = replicate 16 65%Z
  /\ (15 < length (playerNameInput
                     (Game_HandleTextInput (replicate 16 65%Z) (game_entering []))))%nat.
Proof. split; [reflexivity|]. split; [reflexivity|]. vm_compute. lia. Qed.

(** C8, at the failing input: in EnteringHighScore with the buffer "AB",
    [HandleBackspace] removes nothing; in HallOfFame with the same buffer it
    removes the last character. *)
Theorem Game_HandleBackspace_inverted :
  playerNameInput (Game_HandleBackspace (game_entering [65; 66])) = [65; 66]
  /\ playerNameInput
       (Game_HandleBackspace
          (set_CurrentState (game_entering [65; 66]) StateHallOfFame)) = [65].
Proof. split; reflexivity. Qed.

(** The list of [unsorted_full] is full, not ascending, and [AddScore]
    returns it as it is to a candidate of 100 bounces. *)
Lemma AddScore_unsorted_full :
  AddScore [unsorted_full] (mkSlice 0 10) (mkScore "z" 100)
  = ([unsorted_full], mkSlice 0 10, false)
  /\ ~ ascending unsorted_full.
Proof.
  split; [reflexivity|].
  intros H. apply StronglySorted_inv in H as [_ H].
  apply Forall_inv in H. unfold le_score in H. cbn in H. lia.
Qed.

(** With ten better runs on the list, [HandleEnter] calls no writer. *)
Lemma Game_HandleEnter_not_retained saveFunc :
  (Game_HandleEnter saveFunc [ten_runs_of_one] (game_entering [])).2 = []
  /\ CurrentState (Game_HandleEnter saveFunc [ten_runs_of_one] (game_entering [])).1.2
     = StateHallOfFame.
Proof. split; reflexivity. Qed.

(** *** The eligibility check and the stored list *)

(** [AddScore] on a slice without spare capacity writes to a fresh array
    only: every array of the store reads as before. *)
Lemma AddScore_frame h s c s0 :
  wf_slice h s -> cap h s = len s -> (array s0 < length h)%nat ->
  backing (AddScore h s c).1.1 s0 = backing h s0
  /\ (length h <= length (AddScore h s c).1.1)%nat.
Proof.
  intros Hwf Hcap Hs0. unfold AddScore.
  destruct (shouldAdd h s c); [|split; [reflexivity|cbn; lia]].
  unfold append. rewrite Hcap, Nat.ltb_irrefl. unfold alloc, sort_slice.
  cbn [fst snd array]. unfold backing at 1.
  rewrite length_insert, length_app, list_lookup_insert_ne by lia.
  rewrite lookup_app_l by exact Hs0. split; [reflexivity|lia].
Qed.

(** A tick leaves the stored high-score list as it was when its slice has
    no spare capacity. *)
Lemma Game_Update_keeps_list now clk h g :
  wf_slice h (HighScores g) -> cap h (HighScores g) = len (HighScores g) ->
  HighScores (Game_Update now clk h g).2 = HighScores g
  /\ elems (Game_Update now clk h g).1 (HighScores g) = elems h (HighScores g).
Proof.
  intros Hwf Hcap. unfold Game_Update. game_simpl.
  destruct (negb _); [split; reflexivity|].
  destruct (Level g <? 0); [split; reflexivity|].
  destruct (update_pacmans _ _ _ _ _ _ _ _) as [[ps b] a].
  destruct (collisions ps b) as [ps2 b2]. game_simpl.
  destruct a; [|split; reflexivity].
  pose proof (AddScore_frame h (HighScores g)
                (mkScore EmptyString (int_add (TotalBounces g) b2))
                (HighScores g) Hwf Hcap (proj1 Hwf)) as [Hframe _].
  destruct (AddScore h (HighScores g) _) as [[h' sl] added]. game_simpl.
  cbn [fst] in Hframe.
  destruct added; game_simpl; (split; [reflexivity|]); unfold elems; now rewrite Hframe.
Qed.

(** Without spare capacity the check and the insert agree: when the tick
    ends in EnteringHighScore, [HandleEnter] retains the candidate, under
    the placeholder name as the buffer was cleared, and calls the writer
    once with the stored list. *)
Lemma check_then_insert_agree now clk saveFunc h g :
  wf_slice h (HighScores g) -> cap h (HighScores g) = len (HighScores g) ->
  (len (HighScores g) <= MaxHighScores)%nat ->
  CurrentState g = StatePlaying ->
  CurrentState (Game_Update now clk h g).2 = StateEnteringHighScore ->
  let r := Game_Update now clk h g in
  let e := Game_HandleEnter saveFunc r.1 r.2 in
  CurrentState e.1.2 = StateHallOfFame
  /\ mkScore "Anonymous" (TotalBounces r.2) ∈ elems e.1.1 (HighScores e.1.2)
  /\ e.2 = [(elems e.1.1 (HighScores e.1.2), highScorePath g,
             saveFunc (elems e.1.1 (HighScores e.1.2)) (highScorePath g))].
Proof.
  intros Hwf Hcap Hn Hplay. cbv zeta. unfold Game_Update. game_simpl.
  rewrite Hplay, bool_decide_eq_true_2 by reflexivity. cbn [negb].
  destruct (Level g <? 0); [game_simpl; congruence|].
  destruct (update_pacmans _ _ _ _ _ _ _ _) as [[ps b] a].
  destruct (collisions ps b) as [ps2 b2]. game_simpl.
  destruct a; [|game_simpl; congruence].
  set (tb := int_add (TotalBounces g) b2).
  pose proof (AddScore_frame h (HighScores g) (mkScore EmptyString tb)
                (HighScores g) Hwf Hcap (proj1 Hwf)) as [Hframe Hlen].
  pose proof (AddScore_spec h (HighScores g) (mkScore EmptyString tb) Hwf Hn) as Hcheck.
  destruct (AddScore h (HighScores g) (mkScore EmptyString tb)) as [[h' sl] added].
  cbn [fst snd] in Hframe, Hlen. game_simpl.
  destruct added; game_simpl; [intros _|congruence].
  match goal with
  | |- context [Game_HandleEnter saveFunc h' ?g1] => set (G := g1)
  end.
  assert (HG : CurrentState G = StateEnteringHighScore /\ playerNameInput G = []
               /\ HighScores G = HighScores g /\ TotalBounces G = tb
               /\ highScorePath G = highScorePath g)
    by (repeat split; reflexivity).
  destruct HG as (E1 & E2 & E3 & E4 & E5). clearbody G.
  cbn [Score_] in Hcheck.
  destruct ((len (HighScores g) <? MaxHighScores)%nat
            || (tb <? max_score (elems h (HighScores g)))) eqn:Hcond;
    [clear Hcheck|congruence].
  assert (Hwf' : wf_slice h' (HighScores g)).
  { destruct Hwf as [Ha Hl]. split; [lia|]. unfold cap in *. now rewrite Hframe. }
  assert (Hel : elems h' (HighScores g) = elems h (HighScores g))
    by (unfold elems; now rewrite Hframe).
  pose proof (AddScore_spec h' (HighScores g) (mkScore "Anonymous" tb) Hwf' Hn) as Hins.
  cbn [Score_] in Hins. rewrite Hel, Hcond in Hins.
  destruct Hins as (h2 & s2 & HA & Hel2 & _).
  pose proof (admitted_is_retained h' (HighScores g) (mkScore "Anonymous" tb) Hwf' Hn) as Hret.
  rewrite shouldAdd_spec in Hret
    by (exact Hwf' || unfold maxInsertion, MaxHighScores in *; lia).
  cbn [Score_] in Hret. rewrite Hel, Hcond in Hret. specialize (Hret eq_refl).
  apply existsb_exists in Hret as (x & Hx & Hxc).
  apply bool_decide_eq_true in Hxc. subst x. apply list_elem_of_In in Hx.
  unfold Game_HandleEnter.
  rewrite E1, E2, E3, E4, bool_decide_eq_true_2 by reflexivity.
  cbn [negb string_of_runes String.eqb]. rewrite HA. game_simpl.
  rewrite Hel2, E5. auto.
Qed.

(** *** More on the entity *)

Ltac pacman_simpl :=
  cbn [ID Radius PosX PosY Speed Direction SubDirection IsStopped WaitTimeMs
       Bounces animFrame lastAnimTime animInterval set_PosX set_PosY
       set_SubDirection set_IsStopped set_Bounces set_anim fst snd andb].

Ltac entity_cases p :=
  repeat first
    [ progress pacman_simpl
    | match goal with
      | H : (Direction p =? DirHorizontal) = _ |- _ => rewrite H
      end
    | match goal with
      | |- context [f_lt ?a ?b] => destruct (f_lt a b)
      | |- context [f_gt ?a ?b] => destruct (f_gt a b)
      | |- context [SubDirection p =? ?k] => destruct (SubDirection p =? k)
      end ].

Lemma Pacman_Update_off_axis now1 now2 dt w hgt p :
  let p' := (Pacman_Update now1 now2 dt w hgt p).1 in
  Direction p' = Direction p
  /\ ((Direction p =? DirHorizontal) = true -> PosY p' = PosY p)
  /\ ((Direction p =? DirHorizontal) = false -> PosX p' = PosX p).
Proof.
  unfold Pacman_Update.
  destruct (IsStopped p) eqn:Hs; cbn zeta; [cbn; tauto|].
  repeat match goal with |- _ /\ _ => split end;
    try (intros Hd);
    destruct (animInterval p <? time_Sub now1 (lastAnimTime p));
    try (destruct (Direction p =? DirHorizontal) eqn:Hd');
    first [discriminate | entity_cases p; reflexivity].
Qed.

Lemma Pacman_Update_keeps_shape now1 now2 dt w hgt p :
  let p' := (Pacman_Update now1 now2 dt w hgt p).1 in
  ID p' = ID p /\ Radius p' = Radius p /\ Speed p' = Speed p
  /\ Direction p' = Direction p /\ WaitTimeMs p' = WaitTimeMs p
  /\ animInterval p' = animInterval p /\ off_axis_pos p' = off_axis_pos p
  /\ (sign_ok p -> sign_ok p') /\ (frame_ok p -> frame_ok p').
Proof.
  cbv zeta.
  destruct (Pacman_Update_off_axis now1 now2 dt w hgt p) as (Hdir & Hy & Hx).
  cbv zeta in Hdir, Hy, Hx.
  assert (Hoff : off_axis_pos (Pacman_Update now1 now2 dt w hgt p).1
                 = off_axis_pos p).
  { unfold off_axis_pos. rewrite Hdir.
    destruct (Direction p =? DirHorizontal); auto. }
  clear Hy Hx. revert Hoff Hdir.
  unfold Pacman_Update, sign_ok, frame_ok.
  destruct (IsStopped p) eqn:Hs; cbn zeta; [cbn; tauto|].
  intros Hoff Hdir.
  repeat match goal with |- _ /\ _ => split end;
    try assumption; clear Hoff Hdir;
    try (intros [Hv | Hv]);
    destruct (animInterval p <? time_Sub now1 (lastAnimTime p));
    destruct (Direction p =? DirHorizontal) eqn:Hd;
    entity_cases p;
    first [ reflexivity
          | left; assumption
          | right; assumption
          | rewrite Hv; vm_compute; auto ].
Qed.

Lemma Pacman_Bounce_keeps_shape p :
  let p' := (Pacman_Bounce p).1 in
  ID p' = ID p /\ Radius p' = Radius p /\ Speed p' = Speed p
  /\ Direction p' = Direction p /\ WaitTimeMs p' = WaitTimeMs p
  /\ animInterval p' = animInterval p /\ off_axis_pos p' = off_axis_pos p
  /\ (sign_ok p -> sign_ok p') /\ (frame_ok p -> frame_ok p').
Proof.
  unfold Pacman_Bounce, off_axis_pos, sign_ok, frame_ok.
  destruct (IsStopped p) eqn:Hs; cbn zeta; [cbn; tauto|].
  destruct (Direction p =? DirHorizontal) eqn:Hd;
    entity_cases p;
    repeat match goal with |- _ /\ _ => split end;
    try reflexivity; try tauto;
    intros [-> | ->]; vm_compute; tauto.
Qed.

Lemma run_call_keeps_shape p c :
  let p' := run_call p c in
  ID p' = ID p /\ Radius p' = Radius p /\ Speed p' = Speed p
  /\ Direction p' = Direction p /\ WaitTimeMs p' = WaitTimeMs p
  /\ animInterval p' = animInterval p /\ off_axis_pos p' = off_axis_pos p
  /\ (sign_ok p -> sign_ok p') /\ (frame_ok p -> frame_ok p').
Proof.
  destruct c as [now1 now2 dt w hgt| |]; cbn [run_call].
  - apply Pacman_Update_keeps_shape.
  - apply Pacman_Bounce_keeps_shape.
  - unfold Pacman_Stop, off_axis_pos, sign_ok, frame_ok.
    destruct (IsStopped p); cbn; tauto.
Qed.

Lemma run_calls_shape p cs :
  let p' := run_calls p cs in
  ID p' = ID p /\ Radius p' = Radius p /\ Speed p' = Speed p
  /\ Direction p' = Direction p /\ WaitTimeMs p' = WaitTimeMs p
  /\ animInterval p' = animInterval p /\ off_axis_pos p' = off_axis_pos p
  /\ (sign_ok p -> sign_ok p') /\ (frame_ok p -> frame_ok p').
Proof.
  cbv zeta. revert p. induction cs as [|c cs IH]; intros p.
  - cbn. tauto.
  - cbn [run_calls fold_left].
    destruct (run_call_keeps_shape p c) as (H1 & H2 & H3 & H4 & H5 & H6 & H7 & H8 & H9).
    destruct (IH (run_call p c)) as (I1 & I2 & I3 & I4 & I5 & I6 & I7 & I8 & I9).
    unfold run_calls in *.
    repeat split; try congruence; auto.
Qed.

(** Over every sequence of [Update], [Bounce] and [Stop] calls an entity
    keeps its identity, radius, speed, axis, wait time and animation
    interval, and its coordinate across the axis; a direction sign of 1 or
    -1 stays one of the two, and so does an animation frame of 0 or 1. *)
Theorem run_calls_keeps_shape p cs :
  let p' := run_calls p cs in
  ID p' = ID p /\ Radius p' = Radius p /\ Speed p' = Speed p
  /\ Direction p' = Direction p /\ WaitTimeMs p' = WaitTimeMs p
  /\ animInterval p' = animInterval p /\ off_axis_pos p' = off_axis_pos p
  /\ (sign_ok p -> sign_ok p') /\ (frame_ok p -> frame_ok p').
Proof. exact (run_calls_shape p cs). Qed.

Lemma stopped_run_call p c : IsStopped p = true -> run_call p c = p.
Proof.
  intros Hs. destruct c as [now1 now2 dt w hgt| |]; cbn [run_call].
  - unfold Pacman_Update. now rewrite Hs.
  - unfold Pacman_Bounce. now rewrite Hs.
  - unfold Pacman_Stop. now rewrite Hs.
Qed.

(** [Stop] reports whether the entity was running and leaves it stopped;
    from then on it is frozen: a second [Stop] reports false, no sequence
    of [Update], [Bounce] and [Stop] calls changes any field, no click hits
    it and it reports no collision. *)
Theorem Pacman_Stop_freezes p :
  let q := (Pacman_Stop p).1 in
  (Pacman_Stop p).2 = negb (IsStopped p)
  /\ IsStopped q = true
  /\ Pacman_Stop q = (q, false)
  /\ (forall cs, run_calls q cs = q)
  /\ (forall x y, IsClicked q x y = false)
  /\ (forall x y r, CheckCollision q x y r = false)
  /\ Pacman_Bounce q = (q, false).
Proof.
  cbv zeta.
  assert (Hq : IsStopped (Pacman_Stop p).1 = true)
    by (unfold Pacman_Stop; destruct (IsStopped p) eqn:E; cbn; auto).
  split; [unfold Pacman_Stop; now destruct (IsStopped p)|].
  split; [exact Hq|].
  split; [unfold Pacman_Stop at 1; now rewrite Hq|].
  split.
  { intros cs. induction cs as [|c cs IH]; [reflexivity|].
    cbn [run_calls fold_left]. rewrite stopped_run_call by exact Hq. exact IH. }
  split; [intros x y; unfold IsClicked; rewrite Hq; apply andb_false_r|].
  split; [intros x y r; unfold CheckCollision; now rewrite Hq|].
  unfold Pacman_Bounce. now rewrite Hq.
Qed.

(** *** More on the tick *)

Lemma moved_from_refl p : moved_from p p.
Proof. exists []. split; [constructor|reflexivity]. Qed.

Lemma moved_from_trans p q r : moved_from p q -> moved_from q r -> moved_from p r.
Proof.
  intros (cs1 & H1 & ->) (cs2 & H2 & ->). exists (cs1 ++ cs2).
  split; [now apply Forall_app|]. unfold run_calls. now rewrite fold_left_app.
Qed.

Lemma Forall2_moved_from_refl ps : Forall2 moved_from ps ps.
Proof. induction ps; constructor; auto using moved_from_refl. Qed.

Lemma Forall2_moved_from_trans ps qs rs :
  Forall2 moved_from ps qs -> Forall2 moved_from qs rs -> Forall2 moved_from ps rs.
Proof.
  intros H. revert rs. induction H as [|p q ps qs Hpq _ IH]; intros rs Hr.
  - inversion Hr. constructor.
  - inversion Hr as [|? r ? rs' Hqr Hrest]; subst. constructor.
    + eapply moved_from_trans; eassumption.
    + now apply IH.
Qed.

Lemma update_pacmans_moved clk i dt w hgt ps bf all :
  Forall2 moved_from ps (update_pacmans clk i dt w hgt ps bf all).1.1.
Proof.
  revert i bf all. induction ps as [|p ps IH]; intros i bf all; cbn.
  - constructor.
  - destruct (Pacman_Update (clk i).1 (clk i).2 dt w hgt p) as [p' n] eqn:Hp.
    specialize (IH (S i) (int_add bf n) (if negb (IsStopped p') then false else all)).
    destruct (update_pacmans clk (S i) dt w hgt ps _ _) as [[ps' b] a].
    cbn in *. constructor; [|exact IH].
    exists [CallUpdate (clk i).1 (clk i).2 dt w hgt].
    split; [repeat constructor; discriminate|]. cbn. now rewrite Hp.
Qed.

Lemma bounce_at_moved ps i : Forall2 moved_from ps (bounce_at ps i).1.
Proof.
  unfold bounce_at. destruct (ps !! i) as [p|] eqn:Hp;
    [|apply Forall2_moved_from_refl].
  destruct (Pacman_Bounce p) as [p' b] eqn:Hb. cbn [fst].
  rewrite <- (list_insert_id ps i p Hp) at 1.
  apply Forall2_insert; [apply Forall2_moved_from_refl|].
  exists [CallBounce]. split; [repeat constructor; discriminate|].
  cbn. now rewrite Hb.
Qed.

Lemma collide_inner_moved ps0 x y r i acc j :
  Forall2 moved_from ps0 acc.1 ->
  Forall2 moved_from ps0 (collide_inner x y r i acc j).1.
Proof.
  destruct acc as [ps bf]. cbn [fst]. intros Hm. unfold collide_inner.
  destruct (ps !! j) as [p2|]; [|exact Hm]. cbn -[bounce_at int_add].
  destruct (IsStopped p2); [exact Hm|].
  match goal with |- context [if ?b then _ else _] => destruct b end; [|exact Hm].
  pose proof (bounce_at_moved ps i) as H1.
  destruct (bounce_at ps i) as [ps1 b1]. cbn [fst] in H1.
  pose proof (bounce_at_moved ps1 j) as H2.
  destruct (bounce_at ps1 j) as [ps2 b2]. cbn [fst] in *.
  eauto using Forall2_moved_from_trans.
Qed.

Lemma collisions_moved ps bf : Forall2 moved_from ps (collisions ps bf).1.
Proof.
  unfold collisions.
  apply (fold_left_invariant (fun acc => Forall2 moved_from ps acc.1));
    [|apply Forall2_moved_from_refl].
  intros acc i Hacc. unfold collide_outer.
  destruct (acc.1 !! i) as [p1|]; [|exact Hacc]. cbn.
  destruct (IsStopped p1); [exact Hacc|].
  apply (fold_left_invariant (fun acc => Forall2 moved_from ps acc.1));
    [|exact Hacc].
  intros a j Ha. now apply collide_inner_moved.
Qed.

Lemma Game_Update_moved now clk h g :
  Forall2 moved_from (Pacmans g) (Pacmans (Game_Update now clk h g).2).
Proof.
  unfold Game_Update. game_simpl.
  destruct (negb (bool_decide (CurrentState g = StatePlaying)));
    [game_simpl; apply Forall2_moved_from_refl|].
  destruct (Level g <? 0); [game_simpl; apply Forall2_moved_from_refl|].
  pose proof (update_pacmans_moved clk 0
                (Seconds (time_Sub now (lastUpdateTime g)))
                (ScreenWidth g) (ScreenHeight g) (Pacmans g) 0 true) as Hup.
  destruct (update_pacmans clk 0 _ _ _ (Pacmans g) 0 true) as [[ps b] a].
  cbn [fst] in Hup.
  pose proof (collisions_moved ps b) as Hcol.
  destruct (collisions ps b) as [ps2 b2]. cbn [fst] in Hcol.
  assert (Forall2 moved_from (Pacmans g) ps2) as Hall
    by eauto using Forall2_moved_from_trans.
  destruct a; game_simpl; [|exact Hall].
  destruct (AddScore h (HighScores g) _) as [[h' sl] added].
  game_simpl. destruct added; game_simpl; exact Hall.
Qed.

Lemma moved_from_effect p p' :
  moved_from p p' ->
  IsStopped p' = IsStopped p /\ (IsStopped p = true -> p' = p).
Proof.
  intros (cs & Hcs & ->). revert p.
  induction cs as [|c cs IH]; intros p; [cbn; auto|].
  apply Forall_cons in Hcs as [Hc Hcs]. cbn [run_calls fold_left].
  destruct (IH Hcs (run_call p c)) as [I1 I2]. unfold run_calls in *.
  assert (Hone : IsStopped (run_call p c) = IsStopped p).
  { destruct c as [now1 now2 dt w hgt| |]; cbn [run_call]; [| |congruence].
    - now destruct (Pacman_Update_effect now1 now2 dt w hgt p) as (Hs & _).
    - now destruct (Pacman_Bounce_effect p) as (Hs & _). }
  split; [congruence|]. intros Hs.
  rewrite I2 by congruence. now apply stopped_run_call.
Qed.

(** A tick never adds, removes or reorders entities and never stops or
    restarts one: the entity at each index keeps its identity, radius,
    speed, axis, wait time, coordinate across the axis and stopped flag, a
    direction sign of 1 or -1 stays one of the two, and an entity that is
    stopped is left exactly as it was. *)
Theorem Game_Update_keeps_entities now clk h g :
  let g' := (Game_Update now clk h g).2 in
  length (Pacmans g') = length (Pacmans g)
  /\ forall i p, Pacmans g !! i = Some p ->
       exists p', Pacmans g' !! i = Some p'
         /\ ID p' = ID p /\ Radius p' = Radius p /\ Speed p' = Speed p
         /\ Direction p' = Direction p /\ WaitTimeMs p' = WaitTimeMs p
         /\ off_axis_pos p' = off_axis_pos p
         /\ IsStopped p' = IsStopped p
         /\ (sign_ok p -> sign_ok p')
         /\ (IsStopped p = true -> p' = p).
Proof.
  cbv zeta. pose proof (Game_Update_moved now clk h g) as Hm.
  split; [symmetry; eapply Forall2_length; exact Hm|].
  intros i p Hp.
  destruct (Forall2_lookup_l _ _ _ _ _ Hm Hp) as (p' & Hp' & Hmv).
  exists p'. split; [exact Hp'|].
  destruct (moved_from_effect p p' Hmv) as [Hs Hfix].
  destruct Hmv as (cs & _ & ->).
  destruct (run_calls_shape p cs) as (H1 & H2 & H3 & H4 & H5 & _ & H7 & H8 & _).
  cbv zeta in *. auto 12.
Qed.

(** *** The bounce total *)

Lemma wrap64_eq_int z : eq_int (wrap64 z) z.
Proof.
  unfold eq_int, wrap64.
  rewrite Zminus_mod_idemp_l. f_equal. lia.
Qed.

Lemma eq_int_refl a : eq_int a a.
Proof. reflexivity. Qed.

Lemma eq_int_trans a b c : eq_int a b -> eq_int b c -> eq_int a c.
Proof. unfold eq_int. congruence. Qed.

Lemma eq_int_add a b c d : eq_int a b -> eq_int c d -> eq_int (a + c) (b + d).
Proof.
  unfold eq_int. intros H1 H2.
  rewrite (Z.add_mod a c), (Z.add_mod b d), H1, H2 by lia. reflexivity.
Qed.

Lemma eq_int_sub a b c d : eq_int a b -> eq_int c d -> eq_int (a - c) (b - d).
Proof.
  unfold eq_int. intros H1 H2.
  rewrite (Zminus_mod a c), (Zminus_mod b d), H1, H2. reflexivity.
Qed.

Lemma Pacman_Update_count now1 now2 dt w hgt p :
  let r := Pacman_Update now1 now2 dt w hgt p in
  r.2 = int_sub (Bounces r.1) (Bounces p).
Proof.
  unfold Pacman_Update.
  destruct (IsStopped p) eqn:Hs; cbn zeta; [cbn; now rewrite int_sub_diag|].
  destruct (animInterval p <? time_Sub now1 (lastAnimTime p));
    destruct (Direction p =? DirHorizontal) eqn:Hd;
    entity_cases p; reflexivity.
Qed.

Lemma sum_bounces_cons p ps : sum_bounces (p :: ps) = Bounces p + sum_bounces ps.
Proof. reflexivity. Qed.

Lemma update_pacmans_sum clk i dt w hgt ps bf all :
  let r := update_pacmans clk i dt w hgt ps bf all in
  eq_int (r.1.2 - bf) (sum_bounces r.1.1 - sum_bounces ps).
Proof.
  revert i bf all. induction ps as [|p ps IH]; intros i bf all;
    cbn [update_pacmans].
  - cbn. now rewrite Z.sub_diag.
  - pose proof (Pacman_Update_count (clk i).1 (clk i).2 dt w hgt p) as Hn.
    cbv zeta in Hn.
    destruct (Pacman_Update (clk i).1 (clk i).2 dt w hgt p) as [p' n].
    cbn [fst snd] in Hn. subst n. cbn [GetData].
    specialize (IH (S i) (int_add bf (int_sub (Bounces p') (Bounces p)))
                  (if negb (IsStopped p') then false else all)).
    cbv zeta in IH.
    destruct (update_pacmans clk (S i) dt w hgt ps _ _) as [[ps' b] a].
    cbn [fst snd] in *. rewrite !sum_bounces_cons.
    replace (b - bf)
      with ((b - int_add bf (int_sub (Bounces p') (Bounces p)))
            + (int_add bf (int_sub (Bounces p') (Bounces p)) - bf)) by lia.
    replace (Bounces p' + sum_bounces ps' - (Bounces p + sum_bounces ps))
      with ((sum_bounces ps' - sum_bounces ps) + (bf + (Bounces p' - Bounces p) - bf))
      by lia.
    apply eq_int_add; [exact IH|].
    apply eq_int_sub; [|apply eq_int_refl].
    eapply eq_int_trans; [apply wrap64_eq_int|].
    apply eq_int_add; [apply eq_int_refl|apply wrap64_eq_int].
Qed.

Lemma sum_bounces_insert ps i p q :
  ps !! i = Some p ->
  sum_bounces (<[i := q]> ps) = sum_bounces ps - Bounces p + Bounces q.
Proof.
  unfold sum_bounces.
  revert i. induction ps as [|x ps IH]; intros [|i] Hp; try discriminate.
  - injection Hp as ->. cbn. lia.
  - change (<[S i:=q]> (x :: ps)) with (x :: <[i:=q]> ps). cbn [foldr].
    rewrite (IH i Hp). lia.
Qed.

Lemma eq_int_succ a : eq_int (int_add a 1 - a) 1.
Proof.
  replace 1 with (a + 1 - a) at 2 by lia.
  apply eq_int_sub; [apply wrap64_eq_int|apply eq_int_refl].
Qed.

(** What one [Bounce] of the collision loop adds to the running count and
    to the counters. *)
Lemma bounce_at_sum ps i bf :
  let r := bounce_at ps i in
  eq_int ((if r.2 then int_add bf 1 else bf) - bf)
         (sum_bounces r.1 - sum_bounces ps).
Proof.
  unfold bounce_at. destruct (ps !! i) as [p|] eqn:Hp;
    [|cbn; now rewrite !Z.sub_diag].
  unfold Pacman_Bounce. destruct (IsStopped p).
  - cbn. rewrite (list_insert_id ps i p Hp). now rewrite !Z.sub_diag.
  - destruct (Direction _ =? DirHorizontal);
      cbn -[int_add int_mul]; rewrite (sum_bounces_insert ps i p _ Hp);
      pacman_simpl;
      (replace (sum_bounces ps - Bounces p + int_add (Bounces p) 1 - sum_bounces ps)
         with (int_add (Bounces p) 1 - Bounces p) by lia);
      (eapply eq_int_trans; [apply eq_int_succ|]);
      symmetry; apply eq_int_succ.
Qed.

Lemma collide_inner_sum c x y r i acc j :
  eq_int acc.2 (sum_bounces acc.1 + c) ->
  let acc' := collide_inner x y r i acc j in
  eq_int acc'.2 (sum_bounces acc'.1 + c).
Proof.
  destruct acc as [ps bf]. cbn [fst snd]. intros Hm. unfold collide_inner.
  destruct (ps !! j) as [p2|]; [|exact Hm]. cbn -[bounce_at int_add].
  destruct (IsStopped p2); [exact Hm|].
  match goal with |- context [if ?b then _ else _] => destruct b end; [|exact Hm].
  pose proof (bounce_at_sum ps i bf) as H1.
  destruct (bounce_at ps i) as [ps1 b1]. cbn [fst snd] in H1.
  set (bf1 := if b1 then int_add bf 1 else bf) in *.
  pose proof (bounce_at_sum ps1 j bf1) as H2.
  destruct (bounce_at ps1 j) as [ps2 b2]. cbn [fst snd] in *.
  set (bf2 := if b2 then int_add bf1 1 else bf1) in *.
  replace bf2 with ((bf2 - bf1) + ((bf1 - bf) + bf)) by lia.
  replace (sum_bounces ps2 + c)
    with ((sum_bounces ps2 - sum_bounces ps1)
          + ((sum_bounces ps1 - sum_bounces ps) + (sum_bounces ps + c))) by lia.
  auto using eq_int_add.
Qed.

Lemma collisions_sum ps bf :
  let r := collisions ps bf in
  eq_int (r.2 - bf) (sum_bounces r.1 - sum_bounces ps).
Proof.
  cbv zeta. unfold collisions.
  set (c := bf - sum_bounces ps).
  assert (eq_int (fold_left (collide_outer (length ps)) (seq 0 (length ps)) (ps, bf)).2
            (sum_bounces
               (fold_left (collide_outer (length ps)) (seq 0 (length ps)) (ps, bf)).1
             + c)) as H.
  { apply (fold_left_invariant (fun acc => eq_int acc.2 (sum_bounces acc.1 + c))).
    - intros acc i Hacc. unfold collide_outer.
      destruct (acc.1 !! i) as [p1|]; [|exact Hacc]. cbn.
      destruct (IsStopped p1); [exact Hacc|].
      apply (fold_left_invariant (fun acc => eq_int acc.2 (sum_bounces acc.1 + c)));
        [|exact Hacc].
      intros a j Ha. now apply collide_inner_sum.
    - cbn [fst snd]. subst c. replace (sum_bounces ps + (bf - sum_bounces ps)) with bf by lia.
      apply eq_int_refl. }
  destruct (fold_left _ _ _) as [ps' bf']. cbn [fst snd] in *. subst c.
  replace (sum_bounces ps' - sum_bounces ps)
    with (sum_bounces ps' + (bf - sum_bounces ps) - bf) by lia.
  apply eq_int_sub; [exact H|apply eq_int_refl].
Qed.

(** In every tick the bounce total grows by the bounces the entities made
    in it: the change of [TotalBounces] and the change of the sum of the
    entities' [Bounces] counters are the same Go [int]. *)
Theorem Game_Update_counts_bounces now clk h g :
  let g' := (Game_Update now clk h g).2 in
  eq_int (TotalBounces g' - TotalBounces g)
         (sum_bounces (Pacmans g') - sum_bounces (Pacmans g)).
Proof.
  unfold Game_Update. game_simpl.
  destruct (negb (bool_decide (CurrentState g = StatePlaying)));
    [game_simpl; now rewrite !Z.sub_diag|].
  destruct (Level g <? 0); [game_simpl; now rewrite !Z.sub_diag|].
  pose proof (update_pacmans_sum clk 0
                (Seconds (time_Sub now (lastUpdateTime g)))
                (ScreenWidth g) (ScreenHeight g) (Pacmans g) 0 true) as Hup.
  cbv zeta in Hup.
  destruct (update_pacmans clk 0 _ _ _ (Pacmans g) 0 true) as [[ps b] a].
  cbn [fst snd] in Hup.
  pose proof (collisions_sum ps b) as Hcol. cbv zeta in Hcol.
  destruct (collisions ps b) as [ps2 b2]. cbn [fst snd] in Hcol.
  assert (eq_int (int_add (TotalBounces g) b2 - TotalBounces g)
            (sum_bounces ps2 - sum_bounces (Pacmans g))) as Hall.
  { replace (sum_bounces ps2 - sum_bounces (Pacmans g))
      with (TotalBounces g + ((sum_bounces ps2 - sum_bounces ps)
                              + (sum_bounces ps - sum_bounces (Pacmans g)))
            - TotalBounces g) by lia.
    apply eq_int_sub; [|apply eq_int_refl].
    eapply eq_int_trans; [apply wrap64_eq_int|].
    apply eq_int_add; [apply eq_int_refl|].
    replace b2 with ((b2 - b) + (b - 0)) by lia.
    now apply eq_int_add. }
  destruct a; game_simpl; [|exact Hall].
  destruct (AddScore h (HighScores g) _) as [[h' sl] added].
  game_simpl. destruct added; game_simpl; exact Hall.
Qed.

(** *** Sequences of operations *)

Lemma alloc_spec h cells n :
  (n <= length cells)%nat ->
  let r := alloc h cells n in
  wf_slice r.1 r.2 /\ cap r.1 r.2 = length cells /\ len r.2 = n
  /\ elems r.1 r.2 = take n cells
  /\ (length h <= length r.1)%nat
  /\ forall s0, (array s0 < length h)%nat -> backing r.1 s0 = backing h s0.
Proof.
  intros Hn. unfold alloc. cbn [fst snd].
  unfold wf_slice, cap, elems. rewrite backing_alloc. cbn [array len].
  rewrite length_app. cbn [length].
  repeat split; try lia.
  intros s0 Hs0. unfold backing. now rewrite lookup_app_l.
Qed.

Lemma Game_Update_effect now clk h g :
  let r := Game_Update now clk h g in
  (HighScores r.2 = HighScores g /\ Level r.2 = Level g
   /\ ScreenWidth r.2 = ScreenWidth g /\ ScreenHeight r.2 = ScreenHeight g
   /\ audioManager r.2 = audioManager g /\ highScorePath r.2 = highScorePath g
   /\ saveGamePath r.2 = saveGamePath g
   /\ levelConfigPath r.2 = levelConfigPath g)
  /\ state_step_no_load (CurrentState g) (CurrentState r.2)
  /\ (CurrentState g <> StatePlaying ->
      r.1 = h /\ Pacmans r.2 = Pacmans g /\ TotalBounces r.2 = TotalBounces g
      /\ playerNameInput r.2 = playerNameInput g
      /\ CurrentState r.2 = CurrentState g)
  /\ (CurrentState g = StatePlaying ->
      CurrentState r.2 = StateEnteringHighScore -> playerNameInput r.2 = [])
  /\ (CurrentState r.2 <> StateEnteringHighScore ->
      playerNameInput r.2 = playerNameInput g)
  /\ (scores_tight h g ->
      backing r.1 (HighScores g) = backing h (HighScores g)
      /\ (length h <= length r.1)%nat).
Proof.
  unfold Game_Update, state_step_no_load, scores_tight. game_simpl.
  destruct (bool_decide (CurrentState g = StatePlaying)) eqn:Hplay; cbn [negb].
  2:{ apply bool_decide_eq_false in Hplay. game_simpl.
      repeat split; auto; try (intros; congruence). }
  apply bool_decide_eq_true in Hplay.
  destruct (Level g <? 0);
    [game_simpl; repeat split; auto; intros; congruence|].
  destruct (update_pacmans _ _ _ _ _ _ _ _) as [[ps b] a].
  destruct (collisions ps b) as [ps2 b2]. game_simpl.
  destruct a; [|game_simpl; repeat split; auto; intros; congruence].
  pose proof (AddScore_frame h (HighScores g)
                (mkScore EmptyString (int_add (TotalBounces g) b2))
                (HighScores g)) as Hframe.
  destruct (AddScore h (HighScores g) _) as [[h' sl] added]. game_simpl.
  cbn [fst] in Hframe.
  destruct added; game_simpl;
    (split; [repeat split; reflexivity|]);
    (split; [rewrite Hplay; auto|]);
    (split; [intros; congruence|]);
    (split; [intros; discriminate || reflexivity|]);
    (split; [intros; congruence || reflexivity|]);
    intros [Hwf Hcap]; apply Hframe; auto; apply Hwf.
Qed.

Lemma load_effect (lhs : option ScoreLoader) lvl h :
  let r :=
    match lhs with
    | Some f =>
        match f ("assets/highscores/highscores_" ++ itoa lvl ++ ".gob")%string with
        | inr _ => alloc h [] 0
        | inl (loadedScores, spare) =>
            alloc h (loadedScores ++ spare) (length loadedScores)
        end
    | None => alloc h [] 0
    end in
  wf_slice r.1 r.2
  /\ (match lhs with Some f => tight_loader f | None => True end ->
      cap r.1 r.2 = len r.2)
  /\ (match lhs with Some f => ranked_loader f | None => True end ->
      (len r.2 <= MaxHighScores)%nat /\ ascending (elems r.1 r.2))
  /\ (length h <= length r.1)%nat
  /\ forall s0, (array s0 < length h)%nat -> backing r.1 s0 = backing h s0.
Proof.
  cbv zeta.
  assert (Hnil : let r := alloc h [] 0 in
                 wf_slice r.1 r.2 /\ cap r.1 r.2 = len r.2
                 /\ ((len r.2 <= MaxHighScores)%nat /\ ascending (elems r.1 r.2))
                 /\ (length h <= length r.1)%nat
                 /\ forall s0, (array s0 < length h)%nat ->
                      backing r.1 s0 = backing h s0).
  { destruct (alloc_spec h [] 0 (Nat.le_refl _)) as (H1 & H2 & H3 & H4 & H5 & H6).
    cbv zeta in *. rewrite H4, H2, H3. cbn [length take].
    split; [exact H1|]. split; [reflexivity|].
    split; [split; [unfold MaxHighScores; lia|constructor]|].
    split; [exact H5|exact H6]. }
  cbv zeta in Hnil. destruct Hnil as (N1 & N2 & N3 & N4 & N5).
  destruct lhs as [f|]; [|auto 8].
  destruct (f _) as [[l spare]|err] eqn:Hf; [|auto 8].
  destruct (alloc_spec h (l ++ spare) (length l)) as (H1 & H2 & H3 & H4 & H5 & H6);
    [rewrite length_app; lia|].
  cbv zeta in *. rewrite H4, H2, H3, take_app_length.
  split; [exact H1|].
  split; [intros Ht; rewrite (Ht _ _ _ Hf), app_nil_r; reflexivity|].
  split; [intros Hr; apply (Hr _ _ _ Hf)|].
  split; [exact H5|exact H6].
Qed.

Lemma slice_frame h h' s :
  backing h' s = backing h s -> (length h <= length h')%nat -> wf_slice h s ->
  wf_slice h' s /\ cap h' s = cap h s /\ elems h' s = elems h s.
Proof.
  intros Hb Hl [Ha Hc]. unfold wf_slice, cap, elems in *. rewrite Hb.
  repeat split; auto; lia.
Qed.

Lemma Game_HandleEnter_effect saveFunc h g :
  let r := (Game_HandleEnter saveFunc h g).1 in
  (Level r.2 = Level g /\ ScreenWidth r.2 = ScreenWidth g
   /\ ScreenHeight r.2 = ScreenHeight g /\ audioManager r.2 = audioManager g
   /\ highScorePath r.2 = highScorePath g /\ saveGamePath r.2 = saveGamePath g
   /\ levelConfigPath r.2 = levelConfigPath g /\ Pacmans r.2 = Pacmans g
   /\ TotalBounces r.2 = TotalBounces g)
  /\ (CurrentState g <> StateEnteringHighScore -> r = (h, g))
  /\ (CurrentState g = StateEnteringHighScore ->
      CurrentState r.2 = StateHallOfFame /\ playerNameInput r.2 = [])
  /\ (scores_ranked (h, g) -> scores_ranked r).
Proof.
  unfold Game_HandleEnter, scores_ranked. cbn [fst snd].
  destruct (bool_decide (CurrentState g = StateEnteringHighScore)) eqn:Hst;
    cbn [negb].
  2:{ apply bool_decide_eq_false in Hst. cbn [fst snd].
      split; [repeat split; reflexivity|].
      split; [reflexivity|]. split; [congruence|tauto]. }
  apply bool_decide_eq_true in Hst.
  set (c := mkScore _ (TotalBounces g)).
  pose proof (AddScore_spec h (HighScores g) c) as Hspec.
  destruct (AddScore h (HighScores g) c) as [[h' sl] added]. game_simpl.
  split; [repeat split; reflexivity|].
  split; [congruence|]. split; [auto|].
  intros (Hwf & Hn & Hasc). specialize (Hspec Hwf Hn).
  destruct (_ || _).
  - destruct Hspec as (h2 & s2 & [= -> -> ->] & Hel & Hwf2).
    split; [exact Hwf2|]. rewrite <- (elems_length h2 s2 Hwf2), Hel.
    split; [apply spec_insert_length|apply spec_insert_ascending].
  - injection Hspec as -> -> ->. auto.
Qed.

Lemma request_load_effect now lhs h g loaded hsPath svPath cfgPath :
  let lvl := Level loaded in
  let '(h', hs) :=
    match lhs with
    | Some f =>
        match f ("assets/highscores/highscores_" ++ itoa lvl ++ ".gob")%string with
        | inr _ => alloc h [] 0
        | inl (loadedScores, spare) =>
            alloc h (loadedScores ++ spare) (length loadedScores)
        end
    | None => alloc h [] 0
    end in
  let st :=
    (h', mkGame (Pacmans loaded) lvl (TotalBounces loaded)
           (ScreenWidth g) (ScreenHeight g) StatePlaying hs hsPath svPath
           cfgPath now (deltaTime g) [] false (audioManager g)) in
  (match lhs with Some f => tight_loader f | None => True end -> reachable_inv st)
  /\ (match lhs with Some f => ranked_loader f | None => True end -> scores_ranked st).
Proof.
  cbv zeta. pose proof (load_effect lhs (Level loaded) h) as Hl. cbv zeta in Hl.
  destruct (match lhs with Some _ => _ | None => _ end) as [h' hs].
  cbn [fst snd] in Hl. destruct Hl as (Hwf & Ht & Hr & _).
  unfold reachable_inv, scores_ranked, scores_tight. game_simpl.
  split; [intros H; split; auto|].
  intros H. destruct (Hr H). auto.
Qed.

Lemma run_op_inv op st :
  match op_loader op with Some f => tight_loader f | None => True end ->
  reachable_inv st -> reachable_inv (run_op op st).
Proof.
  destruct st as [h g]. intros Hld [Ht Hb]. cbn [fst snd] in *.
  destruct op as [now clk|x y|chars| |saveFunc|saveFunc
                  |now lhs level configPath loadFunc|now lhs savePath loadFunc];
    cbn [run_op op_loader] in *.
  - destruct (Game_Update_effect now clk h g)
      as ((Hhs & _) & _ & Hidle & Hent & Hbuf & Hframe).
    cbv zeta in *. destruct (Game_Update now clk h g) as [h' g'].
    unfold reachable_inv, scores_tight in *. cbn [fst snd] in *. split.
    + intros Hnot. rewrite Hhs.
      destruct (CurrentState g) eqn:E;
        try (destruct Hidle as (-> & _ & _ & _ & Hs); [discriminate|];
             apply Ht; congruence).
      destruct (Ht ltac:(discriminate)) as [Hwf Hcap].
      destruct (Hframe (conj Hwf Hcap)) as [Hback Hlen].
      destruct (slice_frame h h' (HighScores g) Hback Hlen Hwf) as (? & ? & _).
      split; [assumption|congruence].
    + intros Hnot. rewrite (Hbuf Hnot). apply Hb. intros E.
      destruct Hidle as (_ & _ & _ & _ & Hs); [rewrite E; discriminate|].
      congruence.
  - unfold Game_HandleClick, reachable_inv, scores_tight in *.
    destruct (negb _); game_simpl; auto.
  - unfold Game_HandleTextInput, reachable_inv, scores_tight in *.
    destruct (bool_decide (CurrentState g = StateEnteringHighScore)) eqn:E;
      cbn [negb]; game_simpl; auto.
    apply bool_decide_eq_true in E.
    destruct (_ <? _)%nat; game_simpl; auto. split; [auto|congruence].
  - unfold Game_HandleBackspace, reachable_inv, scores_tight in *.
    destruct (bool_decide (CurrentState g = StateEnteringHighScore)) eqn:E;
      cbn [negb andb]; game_simpl; auto.
    apply bool_decide_eq_false in E. rewrite (Hb E). cbn. auto.
  - destruct (Game_HandleEnter_effect saveFunc h g) as (_ & Hout & Hin & _).
    cbv zeta in *.
    destruct (bool_decide (CurrentState g = StateEnteringHighScore)) eqn:E.
    + apply bool_decide_eq_true in E. destruct (Hin E) as [Hs Hn].
      unfold reachable_inv. split; [congruence|auto].
    + apply bool_decide_eq_false in E. rewrite (Hout E).
      unfold reachable_inv. auto.
  - unfold reachable_inv. auto.
  - unfold RequestLoadLevel. destruct (loadFunc configPath) as [loaded|err];
      [|unfold reachable_inv; auto].
    pose proof (request_load_effect now lhs h g loaded
                  ("assets/highscores/highscores_" ++ itoa (Level loaded) ++ ".gob")%string
                  ("assets/saves/savegame_" ++ itoa (Level loaded) ++ ".txt")%string
                  configPath) as He.
    cbv zeta in *.
    destruct (match lhs with Some _ => _ | None => _ end) as [h' hs].
    cbn [fst]. now apply He.
  - unfold RequestLoadSavedGame. destruct (loadFunc savePath) as [loaded|err];
      [|unfold reachable_inv; auto].
    pose proof (request_load_effect now lhs h g loaded
                  ("assets/highscores/highscores_" ++ itoa (Level loaded) ++ ".gob")%string
                  savePath
                  ("assets/levels/level_" ++ itoa (Level loaded) ++ ".txt")%string) as He.
    cbv zeta in *.
    destruct (match lhs with Some _ => _ | None => _ end) as [h' hs].
    cbn [fst]. now apply He.
Qed.

Lemma NewGame_inv w hgt a h0 :
  reachable_inv (NewGame w hgt a h0) /\ scores_ranked (NewGame w hgt a h0).
Proof.
  unfold NewGame.
  destruct (alloc_spec h0 [] 0 (Nat.le_refl _)) as (H1 & H2 & H3 & H4 & _).
  cbv zeta in *. destruct (alloc h0 [] 0) as [h' hs]. cbn [fst snd] in *.
  unfold reachable_inv, scores_ranked, scores_tight. game_simpl.
  rewrite H2, H3, H4. cbn [length take].
  repeat split; auto; try (unfold MaxHighScores; lia); try apply H1.
  constructor.
Qed.

Lemma run_ops_inv ops st :
  ops_loaders tight_loader ops -> reachable_inv st -> reachable_inv (run_ops ops st).
Proof.
  unfold ops_loaders, run_ops. intros Hl. revert st.
  induction Hl as [|op ops Hop _ IH]; intros st Hst; cbn [fold_left]; [exact Hst|].
  apply IH, run_op_inv; assumption.
Qed.

(** In every state reached from a new game by operations whose high-score
    readers return slices without spare capacity, as the Go decoder does,
    a tick leaves the stored high-score list as it was: the eligibility
    check at game over never writes into it. *)
Theorem reachable_tick_keeps_scores w hgt a h0 ops now clk :
  ops_loaders tight_loader ops ->
  let st := run_ops ops (NewGame w hgt a h0) in
  let r := Game_Update now clk st.1 st.2 in
  HighScores r.2 = HighScores st.2
  /\ elems r.1 (HighScores r.2) = elems st.1 (HighScores st.2).
Proof.
  intros Hl. cbv zeta.
  pose proof (run_ops_inv ops _ Hl (proj1 (NewGame_inv w hgt a h0))) as [Ht _].
  destruct (run_ops ops (NewGame w hgt a h0)) as [h g]. cbn [fst snd] in *.
  destruct (Game_Update_effect now clk h g)
    as ((Hhs & _) & _ & Hidle & _ & _ & Hframe).
  cbv zeta in *. destruct (Game_Update now clk h g) as [h' g'].
  cbn [fst snd] in *. rewrite Hhs. split; [reflexivity|].
  destruct (CurrentState g) eqn:E;
    try (destruct Hidle as (-> & _); [discriminate|]; reflexivity).
  destruct (Ht ltac:(discriminate)) as [Hwf Hcap].
  destruct (Hframe (conj Hwf Hcap)) as [Hback Hlen].
  now destruct (slice_frame h h' (HighScores g) Hback Hlen Hwf) as (_ & _ & ->).
Qed.

(** *** The state machine *)

Lemma load_state now (lhs : option ScoreLoader) h g loaded hsPath svPath cfgPath :
  let '(h', hs) :=
    match lhs with
    | Some f =>
        match f ("assets/highscores/highscores_" ++ itoa (Level loaded) ++ ".gob")%string with
        | inr _ => alloc h [] 0
        | inl (loadedScores, spare) =>
            alloc h (loadedScores ++ spare) (length loadedScores)
        end
    | None => alloc h [] 0
    end in
  let g' :=
    mkGame (Pacmans loaded) (Level loaded) (TotalBounces loaded)
      (ScreenWidth g) (ScreenHeight g) StatePlaying hs hsPath svPath
      cfgPath now (deltaTime g) [] false (audioManager g) in
  CurrentState g' = StatePlaying /\ playerNameInput g' = []
  /\ ScreenWidth g' = ScreenWidth g /\ ScreenHeight g' = ScreenHeight g
  /\ audioManager g' = audioManager g.
Proof.
  destruct (match lhs with Some _ => _ | None => _ end) as [h' hs].
  cbn. auto.
Qed.

Ltac fields_done :=
  repeat match goal with
         | |- _ /\ _ => split
         | |- _ -> _ => intro
         end;
  auto; try congruence; try lia.

Lemma run_op_fields op st :
  let st' := run_op op st in
  state_step (CurrentState st.2) (CurrentState st'.2)
  /\ (ScreenWidth st'.2 = ScreenWidth st.2
      /\ ScreenHeight st'.2 = ScreenHeight st.2
      /\ audioManager st'.2 = audioManager st.2)
  /\ (is_load op = false ->
      state_step_no_load (CurrentState st.2) (CurrentState st'.2)
      /\ Level st'.2 = Level st.2
      /\ highScorePath st'.2 = highScorePath st.2
      /\ saveGamePath st'.2 = saveGamePath st.2
      /\ levelConfigPath st'.2 = levelConfigPath st.2)
  /\ ((CurrentState st.2 <> StateEnteringHighScore -> playerNameInput st.2 = []) ->
      CurrentState st'.2 <> StateEnteringHighScore -> playerNameInput st'.2 = [])
  /\ (length (playerNameInput st'.2)
      <= Nat.max (length (playerNameInput st.2)) (14 + length (op_chars op)))%nat.
Proof.
  destruct st as [h g]. cbn [fst snd].
  destruct op as [now clk|x y|chars| |saveFunc|saveFunc
                  |now lhs level configPath loadFunc|now lhs savePath loadFunc];
    cbn [run_op is_load op_chars]; cbv zeta.
  - destruct (Game_Update_effect now clk h g)
      as ((_ & HL & HW & HH & HA & P1 & P2 & P3) & Hstep & Hidle & Hent & Hbuf & _).
    cbv zeta in *. destruct (Game_Update now clk h g) as [h' g'].
    cbn [fst snd] in *.
    split; [unfold state_step, state_step_no_load in *; tauto|].
    split; [auto|]. split; [auto 8|]. split.
    + intros Hb Hnot. rewrite (Hbuf Hnot). apply Hb. intros E.
      destruct Hidle as (_ & _ & _ & _ & Hs); [rewrite E; discriminate|].
      congruence.
    + destruct (CurrentState g) eqn:E;
        try (destruct Hidle as (_ & _ & _ & -> & _); [discriminate|]; lia).
      destruct (CurrentState g') eqn:E';
        try (rewrite Hbuf by discriminate; lia).
      rewrite Hent by reflexivity. cbn. lia.
  - unfold Game_HandleClick, state_step, state_step_no_load.
    destruct (negb _); game_simpl; repeat split; auto; lia.
  - unfold Game_HandleTextInput, state_step, state_step_no_load.
    destruct (bool_decide (CurrentState g = StateEnteringHighScore)) eqn:E;
      cbn [negb]; [|game_simpl; repeat split; auto; lia].
    apply bool_decide_eq_true in E.
    destruct (length (playerNameInput g) <? 15)%nat eqn:Hlt;
      game_simpl; repeat split; auto; try congruence; try lia.
    apply Nat.ltb_lt in Hlt. rewrite length_app. lia.
  - unfold Game_HandleBackspace, state_step, state_step_no_load.
    destruct (bool_decide (CurrentState g = StateEnteringHighScore)) eqn:E;
      cbn [negb andb]; [game_simpl; repeat split; auto; lia|].
    apply bool_decide_eq_false in E.
    destruct (0 <? length (playerNameInput g))%nat;
      game_simpl; repeat split; auto; try lia.
    + intros Hb _. rewrite (Hb E). reflexivity.
    + rewrite length_take. lia.
  - destruct (Game_HandleEnter_effect saveFunc h g)
      as ((HL & HW & HH & HA & P1 & P2 & P3 & _) & Hout & Hin & _).
    cbv zeta in *.
    destruct (bool_decide (CurrentState g = StateEnteringHighScore)) eqn:E.
    + apply bool_decide_eq_true in E. destruct (Hin E) as [Hs Hn].
      unfold state_step, state_step_no_load. rewrite Hs, Hn, E. cbn [length].
      repeat split; auto; lia.
    + apply bool_decide_eq_false in E. rewrite (Hout E). cbn [fst snd].
      unfold state_step, state_step_no_load. repeat split; auto; lia.
  - unfold state_step, state_step_no_load. cbn [fst snd]. fields_done.
  - unfold RequestLoadLevel. destruct (loadFunc configPath) as [loaded|err];
      [|unfold state_step; cbn [fst snd]; fields_done].
    pose proof (load_state now lhs h g loaded
                  ("assets/highscores/highscores_" ++ itoa (Level loaded) ++ ".gob")%string
                  ("assets/saves/savegame_" ++ itoa (Level loaded) ++ ".txt")%string
                  configPath) as He.
    cbv zeta in *.
    destruct (match lhs with Some _ => _ | None => _ end) as [h' hs].
    cbn [fst snd]. destruct He as (-> & -> & ? & ? & ?). cbn [length].
    unfold state_step. fields_done.
  - unfold RequestLoadSavedGame. destruct (loadFunc savePath) as [loaded|err];
      [|unfold state_step; cbn [fst snd]; fields_done].
    pose proof (load_state now lhs h g loaded
                  ("assets/highscores/highscores_" ++ itoa (Level loaded) ++ ".gob")%string
                  savePath
                  ("assets/levels/level_" ++ itoa (Level loaded) ++ ".txt")%string) as He.
    cbv zeta in *.
    destruct (match lhs with Some _ => _ | None => _ end) as [h' hs].
    cbn [fst snd]. destruct He as (-> & -> & ? & ? & ?). cbn [length].
    unfold state_step. fields_done.
Qed.

Lemma run_ops_buffer ops st :
  (CurrentState st.2 <> StateEnteringHighScore -> playerNameInput st.2 = []) ->
  let st' := run_ops ops st in
  CurrentState st'.2 <> StateEnteringHighScore -> playerNameInput st'.2 = [].
Proof.
  cbv zeta. unfold run_ops. revert st.
  induction ops as [|op ops IH]; intros st Hst; cbn [fold_left]; [exact Hst|].
  apply IH. now apply run_op_fields.
Qed.

(** In every state reached from a new game, whatever the operations were,
    [HandleBackspace] changes nothing: outside EnteringHighScore the name
    buffer is empty, and in it the guard keeps the buffer as it is. *)
Theorem reachable_backspace_noop w hgt a h0 ops :
  let st := run_ops ops (NewGame w hgt a h0) in
  (CurrentState st.2 <> StateEnteringHighScore -> playerNameInput st.2 = [])
  /\ Game_HandleBackspace st.2 = st.2.
Proof.
  cbv zeta.
  assert (Hb : CurrentState (run_ops ops (NewGame w hgt a h0)).2
               <> StateEnteringHighScore ->
               playerNameInput (run_ops ops (NewGame w hgt a h0)).2 = []).
  { apply run_ops_buffer. intros _. unfold NewGame.
    destruct (alloc h0 [] 0). reflexivity. }
  split; [exact Hb|].
  destruct (run_ops ops (NewGame w hgt a h0)) as [h g]. cbn [fst snd] in *.
  unfold Game_HandleBackspace.
  destruct (bool_decide (CurrentState g = StateEnteringHighScore)) eqn:E;
    cbn [negb andb]; [reflexivity|].
  apply bool_decide_eq_false in E. now rewrite (Hb E).
Qed.

(** When every text input carries at most one character, a name buffer of
    at most 15 characters stays within 15 characters over every sequence
    of operations. *)
Theorem name_within_cap_single_keys ops st :
  Forall (fun op => (length (op_chars op) <= 1)%nat) ops ->
  (length (playerNameInput st.2) <= 15)%nat ->
  (length (playerNameInput (run_ops ops st).2) <= 15)%nat.
Proof.
  unfold run_ops. intros Hops. revert st.
  induction Hops as [|op ops Hop _ IH]; intros st Hst; cbn [fold_left];
    [exact Hst|].
  apply IH. destruct (run_op_fields op st) as (_ & _ & _ & _ & Hlen).
  cbv zeta in Hlen. lia.
Qed.

Lemma run_op_rest op h g :
  CurrentState g <> StatePlaying -> CurrentState g <> StateEnteringHighScore ->
  is_load op = false ->
  let st' := run_op op (h, g) in
  st'.1 = h /\ CurrentState st'.2 = CurrentState g /\ Pacmans st'.2 = Pacmans g
  /\ TotalBounces st'.2 = TotalBounces g /\ Level st'.2 = Level g
  /\ HighScores st'.2 = HighScores g.
Proof.
  intros Hp He Hl.
  destruct op as [now clk|x y|chars| |saveFunc|saveFunc
                  |now lhs level configPath loadFunc|now lhs savePath loadFunc];
    try discriminate; cbn [run_op]; cbv zeta.
  - destruct (Game_Update_effect now clk h g) as ((Hhs & HL & _) & _ & Hidle & _).
    cbv zeta in *. destruct (Hidle Hp) as (? & ? & ? & ? & ?). auto 8.
  - unfold Game_HandleClick.
    rewrite bool_decide_eq_false_2 by exact Hp. cbn [negb fst snd]. auto 8.
  - unfold Game_HandleTextInput.
    rewrite bool_decide_eq_false_2 by exact He. cbn [negb fst snd]. auto 8.
  - unfold Game_HandleBackspace. destruct (_ && _); game_simpl; auto 8.
  - destruct (Game_HandleEnter_effect saveFunc h g) as (_ & Hout & _).
    cbv zeta in *. rewrite (Hout He). cbn [fst snd]. auto 8.
  - cbn [fst snd]. auto 8.
Qed.

(** Starting, GameOver and HallOfFame are left only by a load: over every
    sequence of the other operations the state stays, and with it the
    entities, the bounce total, the level, the stored high-score slice and
    the store of score arrays. *)
Theorem rest_states_left_by_load_only ops h g :
  CurrentState g <> StatePlaying -> CurrentState g <> StateEnteringHighScore ->
  Forall (fun op => is_load op = false) ops ->
  let st' := run_ops ops (h, g) in
  st'.1 = h /\ CurrentState st'.2 = CurrentState g /\ Pacmans st'.2 = Pacmans g
  /\ TotalBounces st'.2 = TotalBounces g /\ Level st'.2 = Level g
  /\ HighScores st'.2 = HighScores g.
Proof.
  intros Hp He Hops. cbv zeta. unfold run_ops. revert g Hp He.
  induction Hops as [|op ops Hop _ IH]; intros g Hp He; cbn [fold_left];
    [cbn; auto 8|].
  destruct (run_op_rest op h g Hp He Hop) as (E1 & E2 & E3 & E4 & E5 & E6).
  cbv zeta in *. destruct (run_op op (h, g)) as [h1 g1]. cbn [fst snd] in *.
  subst h1. rewrite <- E2, <- E3, <- E4, <- E5, <- E6.
  apply IH; congruence.
Qed.

(** *** Running entities and clicks *)

(** While some entity is still running, a tick does not end the game: the
    state, the name buffer, the new-high-score flag and the stored slice
    stay as they are and the store of score arrays is not touched. *)
Theorem Game_Update_running now clk h g :
  Exists (fun p => IsStopped p = false) (Pacmans g) ->
  let r := Game_Update now clk h g in
  r.1 = h /\ CurrentState r.2 = CurrentState g
  /\ playerNameInput r.2 = playerNameInput g
  /\ isNewHighScore r.2 = isNewHighScore g
  /\ HighScores r.2 = HighScores g.
Proof.
  intros Hrun. cbv zeta. unfold Game_Update. game_simpl.
  destruct (negb _); [game_simpl; auto|].
  destruct (Level g <? 0); [game_simpl; auto|].
  pose proof (update_pacmans_stopped clk 0
                (Seconds (time_Sub now (lastUpdateTime g)))
                (ScreenWidth g) (ScreenHeight g) (Pacmans g) 0 true) as Hup.
  cbv zeta in Hup.
  destruct (update_pacmans clk 0 _ _ _ (Pacmans g) 0 true) as [[ps b] a].
  cbn [fst snd andb] in Hup. destruct Hup as [_ Ha].
  destruct (collisions ps b) as [ps2 b2].
  destruct a; [|game_simpl; auto]. exfalso.
  symmetry in Ha. apply forallb_IsStopped in Ha.
  apply Exists_exists in Hrun as (p & Hp & Hs).
  rewrite Forall_forall in Ha. specialize (Ha p Hp). congruence.
Qed.

Lemma IsClicked_running p x y : IsClicked p x y = true -> IsStopped p = false.
Proof.
  unfold IsClicked. intros H. apply andb_true_iff in H as [_ H].
  now destruct (IsStopped p).
Qed.

Lemma click_first_spec ps x y :
  (Forall (fun p => IsClicked p x y = false) ps /\ click_first ps x y = ps)
  \/ exists pre p post,
       ps = pre ++ p :: post
       /\ Forall (fun q => IsClicked q x y = false) pre
       /\ IsClicked p x y = true
       /\ click_first ps x y = pre ++ set_IsStopped p true :: post.
Proof.
  induction ps as [|p ps IH]; [left; split; [constructor|reflexivity]|].
  cbn [click_first]. destruct (IsClicked p x y) eqn:Hc.
  - right. exists [], p, ps. cbn [app].
    split; [reflexivity|]. split; [constructor|]. split; [exact Hc|].
    unfold Pacman_Stop. now rewrite (IsClicked_running p x y Hc).
  - destruct IH as [[Hall ->]|(pre & q & post & -> & Hall & Hq & ->)].
    + left. split; [constructor; assumption|reflexivity].
    + right. exists (p :: pre), q, post. cbn [app].
      split; [reflexivity|]. split; [constructor; assumption|].
      split; [assumption|reflexivity].
Qed.

(** A click outside Playing is ignored.  In Playing it stops the first
    entity, in list order, that is running and contains the point, and
    changes nothing else; when no running entity contains the point the
    game is left as it is.  Stopped entities cannot be hit. *)
Theorem Game_HandleClick_first_hit x y g :
  let g' := Game_HandleClick x y g in
  (CurrentState g <> StatePlaying -> g' = g)
  /\ (CurrentState g = StatePlaying ->
      (Forall (fun p => IsClicked p x y = false) (Pacmans g) /\ g' = g)
      \/ exists pre p post,
           Pacmans g = pre ++ p :: post
           /\ Forall (fun q => IsClicked q x y = false) pre
           /\ IsClicked p x y = true /\ IsStopped p = false
           /\ g' = set_Pacmans g (pre ++ set_IsStopped p true :: post))
  /\ (forall p, IsStopped p = true -> IsClicked p x y = false).
Proof.
  cbv zeta. unfold Game_HandleClick.
  split; [intros Hs; now rewrite bool_decide_eq_false_2|].
  split.
  - intros Hs. rewrite bool_decide_eq_true_2 by exact Hs. cbn [negb].
    destruct (click_first_spec (Pacmans g) x y)
      as [[Hall ->]|(pre & p & post & Hps & Hall & Hp & ->)].
    + left. split; [exact Hall|]. now destruct g.
    + right. exists pre, p, post.
      split; [exact Hps|]. split; [exact Hall|]. split; [exact Hp|].
      split; [exact (IsClicked_running p x y Hp)|reflexivity].
  - intros p Hs. unfold IsClicked. rewrite Hs. apply andb_false_r.
Qed.

(** *** The eligibility check on a slice with spare capacity *)

Lemma AddScore_in_place_store h s c :
  wf_slice h s -> (len s < cap h s)%nat -> (len s <= MaxHighScores)%nat ->
  shouldAdd h s c = true ->
  (AddScore h s c).1.1
  = <[array s := stable_sort (elems h s ++ [c])
                 ++ drop (S (len s)) (<[len s := c]> (backing h s))]> h.
Proof.
  intros Hwf Hcap Hn Hadd.
  assert (Happ : append h s c
                 = (<[array s := <[len s := c]> (backing h s)]> h,
                    mkSlice (array s) (S (len s)))).
  { unfold append.
    now replace (len s <? cap h s)%nat with true
      by (symmetry; apply Nat.ltb_lt; exact Hcap). }
  destruct (append_spec _ _ _ _ _ Hwf Happ) as (Hel & _ & _).
  pose proof (elems_length _ _ Hwf) as Hlen. destruct Hwf as [Ha Hc].
  unfold AddScore. rewrite Hadd, Happ. cbn [fst snd]. unfold sort_slice.
  rewrite Hel. cbn [array len].
  rewrite sort_Sort_small
    by (rewrite length_app, Hlen; cbn [length];
        unfold maxInsertion, MaxHighScores in *; lia).
  change (backing (<[array s := <[len s := c]> (backing h s)]> h)
            {| array := array s; len := S (len s) |})
    with (backing (<[array s := <[len s := c]> (backing h s)]> h) s).
  rewrite backing_insert by exact Ha.
  apply list_insert_insert_eq.
Qed.

(** With a spare cell, an admitted candidate is written into the caller's
    array: the caller's slice then shows the first entries of the ranked
    list with the candidate in it. *)
Lemma AddScore_in_place h s c :
  wf_slice h s -> (len s < cap h s)%nat -> (len s <= MaxHighScores)%nat ->
  shouldAdd h s c = true ->
  elems (AddScore h s c).1.1 s = take (len s) (stable_sort (elems h s ++ [c]))
  /\ (AddScore h s c).2 = true
  /\ wf_slice (AddScore h s c).1.1 s
  /\ cap (AddScore h s c).1.1 s = cap h s.
Proof.
  intros Hwf Hcap Hn Hadd.
  assert (Hflag : (AddScore h s c).2 = true).
  { destruct (AddScore_added h s c Hwf) as (h2 & s2 & -> & _);
      [unfold maxInsertion, MaxHighScores in *; lia|exact Hadd|].
    cbn [snd]. now apply admitted_is_retained. }
  rewrite (AddScore_in_place_store h s c Hwf Hcap Hn Hadd).
  pose proof (elems_length _ _ Hwf) as Hlen. destruct Hwf as [Ha Hc].
  assert (Hsl : length (stable_sort (elems h s ++ [c])) = S (len s))
    by (rewrite stable_sort_length, length_app, Hlen; cbn [length]; lia).
  unfold elems at 1. unfold wf_slice, cap in *.
  rewrite backing_insert by exact Ha.
  rewrite take_app_le by lia.
  rewrite length_insert, length_app, length_drop, length_insert, Hsl.
  repeat split; auto; lia.
Qed.

Lemma stable_sort_sorted l : ascending l -> stable_sort l = l.
Proof.
  induction l as [|x l IH] using rev_ind; intros Hs; [reflexivity|].
  apply ascending_snoc_inv in Hs as [Hs Hle].
  rewrite stable_sort_snoc, IH by exact Hs.
  now apply insert_stable_all_le.
Qed.

Lemma Game_Update_check_spare now clk h g :
  wf_slice h (HighScores g) ->
  (len (HighScores g) < cap h (HighScores g))%nat ->
  (len (HighScores g) <= MaxHighScores)%nat ->
  CurrentState g = StatePlaying ->
  CurrentState (Game_Update now clk h g).2 = StateEnteringHighScore ->
  let r := Game_Update now clk h g in
  HighScores r.2 = HighScores g
  /\ elems r.1 (HighScores r.2)
     = take (len (HighScores g))
         (stable_sort (elems h (HighScores g)
                       ++ [mkScore EmptyString (TotalBounces r.2)]))
  /\ wf_slice r.1 (HighScores r.2)
  /\ cap r.1 (HighScores r.2) = cap h (HighScores g).
Proof.
  intros Hwf Hcap Hn Hplay. cbv zeta. unfold Game_Update. game_simpl.
  rewrite Hplay, bool_decide_eq_true_2 by reflexivity. cbn [negb].
  destruct (Level g <? 0); [game_simpl; congruence|].
  destruct (update_pacmans _ _ _ _ _ _ _ _) as [[ps b] a].
  destruct (collisions ps b) as [ps2 b2]. game_simpl.
  destruct a; [|game_simpl; congruence].
  set (tb := int_add (TotalBounces g) b2).
  pose proof (AddScore_in_place h (HighScores g) (mkScore EmptyString tb)
                Hwf Hcap Hn) as Hin.
  pose proof (AddScore_not_added h (HighScores g) (mkScore EmptyString tb)) as Hout.
  destruct (shouldAdd h (HighScores g) (mkScore EmptyString tb)).
  - destruct (Hin eq_refl) as (Hel & Hflag & Hwf' & Hcap').
    destruct (AddScore h (HighScores g) (mkScore EmptyString tb))
      as [[h' sl] added].
    cbn [fst snd] in *. subst added. game_simpl. auto.
  - rewrite (Hout eq_refl). game_simpl. discriminate.
Qed.

(** When the game ends on a slice with spare capacity and the run is
    eligible, the eligibility check of the tick overwrites the stored
    list: it then shows the first entries of the ranked list with the
    nameless candidate in it, so a stored entry is lost whenever the
    candidate beats one. *)
Theorem Game_Update_check_writes_spare now clk h g :
  wf_slice h (HighScores g) ->
  (len (HighScores g) < cap h (HighScores g))%nat ->
  (len (HighScores g) <= MaxHighScores)%nat ->
  CurrentState g = StatePlaying ->
  CurrentState (Game_Update now clk h g).2 = StateEnteringHighScore ->
  let r := Game_Update now clk h g in
  HighScores r.2 = HighScores g
  /\ elems r.1 (HighScores r.2)
     = take (len (HighScores g))
         (stable_sort (elems h (HighScores g)
                       ++ [mkScore EmptyString (TotalBounces r.2)]))
  /\ wf_slice r.1 (HighScores r.2)
  /\ cap r.1 (HighScores r.2) = cap h (HighScores g).
Proof. exact (Game_Update_check_spare now clk h g). Qed.

(** *** The ranking of the stored list, whatever its spare capacity *)

(** Whatever [AddScore] does to the caller's array, the caller's slice
    still shows a ranked list: the list it showed, or the first entries of
    the ranked list with the candidate in it. *)
Lemma AddScore_store_ranked h s c :
  wf_slice h s -> (len s <= MaxHighScores)%nat -> ascending (elems h s) ->
  wf_slice (AddScore h s c).1.1 s /\ ascending (elems (AddScore h s c).1.1 s).
Proof.
  intros Hwf Hn Hasc.
  destruct (shouldAdd h s c) eqn:Hadd.
  2:{ rewrite (AddScore_not_added _ _ _ Hadd). auto. }
  destruct (Nat.lt_ge_cases (len s) (cap h s)) as [Hcap|Hcap].
  - destruct (AddScore_in_place h s c Hwf Hcap Hn Hadd) as (-> & _ & Hwf' & _).
    split; [exact Hwf'|apply ascending_take, stable_sort_ascending].
  - assert (Hc : cap h s = len s) by (destruct Hwf; lia).
    destruct (AddScore_frame h s c s Hwf Hc (proj1 Hwf)) as [Hb Hl].
    destruct (slice_frame _ _ s Hb Hl Hwf) as (Hwf' & _ & ->). auto.
Qed.

Lemma Game_Update_ranked now clk h g :
  scores_ranked (h, g) -> scores_ranked (Game_Update now clk h g).
Proof.
  unfold scores_ranked, Game_Update. game_simpl. intros (Hwf & Hn & Hasc).
  destruct (negb _); [game_simpl; auto|].
  destruct (Level g <? 0); [game_simpl; auto|].
  destruct (update_pacmans _ _ _ _ _ _ _ _) as [[ps b] a].
  destruct (collisions ps b) as [ps2 b2]. game_simpl.
  destruct a; [|game_simpl; auto].
  pose proof (AddScore_store_ranked h (HighScores g)
                (mkScore EmptyString (int_add (TotalBounces g) b2))
                Hwf Hn Hasc) as Hr.
  destruct (AddScore h (HighScores g) _) as [[h' sl] added].
  cbn [fst snd] in Hr. destruct added; game_simpl; tauto.
Qed.

Lemma run_op_ranked op st :
  match op_loader op with Some f => ranked_loader f | None => True end ->
  scores_ranked st -> scores_ranked (run_op op st).
Proof.
  destruct st as [h g]. intros Hld Hr. cbn [fst snd] in *.
  destruct op as [now clk|x y|chars| |saveFunc|saveFunc
                  |now lhs level configPath loadFunc|now lhs savePath loadFunc];
    cbn [run_op op_loader] in *.
  - now apply Game_Update_ranked.
  - unfold Game_HandleClick, scores_ranked in *.
    destruct (negb _); game_simpl; auto.
  - unfold Game_HandleTextInput, scores_ranked in *.
    destruct (negb _); [|destruct (_ <? _)%nat]; game_simpl; auto.
  - unfold Game_HandleBackspace, scores_ranked in *.
    destruct (_ && _); game_simpl; auto.
  - now apply Game_HandleEnter_effect.
  - exact Hr.
  - unfold RequestLoadLevel. destruct (loadFunc configPath) as [loaded|err];
      [|exact Hr].
    pose proof (request_load_effect now lhs h g loaded
                  ("assets/highscores/highscores_" ++ itoa (Level loaded) ++ ".gob")%string
                  ("assets/saves/savegame_" ++ itoa (Level loaded) ++ ".txt")%string
                  configPath) as He.
    cbv zeta in *.
    destruct (match lhs with Some _ => _ | None => _ end) as [h' hs].
    cbn [fst]. now apply He.
  - unfold RequestLoadSavedGame. destruct (loadFunc savePath) as [loaded|err];
      [|exact Hr].
    pose proof (request_load_effect now lhs h g loaded
                  ("assets/highscores/highscores_" ++ itoa (Level loaded) ++ ".gob")%string
                  savePath
                  ("assets/levels/level_" ++ itoa (Level loaded) ++ ".txt")%string) as He.
    cbv zeta in *.
    destruct (match lhs with Some _ => _ | None => _ end) as [h' hs].
    cbn [fst]. now apply He.
Qed.

Lemma run_ops_ranked ops st :
  ops_loaders ranked_loader ops -> scores_ranked st ->
  scores_ranked (run_ops ops st).
Proof.
  unfold ops_loaders, run_ops. intros Hl. revert st.
  induction Hl as [|op ops Hop _ IH]; intros st Hr; cbn [fold_left]; [exact Hr|].
  now apply IH, run_op_ranked.
Qed.

(** In every state reached from a new game by operations whose high-score
    readers return ranked lists of at most ten entries, in slices with or
    without spare capacity, the list the hall of fame shows is ranked,
    worst score last, and has at most ten entries. *)
Theorem reachable_scores_ranked w hgt a h0 ops :
  ops_loaders ranked_loader ops ->
  let st := run_ops ops (NewGame w hgt a h0) in
  let scores := (GetHighScoreData st.1 st.2).1.2 in
  ascending scores /\ (length scores <= MaxHighScores)%nat.
Proof.
  intros Hl. cbv zeta. destruct (NewGame_inv w hgt a h0) as [_ Hr].
  destruct (run_ops_ranked ops _ Hl Hr) as (Hwf & Hn & Hasc).
  unfold GetHighScoreData. cbn [fst snd].
  rewrite (elems_length _ _ Hwf). auto.
Qed.

Lemma max_score_le tb l :
  l <> [] -> Forall (fun s => Score_ s <= tb) l -> (tb <? max_score l) = false.
Proof.
  intros Hne Hall. apply Z.ltb_ge. apply Z.nlt_ge. intros Hlt.
  apply lt_max_score in Hlt; [|exact Hne].
  apply Exists_exists in Hlt as (x & Hx & Hlt).
  rewrite Forall_forall in Hall. specialize (Hall x Hx). lia.
Qed.

(** On a full ranked list whose array has spare capacity, a final score
    that beats only the worst stored entry is admitted by the check of the
    tick, which overwrites that entry with the nameless candidate, and is
    then rejected by the insert of [HandleEnter]: the writer is not
    called, the player's name is never stored, and the stored list keeps
    the nameless entry in place of the one it lost. *)
Theorem spare_check_then_insert_rejects now clk saveFunc h g l0 w :
  wf_slice h (HighScores g) ->
  len (HighScores g) = MaxHighScores ->
  (len (HighScores g) < cap h (HighScores g))%nat ->
  elems h (HighScores g) = l0 ++ [w] -> ascending (l0 ++ [w]) ->
  CurrentState g = StatePlaying ->
  CurrentState (Game_Update now clk h g).2 = StateEnteringHighScore ->
  Forall (fun s => Score_ s <= TotalBounces (Game_Update now clk h g).2) l0 ->
  TotalBounces (Game_Update now clk h g).2 < Score_ w ->
  let r := Game_Update now clk h g in
  let e := Game_HandleEnter saveFunc r.1 r.2 in
  elems r.1 (HighScores r.2) = l0 ++ [mkScore EmptyString (TotalBounces r.2)]
  /\ e.2 = []
  /\ CurrentState e.1.2 = StateHallOfFame
  /\ elems e.1.1 (HighScores e.1.2)
     = l0 ++ [mkScore EmptyString (TotalBounces r.2)].
Proof.
  intros Hwf Hfull Hcap Hel Hasc Hplay Hent Hle Hlt. cbv zeta.
  destruct (Game_Update_check_spare now clk h g Hwf Hcap ltac:(lia) Hplay Hent)
    as (Hhs & Hel' & Hwf' & _).
  destruct (Game_Update_effect now clk h g) as (_ & _ & _ & Hbuf & _).
  cbv zeta in *. specialize (Hbuf Hplay Hent).
  destruct (Game_Update now clk h g) as [h' g']. cbn [fst snd] in *.
  set (tb := TotalBounces g') in *.
  pose proof (elems_length _ _ Hwf) as Hlen.
  rewrite Hel, length_app, Hfull in Hlen. cbn [length] in Hlen.
  assert (Hview : elems h' (HighScores g') = l0 ++ [mkScore EmptyString tb]).
  { rewrite Hel', Hel, stable_sort_snoc, stable_sort_sorted by exact Hasc.
    rewrite insert_stable_snoc_lt by exact Hlt.
    rewrite insert_stable_all_le by exact Hle.
    rewrite Hfull. apply take_app_length'. rewrite length_app. cbn [length].
    unfold MaxHighScores in *. lia. }
  split; [exact Hview|].
  assert (Hfull' : len (HighScores g') = MaxHighScores) by congruence.
  assert (Hrej : AddScore h' (HighScores g') (mkScore "Anonymous" tb)
                 = (h', HighScores g', false)).
  { apply AddScore_not_added.
    rewrite shouldAdd_spec
      by (exact Hwf' || rewrite Hfull'; unfold maxInsertion, MaxHighScores; lia).
    rewrite Hfull', Hview. cbn [Score_].
    rewrite max_score_le; [reflexivity|now destruct l0|].
    apply Forall_app. split; [exact Hle|]. repeat constructor. cbn. lia. }
  unfold Game_HandleEnter.
  rewrite Hent, bool_decide_eq_true_2, Hbuf by reflexivity.
  cbn [negb string_of_runes String.eqb]. fold tb. rewrite Hrej. game_simpl.
  auto.
Qed.

(** *** What an insert keeps and what it drops *)

Lemma ascending_app_inv a b :
  ascending (a ++ b) ->
  Forall (fun y => Forall (fun x => Score_ x <= Score_ y) a) b.
Proof.
  induction a as [|x a IH]; intros H.
  - apply Forall_forall. intros y _. constructor.
  - cbn [app] in H. apply StronglySorted_inv in H as [Hs Hall].
    apply Forall_app in Hall as [_ Hb]. specialize (IH Hs).
    rewrite Forall_forall in IH, Hb |- *. intros y Hy.
    constructor; [exact (Hb y Hy)|exact (IH y Hy)].
Qed.

Lemma max_score_ge z l :
  (z <? max_score l) = false -> Forall (fun s => Score_ s <= z) l.
Proof.
  intros Hz. apply Z.ltb_ge in Hz. apply Forall_forall. intros x Hx.
  destruct (Z.le_gt_cases (Score_ x) z) as [Hle|Hgt]; [exact Hle|exfalso].
  assert (l <> []) as Hne by (intros ->; inversion Hx).
  assert (z < max_score l); [|lia].
  apply lt_max_score; [exact Hne|]. apply Exists_exists. exists x. split; [exact Hx|lia].
Qed.

(** An insert neither invents nor duplicates an entry: the returned list
    together with what was dropped is the stored list with the candidate,
    up to order.  At most one entry is dropped, the candidate or a stored
    one; it scores no better than any entry kept; and nothing is dropped
    while the list is below the cap. *)
Theorem AddScore_drops_at_most_worst h s c :
  wf_slice h s -> (len s <= MaxHighScores)%nat ->
  let r := AddScore h s c in
  exists dropped,
    Permutation (elems r.1.1 r.1.2 ++ dropped) (elems h s ++ [c])
    /\ (length dropped <= 1)%nat
    /\ Forall (fun d => Forall (fun k => Score_ k <= Score_ d)
                          (elems r.1.1 r.1.2)) dropped
    /\ ((len s < MaxHighScores)%nat -> dropped = []).
Proof.
  intros Hwf Hn. cbv zeta.
  pose proof (elems_length _ _ Hwf) as Hlen.
  pose proof (AddScore_spec h s c Hwf Hn) as Hspec.
  destruct ((len s <? MaxHighScores)%nat || (Score_ c <? max_score (elems h s)))
    eqn:Hcond.
  - destruct Hspec as (h2 & s2 & -> & Hel & _). cbn [fst snd]. rewrite Hel.
    unfold spec_insert.
    exists (drop MaxHighScores (stable_sort (elems h s ++ [c]))).
    assert (Hsl : length (stable_sort (elems h s ++ [c])) = S (len s))
      by (rewrite stable_sort_length, length_app, Hlen; cbn [length]; lia).
    split; [rewrite take_drop; apply stable_sort_perm|].
    split; [rewrite length_drop; lia|]. split.
    + apply ascending_app_inv. rewrite take_drop. apply stable_sort_ascending.
    + intros Hlt. apply drop_ge. lia.
  - rewrite Hspec. cbn [fst snd]. exists [c].
    apply orb_false_iff in Hcond as [Hfull Hmax].
    apply Nat.ltb_ge in Hfull.
    split; [reflexivity|]. split; [cbn; lia|]. split.
    + constructor; [|constructor]. now apply max_score_ge.
    + lia.
Qed.

(** *** The engine *)

(** Backspace repeats as in the ebiten examples: the key counts as pressed
    in the frame it goes down, and then, once it has been held for 30
    frames, every fifth frame. *)
Theorem repeatingKeyPressed_spec d :
  in_int d ->
  repeatingKeyPressed d = true
  <-> d = 1 \/ exists k, 0 <= k /\ d = 30 + 5 * k.
Proof.
  intros Hd. unfold repeatingKeyPressed. cbv zeta.
  destruct (d =? 1) eqn:H1; [apply Z.eqb_eq in H1; tauto|].
  apply Z.eqb_neq in H1.
  destruct (30 <=? d) eqn:H30; cbn [andb].
  - apply Z.leb_le in H30. unfold int_sub.
    rewrite wrap64_small by (unfold in_int, min_int, max_int in *; lia).
    rewrite Z.rem_mod_nonneg by lia.
    destruct (Z.eqb_spec ((d - 30) mod 5) 0) as [H5|H5].
    + split; [intros _|reflexivity]. right. exists ((d - 30) / 5).
      pose proof (Z.div_mod (d - 30) 5 ltac:(lia)).
      split; [apply Z.div_pos; lia|lia].
    + split; [discriminate|]. intros [->|(k & Hk & ->)]; [lia|].
      exfalso. apply H5. replace (30 + 5 * k - 30) with (k * 5) by lia.
      apply Z.mod_mul. lia.
  - apply Z.leb_gt in H30. split; [discriminate|].
    intros [->|(k & Hk & ->)]; lia.
Qed.

Lemma run_ops_app ops1 ops2 st :
  run_ops (ops1 ++ ops2) st = run_ops ops2 (run_ops ops1 st).
Proof. unfold run_ops. apply fold_left_app. Qed.

Lemma run_ops_opt (b : bool) op st :
  run_ops (if b then [op] else []) st = if b then run_op op st else st.
Proof. now destruct b. Qed.

(** A frame is the sequence of its calls. *)
Lemma EbitenGame_Update_ops ps ck inp st :
  EbitenGame_Update ps ck inp st
  = (run_ops (frame_ops ps ck inp (CurrentState st.2) (Level st.2)) st,
     if KeyQ inp then Some (errorString "user requested quit") else None).
Proof.
  destruct st as [h g]. unfold EbitenGame_Update, frame_ops, GetGameState, loadLevel.
  cbn [fst snd].
  destruct (KeyQ inp); [reflexivity|].
  destruct (CurrentState g).
  - destruct (_ || _); reflexivity.
  - rewrite !run_ops_app, !run_ops_opt. destruct (CursorPosition inp) as [x y].
    cbn [fst snd].
    destruct (MouseButtonLeft inp), (KeyS inp), (KeyL inp), (0 <=? Level g);
      cbn [andb run_op fst snd];
      repeat match goal with
             | |- context [RequestLoadSavedGame ?a ?b ?c ?d ?e ?f] =>
                 destruct (RequestLoadSavedGame a b c d e f) as [[? ?] ?]
             end;
      cbn [fst snd];
      destruct (KeyF1 inp); cbn [run_op fst snd];
      repeat match goal with
             | |- context [RequestLoadLevel ?a ?b 0 ?c ?d ?e ?f] =>
                 destruct (RequestLoadLevel a b 0 c d e f) as [[? ?] ?]
             end;
      cbn [fst snd];
      destruct (KeyF2 inp); cbn [run_op fst snd];
      repeat match goal with
             | |- context [RequestLoadLevel ?a ?b 1 ?c ?d ?e ?f] =>
                 destruct (RequestLoadLevel a b 1 c d e f) as [[? ?] ?]
             end;
      cbn [fst snd];
      destruct (KeyF3 inp); cbn [run_op fst snd];
      repeat match goal with
             | |- context [RequestLoadLevel ?a ?b 2 ?c ?d ?e ?f] =>
                 destruct (RequestLoadLevel a b 2 c d e f) as [[? ?] ?]
             end;
      reflexivity.
  - destruct (_ || _); [|reflexivity]. destruct (0 <=? Level g); reflexivity.
  - rewrite !run_ops_app, !run_ops_opt.
    destruct (0 <? length (InputChars inp))%nat,
             (repeatingKeyPressed (KeyBackspaceDuration inp)), (KeyEnter inp);
      reflexivity.
  - destruct (_ || _); reflexivity.
Qed.

Lemma load_level_state now lhs level configPath loadFunc h g :
  let r := (RequestLoadLevel now lhs level configPath loadFunc h g).1 in
  r = (h, g)
  \/ CurrentState r.2 = StatePlaying /\ paths_by_level r.2.
Proof.
  cbv zeta. unfold RequestLoadLevel.
  destruct (loadFunc configPath) as [loaded|err]; [right|left; reflexivity].
  destruct (match lhs with Some _ => _ | None => _ end) as [h' hs].
  cbn. unfold paths_by_level. cbn. auto.
Qed.

Lemma load_saved_state now lhs savePath loadFunc h g :
  let r := (RequestLoadSavedGame now lhs savePath loadFunc h g).1 in
  r = (h, g)
  \/ exists loaded,
       loadFunc savePath = inl loaded
       /\ CurrentState r.2 = StatePlaying /\ Level r.2 = Level loaded
       /\ highScorePath r.2
          = ("assets/highscores/highscores_" ++ itoa (Level r.2) ++ ".gob")%string
       /\ saveGamePath r.2 = savePath.
Proof.
  cbv zeta. unfold RequestLoadSavedGame.
  destruct (loadFunc savePath) as [loaded|err]; [right|left; reflexivity].
  exists loaded. split; [reflexivity|].
  destruct (match lhs with Some _ => _ | None => _ end) as [h' hs].
  cbn. auto.
Qed.

Lemma run_op_paths ps op st :
  saves_named_by_level ps -> engine_load ps op st ->
  paths_inv st -> paths_inv (run_op op st).
Proof.
  intros Hnamed Hop Hinv. destruct st as [h g].
  destruct (is_load op) eqn:Hl.
  - destruct op as [now clk|x y|chars| |saveFunc|saveFunc
                    |now lhs level configPath loadFunc|now lhs savePath loadFunc];
      try discriminate; cbn [run_op engine_load fst snd] in *.
    + destruct (load_level_state now lhs level configPath loadFunc h g)
        as [->|[_ Hp]]; [exact Hinv|]. intros _. exact Hp.
    + destruct Hop as [-> ->].
      destruct (load_saved_state now lhs
                  ("assets/saves/savegame_" ++ itoa (Level g) ++ ".txt")%string
                  (loadGame ps) h g)
        as [->|(loaded & Hf & _ & HL & Hhs & Hsv)]; [exact Hinv|].
      intros _. split; [exact Hhs|].
      cbv zeta in *. rewrite Hsv, HL, (Hnamed _ _ Hf). reflexivity.
  - destruct (run_op_fields op (h, g)) as (_ & _ & Hnl & _).
    destruct (Hnl Hl) as (Hstep & HL & Hhs & Hsv & _).
    cbv zeta in *. cbn [fst snd] in *. intros Hns.
    unfold paths_inv, paths_by_level in *. cbn [fst snd] in *.
    rewrite HL, Hhs, Hsv. apply Hinv. intros E. apply Hns.
    unfold state_step_no_load in Hstep. rewrite E in Hstep.
    destruct Hstep as [Hs|[[Hs _]|[Hs _]]]; [exact Hs|discriminate|discriminate].
Qed.

Lemma run_op_opt_paths ps (b : bool) op st :
  saves_named_by_level ps -> (b = true -> engine_load ps op st) ->
  paths_inv st -> paths_inv (if b then run_op op st else st).
Proof.
  intros Hnamed Hop Hinv. destruct b; [|exact Hinv].
  apply (run_op_paths ps); auto.
Qed.

Lemma run_op_opt_level (b : bool) op st :
  is_load op = false ->
  Level (if b then run_op op st else st).2 = Level st.2.
Proof.
  intros Hl. destruct b; [|reflexivity].
  destruct (run_op_fields op st) as (_ & _ & Hnl & _). now apply Hnl.
Qed.

Lemma frame_paths ps ck inp st :
  saves_named_by_level ps -> paths_inv st ->
  paths_inv (EbitenGame_Update ps ck inp st).1.
Proof.
  intros Hnamed Hinv. rewrite EbitenGame_Update_ops. cbn [fst].
  unfold frame_ops. destruct (KeyQ inp); [exact Hinv|].
  destruct (CurrentState st.2).
  - rewrite run_ops_opt.
    apply run_op_opt_paths with (ps := ps); auto. intros _. exact I.
  - rewrite !run_ops_app, !run_ops_opt.
    set (st1 := if MouseButtonLeft inp then run_op _ st else st).
    assert (L1 : Level st1.2 = Level st.2) by now apply run_op_opt_level.
    assert (P1 : paths_inv st1)
      by (apply run_op_opt_paths with (ps := ps); auto; intros _; exact I).
    set (st2 := if KeyS inp then run_op _ st1 else st1).
    assert (L2 : Level st2.2 = Level st.2)
      by (subst st2; rewrite run_op_opt_level; auto).
    assert (P2 : paths_inv st2)
      by (apply run_op_opt_paths with (ps := ps); auto; intros _; exact I).
    clearbody st1 st2.
    apply (run_op_paths ps); [exact Hnamed|exact I|].
    repeat (apply run_op_opt_paths with (ps := ps);
            [exact Hnamed|intros _; exact I|]).
    apply run_op_opt_paths with (ps := ps); [exact Hnamed| |exact P2].
    intros _. cbn [engine_load]. rewrite L2. auto.
  - rewrite run_ops_opt.
    apply run_op_opt_paths with (ps := ps); auto. intros _. exact I.
  - rewrite !run_ops_app, !run_ops_opt.
    repeat (apply run_op_opt_paths with (ps := ps);
            [exact Hnamed|intros _; exact I|]).
    exact Hinv.
  - rewrite run_ops_opt.
    apply run_op_opt_paths with (ps := ps); auto. intros _. exact I.
Qed.

(** When save files carry the level their name says, the engine keeps the
    file names in step with the level in play: in every state past the
    start screen that a run of the game loop reaches, the high scores are
    written to the file of that level, and the S key saves to the file
    the L key loads. *)
Theorem engine_files_follow_level ps frames audioMgr h0 :
  saves_named_by_level ps ->
  let st := (run_frames ps frames (NewEbitenGame audioMgr h0)).1 in
  CurrentState st.2 <> StateStarting ->
  highScorePath st.2
  = ("assets/highscores/highscores_" ++ itoa (Level st.2) ++ ".gob")%string
  /\ saveGamePath st.2
     = ("assets/saves/savegame_" ++ itoa (Level st.2) ++ ".txt")%string.
Proof.
  intros Hnamed. cbv zeta.
  assert (H0 : paths_inv (NewEbitenGame audioMgr h0)).
  { unfold NewEbitenGame, NewGame, paths_inv. destruct (alloc h0 [] 0).
    cbn. congruence. }
  revert H0. generalize (NewEbitenGame audioMgr h0).
  induction frames as [|[ck inp] frames IH]; intros st Hst; cbn [run_frames].
  - exact Hst.
  - pose proof (frame_paths ps ck inp st Hnamed Hst) as Hf.
    destruct (EbitenGame_Update ps ck inp st) as [st' [err|]]; cbn [fst] in *.
    + exact Hf.
    + now apply IH.
Qed.

Lemma run_op_state op st :
  let s := CurrentState st.2 in
  let s' := CurrentState (run_op op st).2 in
  match op with
  | OpUpdate _ _ =>
      s' = s
      \/ (s = StatePlaying /\ (s' = StateGameOver \/ s' = StateEnteringHighScore))
  | OpEnter _ =>
      s' = if bool_decide (s = StateEnteringHighScore) then StateHallOfFame else s
  | OpLoadLevel _ _ _ _ _ | OpLoadSaved _ _ _ _ => s' = s \/ s' = StatePlaying
  | _ => s' = s
  end.
Proof.
  destruct st as [h g]. cbv zeta.
  destruct op as [now clk|x y|chars| |saveFunc|saveFunc
                  |now lhs level configPath loadFunc|now lhs savePath loadFunc];
    cbn [run_op fst snd].
  - destruct (Game_Update_effect now clk h g) as (_ & Hstep & Hidle & _).
    cbv zeta in *. unfold state_step_no_load in Hstep.
    destruct Hstep as [Hs|[Hs|[Hs _]]]; [auto|auto|].
    left. apply Hidle. rewrite Hs. discriminate.
  - unfold Game_HandleClick. destruct (negb _); reflexivity.
  - unfold Game_HandleTextInput.
    destruct (negb _); [|destruct (_ <? _)%nat]; reflexivity.
  - unfold Game_HandleBackspace. destruct (_ && _); reflexivity.
  - destruct (Game_HandleEnter_effect saveFunc h g) as (_ & Hout & Hin & _).
    cbv zeta in *.
    destruct (bool_decide (CurrentState g = StateEnteringHighScore)) eqn:E.
    + apply bool_decide_eq_true in E. now apply Hin.
    + apply bool_decide_eq_false in E. now rewrite (Hout E).
  - reflexivity.
  - destruct (load_level_state now lhs level configPath loadFunc h g)
      as [->|[Hs _]]; auto.
  - destruct (load_saved_state now lhs savePath loadFunc h g)
      as [->|(loaded & _ & Hs & _)]; auto.
Qed.

Lemma load_opt_playing (b : bool) now lhs level configPath loadFunc st :
  CurrentState st.2 = StatePlaying ->
  CurrentState
    (if b then run_op (OpLoadLevel now lhs level configPath loadFunc) st else st).2
  = StatePlaying.
Proof.
  intros Hs. destruct b; [|exact Hs].
  pose proof (run_op_state (OpLoadLevel now lhs level configPath loadFunc) st) as H.
  cbv zeta in H. destruct H as [->| ->]; auto.
Qed.

(** One operation moves the state machine along one of its edges: a load
    that succeeds enters Playing from any state, and one that fails
    changes nothing; a tick may take Playing to GameOver or
    EnteringHighScore; Enter takes EnteringHighScore to HallOfFame; and
    no other operation changes the state.  The screen size and the audio
    manager never change; the level and the three file paths change only
    in a load. *)
Theorem run_op_state_graph op st :
  let s := CurrentState st.2 in
  let st' := run_op op st in
  let s' := CurrentState st'.2 in
  match op with
  | OpLoadLevel _ _ _ path loadFunc | OpLoadSaved _ _ path loadFunc =>
      match loadFunc path with
      | inl _ => s' = StatePlaying
      | inr _ => st' = st
      end
  | OpUpdate _ _ =>
      s' = s
      \/ (s = StatePlaying /\ (s' = StateGameOver \/ s' = StateEnteringHighScore))
  | OpEnter _ =>
      s' = if bool_decide (s = StateEnteringHighScore) then StateHallOfFame else s
  | OpClick _ _ | OpText _ | OpBackspace | OpSave _ => s' = s
  end
  /\ ScreenWidth st'.2 = ScreenWidth st.2
  /\ ScreenHeight st'.2 = ScreenHeight st.2
  /\ audioManager st'.2 = audioManager st.2
  /\ (is_load op = false ->
      Level st'.2 = Level st.2
      /\ highScorePath st'.2 = highScorePath st.2
      /\ saveGamePath st'.2 = saveGamePath st.2
      /\ levelConfigPath st'.2 = levelConfigPath st.2).
Proof.
  destruct (run_op_fields op st) as (_ & (H2 & H3 & H4) & H5 & _).
  pose proof (run_op_state op st) as Hs.
  cbv zeta in *. split; [|split; [exact H2|split; [exact H3|split; [exact H4|]]]].
  - destruct st as [h g].
    destruct op as [now clk|x y|chars| |saveFunc|saveFunc
                    |now lhs level configPath loadFunc|now lhs savePath loadFunc];
      try exact Hs; cbn [run_op fst snd].
    + unfold RequestLoadLevel.
      destruct (loadFunc configPath) as [loaded|err]; [|reflexivity].
      destruct (match lhs with Some _ => _ | None => _ end) as [h' hs].
      reflexivity.
    + unfold RequestLoadSavedGame.
      destruct (loadFunc savePath) as [loaded|err]; [|reflexivity].
      destruct (match lhs with Some _ => _ | None => _ end) as [h' hs].
      reflexivity.
  - intros Hl. apply H5 in Hl. tauto.
Qed.

(** One frame of the engine moves the state machine along one edge:
    the start screen, the game-over screen and the hall of fame are left
    only for Playing, and only when Enter or the mouse button is pressed;
    Playing is left only for GameOver or EnteringHighScore; and
    EnteringHighScore is left exactly when Enter is pressed, for
    HallOfFame.  The Q key ends the loop with the game untouched. *)
Theorem EbitenGame_Update_state_graph ps ck inp st :
  let r := EbitenGame_Update ps ck inp st in
  (KeyQ inp = true -> r = (st, Some (errorString "user requested quit")))
  /\ (KeyQ inp = false ->
      r.2 = None
      /\ frame_step (CurrentState st.2) (CurrentState r.1.2)
      /\ (CurrentState st.2 = StateEnteringHighScore ->
          CurrentState r.1.2
          = if KeyEnter inp then StateHallOfFame else StateEnteringHighScore)
      /\ (CurrentState st.2 <> StatePlaying ->
          CurrentState st.2 <> StateEnteringHighScore ->
          KeyEnter inp = false -> MouseButtonLeft inp = false -> r.1 = st)).
Proof.
  cbv zeta. rewrite EbitenGame_Update_ops. cbn [fst snd]. unfold frame_ops.
  split; [intros ->; reflexivity|]. intros ->. split; [reflexivity|].
  assert (Hload : forall (b : bool) now level,
             let st' :=
               run_ops
                 (if b
                  then [OpLoadLevel now (Some (loadHighScores ps)) level
                          ("assets/levels/level_" ++ itoa level ++ ".txt")%string
                          (loadLevelConfig ps)]
                  else []) st in
             (CurrentState st'.2 = CurrentState st.2
              \/ CurrentState st'.2 = StatePlaying)
             /\ (b = false -> st' = st)).
  { intros b now level. cbv zeta. rewrite run_ops_opt.
    destruct b; [|auto].
    pose proof (run_op_state
                  (OpLoadLevel now (Some (loadHighScores ps)) level
                     ("assets/levels/level_" ++ itoa level ++ ".txt")%string
                     (loadLevelConfig ps)) st) as H.
    cbv zeta in H. split; [exact H|discriminate]. }
  destruct (CurrentState st.2) eqn:Hs; cbn [frame_step].
  - destruct (Hload (KeyEnter inp || MouseButtonLeft inp) (nowLoad ck) 0)
      as [H1 H2].
    split; [exact H1|]. split; [discriminate|].
    intros _ _ He Hm. apply H2. now rewrite He, Hm.
  - split; [|split; [discriminate|congruence]].
    rewrite !run_ops_app, !run_ops_opt.
    set (st1 := if MouseButtonLeft inp then run_op _ st else st).
    assert (S1 : CurrentState st1.2 = StatePlaying).
    { subst st1. destruct (MouseButtonLeft inp); [|exact Hs].
      pose proof (run_op_state
                    (OpClick (float64_of_int (CursorPosition inp).1)
                       (float64_of_int (CursorPosition inp).2)) st) as H.
      cbv zeta in H. congruence. }
    set (st2 := if KeyS inp then run_op _ st1 else st1).
    assert (S2 : CurrentState st2.2 = StatePlaying).
    { subst st2. destruct (KeyS inp); [|exact S1].
      destruct st1. exact S1. }
    set (st3 := if KeyL inp && (0 <=? Level st.2) then run_op _ st2 else st2).
    assert (S3 : CurrentState st3.2 = StatePlaying).
    { subst st3. destruct (_ && _); [|exact S2].
      match goal with
      | |- CurrentState (run_op ?op _).2 = _ =>
          pose proof (run_op_state op st2) as H
      end.
      cbv zeta in H. destruct H as [->| ->]; auto. }
    clearbody st1 st2 st3.
    match goal with
    | |- context [run_ops [?u] ?x] =>
        assert (S6 : CurrentState x.2 = StatePlaying)
          by (repeat apply load_opt_playing; exact S3);
        pose proof (run_op_state u x) as H
    end.
    cbv zeta in H. rewrite S6 in H. cbn [run_ops fold_left].
    destruct H as [H|[_ H]]; tauto.
  - destruct (Hload (KeyEnter inp || MouseButtonLeft inp) (nowLoad ck)
                (if 0 <=? Level st.2 then Level st.2 else 0)) as [H1 H2].
    split; [exact H1|]. split; [discriminate|].
    intros _ _ He Hm. apply H2. now rewrite He, Hm.
  - rewrite !run_ops_app, !run_ops_opt.
    set (st1 := if (0 <? length (InputChars inp))%nat then run_op _ st else st).
    assert (S1 : CurrentState st1.2 = StateEnteringHighScore).
    { subst st1. destruct (0 <? _)%nat; [|exact Hs].
      pose proof (run_op_state (OpText (InputChars inp)) st) as H.
      cbv zeta in H. congruence. }
    set (st2 := if repeatingKeyPressed _ then run_op _ st1 else st1).
    assert (S2 : CurrentState st2.2 = StateEnteringHighScore).
    { subst st2. destruct (repeatingKeyPressed _); [|exact S1].
      pose proof (run_op_state OpBackspace st1) as H.
      cbv zeta in H. congruence. }
    clearbody st1 st2.
    assert (S3 : CurrentState
                   (if KeyEnter inp
                    then run_op (OpEnter (saveHighScores ps)) st2 else st2).2
                 = if KeyEnter inp then StateHallOfFame
                   else StateEnteringHighScore).
    { destruct (KeyEnter inp); [|exact S2].
      pose proof (run_op_state (OpEnter (saveHighScores ps)) st2) as H.
      cbv zeta in H. rewrite S2 in H. exact H. }
    split; [rewrite S3; destruct (KeyEnter inp); auto|].
    split; [intros _; exact S3|congruence].
  - destruct (Hload (KeyEnter inp || MouseButtonLeft inp) (nowLoad ck) 0)
      as [H1 H2].
    split; [exact H1|]. split; [discriminate|].
    intros _ _ He Hm. apply H2. now rewrite He, Hm.
Qed.

(** *** A game without a level, and collisions *)

Lemma click_first_motion ps x y : motion (click_first ps x y) = motion ps.
Proof.
  unfold motion. induction ps as [|p ps IH]; [reflexivity|].
  cbn [click_first]. destruct (IsClicked p x y).
  - unfold Pacman_Stop. destruct (negb (IsStopped p)); reflexivity.
  - cbn [fmap list_fmap]. f_equal. exact IH.
Qed.

Lemma run_op_negative op h g :
  Level g < 0 -> CurrentState g = StatePlaying -> is_load op = false ->
  let st' := run_op op (h, g) in
  st'.1 = h /\ CurrentState st'.2 = StatePlaying /\ Level st'.2 = Level g
  /\ TotalBounces st'.2 = TotalBounces g
  /\ motion (Pacmans st'.2) = motion (Pacmans g).
Proof.
  intros Hneg Hplay Hl.
  assert (Hne : CurrentState g <> StateEnteringHighScore) by (rewrite Hplay; discriminate).
  destruct op as [now clk|x y|chars| |saveFunc|saveFunc
                  |now lhs level configPath loadFunc|now lhs savePath loadFunc];
    try discriminate; cbn [run_op]; cbv zeta.
  - unfold Game_Update. game_simpl.
    rewrite Hplay, bool_decide_eq_true_2 by reflexivity. cbn [negb].
    replace (Level g <? 0) with true by (symmetry; apply Z.ltb_lt; exact Hneg).
    game_simpl. auto.
  - unfold Game_HandleClick.
    rewrite bool_decide_eq_true_2 by exact Hplay. cbn [negb]. game_simpl.
    rewrite click_first_motion. auto.
  - unfold Game_HandleTextInput.
    rewrite bool_decide_eq_false_2 by exact Hne. cbn [negb fst snd]. auto.
  - unfold Game_HandleBackspace. destruct (_ && _); game_simpl; auto.
  - destruct (Game_HandleEnter_effect saveFunc h g) as (_ & Hout & _).
    cbv zeta in *. rewrite (Hout Hne). cbn [fst snd]. auto.
  - cbn [fst snd]. auto.
Qed.

(** A game put into Playing with a negative level, as a save file with
    such a level line does, never ends: whatever is called short of a
    load, the state stays Playing, no entity moves or bounces, the bounce
    total stays, the store is not touched, and every request to save is
    refused. *)
Theorem negative_level_never_ends ops h g :
  Level g < 0 -> CurrentState g = StatePlaying ->
  Forall (fun op => is_load op = false) ops ->
  let st' := run_ops ops (h, g) in
  st'.1 = h /\ CurrentState st'.2 = StatePlaying /\ Level st'.2 = Level g
  /\ TotalBounces st'.2 = TotalBounces g
  /\ motion (Pacmans st'.2) = motion (Pacmans g)
  /\ forall saveFunc,
       RequestSaveGame saveFunc st'.2
       = Some (errorString "cannot save game: not playing").
Proof.
  intros Hneg Hplay Hops. cbv zeta.
  assert (H : let st' := run_ops ops (h, g) in
              st'.1 = h /\ CurrentState st'.2 = StatePlaying
              /\ Level st'.2 = Level g /\ TotalBounces st'.2 = TotalBounces g
              /\ motion (Pacmans st'.2) = motion (Pacmans g)).
  { cbv zeta. unfold run_ops. revert g Hneg Hplay.
    induction Hops as [|op ops Hop _ IH]; intros g Hneg Hplay; cbn [fold_left];
      [cbn; auto|].
    destruct (run_op_negative op h g Hneg Hplay Hop) as (E1 & E2 & E3 & E4 & E5).
    cbv zeta in *. destruct (run_op op (h, g)) as [h1 g1]. cbn [fst snd] in *.
    subst h1. rewrite <- E3, <- E4, <- E5. apply IH; [lia|exact E2]. }
  cbv zeta in H. destruct H as (H1 & H2 & H3 & H4 & H5).
  repeat (split; [assumption|]).
  intros saveFunc. unfold RequestSaveGame.
  replace (Level (run_ops ops (h, g)).2 <? 0) with true
    by (symmetry; apply Z.ltb_lt; lia).
  now rewrite orb_true_r.
Qed.

Lemma fold_left_invariant_in {A B} (I : A -> Prop) (f : A -> B -> A) l a :
  (forall a b, b ∈ l -> I a -> I (f a b)) -> I a -> I (fold_left f l a).
Proof.
  revert a. induction l as [|b l IH]; intros a Hf Ha; cbn; [exact Ha|].
  apply IH.
  - intros a' b' Hb'. apply Hf. now apply list_elem_of_further.
  - apply Hf; [apply list_elem_of_here|exact Ha].
Qed.

Lemma collide_outer_idle ps bf i :
  at_most_one_running ps -> collide_outer (length ps) (ps, bf) i = (ps, bf).
Proof.
  intros Hone. unfold collide_outer. cbn [fst].
  destruct (ps !! i) as [p1|] eqn:H1; [|reflexivity]. cbn.
  destruct (IsStopped p1) eqn:Hs1; [reflexivity|].
  apply (fold_left_invariant_in (fun acc => acc = (ps, bf))); [|reflexivity].
  intros acc j Hj ->. apply elem_of_seq in Hj. unfold collide_inner.
  destruct (ps !! j) as [p2|] eqn:H2; [|reflexivity]. cbn.
  destruct (IsStopped p2) eqn:Hs2; [reflexivity|].
  destruct (Hone i j p1 p2 ltac:(lia) H1 H2); congruence.
Qed.

Lemma collisions_idle ps bf :
  at_most_one_running ps -> collisions ps bf = (ps, bf).
Proof.
  intros Hone. unfold collisions.
  apply (fold_left_invariant (fun acc => acc = (ps, bf))); [|reflexivity].
  intros acc i ->. now apply collide_outer_idle.
Qed.

Lemma at_most_one_running_fmap ps ps' :
  IsStopped <$> ps' = IsStopped <$> ps ->
  at_most_one_running ps -> at_most_one_running ps'.
Proof.
  intros E Hone i j p q Hij Hp Hq.
  assert (Hi : (IsStopped <$> ps) !! i = Some (IsStopped p))
    by (rewrite <- E, list_lookup_fmap, Hp; reflexivity).
  assert (Hj : (IsStopped <$> ps) !! j = Some (IsStopped q))
    by (rewrite <- E, list_lookup_fmap, Hq; reflexivity).
  rewrite list_lookup_fmap in Hi, Hj.
  destruct (ps !! i) as [p0|] eqn:Hp0; [|discriminate].
  destruct (ps !! j) as [q0|] eqn:Hq0; [|discriminate].
  injection Hi as Hi. injection Hj as Hj.
  destruct (Hone i j p0 q0 Hij Hp0 Hq0); [left|right]; congruence.
Qed.

Lemma update_pacmans_imap clk i dt w hgt ps bf all :
  (update_pacmans clk i dt w hgt ps bf all).1.1
  = imap (fun k p => (Pacman_Update (clk (i + k)%nat).1 (clk (i + k)%nat).2
                        dt w hgt p).1) ps.
Proof.
  revert i bf all. induction ps as [|p ps IH]; intros i bf all; [reflexivity|].
  cbn [update_pacmans imap].
  destruct (Pacman_Update (clk i).1 (clk i).2 dt w hgt p) as [p' n] eqn:Hp.
  cbn [GetData].
  specialize (IH (S i) (int_add bf n) (if negb (IsStopped p') then false else all)).
  destruct (update_pacmans clk (S i) dt w hgt ps _ _) as [[ps' b] a].
  cbn [fst snd] in *. rewrite Nat.add_0_r, Hp. cbn [fst]. f_equal.
  rewrite IH. apply imap_ext. intros k q _. cbn.
  now replace (i + S k)%nat with (S i + k)%nat by lia.
Qed.

(** A collision takes two running entities.  In a tick of a running game
    in which no two entities are both running, nothing bounces off an
    entity: each entity is left as its own [Update] leaves it. *)
Theorem Game_Update_no_collision now clk h g :
  CurrentState g = StatePlaying -> 0 <= Level g ->
  at_most_one_running (Pacmans g) ->
  let g' := (Game_Update now clk h g).2 in
  Pacmans g'
  = imap (fun k p => (Pacman_Update (clk k).1 (clk k).2 (deltaTime g')
                        (ScreenWidth g) (ScreenHeight g) p).1) (Pacmans g).
Proof.
  intros Hplay Hlevel Hone. cbv zeta.
  assert (Hdt : deltaTime (Game_Update now clk h g).2
                = Seconds (time_Sub now (lastUpdateTime g))).
  { unfold Game_Update. game_simpl.
    destruct (negb _); [reflexivity|]. destruct (Level g <? 0); [reflexivity|].
    destruct (update_pacmans _ _ _ _ _ _ _ _) as [[ps b] a].
    destruct (collisions ps b) as [ps2 b2]. game_simpl.
    destruct a; [|reflexivity].
    destruct (AddScore h (HighScores g) _) as [[h' sl] added]. game_simpl.
    destruct added; reflexivity. }
  rewrite Hdt. unfold Game_Update. game_simpl.
  rewrite Hplay, bool_decide_eq_true_2 by reflexivity. cbn [negb].
  replace (Level g <? 0) with false by (symmetry; apply Z.ltb_ge; exact Hlevel).
  pose proof (update_pacmans_imap clk 0
                (Seconds (time_Sub now (lastUpdateTime g)))
                (ScreenWidth g) (ScreenHeight g) (Pacmans g) 0 true) as Himap.
  pose proof (update_pacmans_stopped clk 0
                (Seconds (time_Sub now (lastUpdateTime g)))
                (ScreenWidth g) (ScreenHeight g) (Pacmans g) 0 true) as [Hst _].
  destruct (update_pacmans clk 0 _ _ _ (Pacmans g) 0 true) as [[ps b] a].
  cbn [fst snd] in Himap, Hst.
  rewrite (collisions_idle ps b)
    by (eapply at_most_one_running_fmap; [exact Hst|exact Hone]).
  game_simpl. subst ps.
  destruct a; game_simpl; [|reflexivity].
  destruct (AddScore h (HighScores g) _) as [[h' sl] added]. game_simpl.
  destruct added; reflexivity.
Qed.

(** *** The readers *)

Lemma direction_of_ok go s d :
  direction_of go s = Some d -> d = DirHorizontal \/ d = DirVertical.
Proof.
  unfold direction_of. destruct (0 <? _)%nat; [|intros [= <-]; auto].
  destruct (ToUpper go s) as [|c r]; [discriminate|]. cbv zeta.
  destruct (Z.eqb_spec (Z.of_N (N_of_ascii c)) DirHorizontal) as [E|_];
    [intros [= <-]; auto|].
  destruct (Z.eqb_spec (Z.of_N (N_of_ascii c)) DirVertical) as [E|_];
    intros [= <-]; auto.
Qed.

Lemma wrap64_succ n : int_add (wrap64 (Z.of_nat n)) 1 = wrap64 (Z.of_nat (S n)).
Proof.
  unfold int_add. rewrite Nat2Z.inj_succ.
  pose proof (wrap64_eq_int (Z.of_nat n)) as H.
  pose proof (wrap64_eq_int (wrap64 (Z.of_nat n) + 1)) as H1.
  pose proof (wrap64_eq_int (Z.succ (Z.of_nat n))) as H2.
  assert (E : eq_int (wrap64 (wrap64 (Z.of_nat n) + 1)) (wrap64 (Z.succ (Z.of_nat n)))).
  { eapply eq_int_trans; [exact H1|]. symmetry.
    eapply eq_int_trans; [exact H2|]. symmetry.
    unfold Z.succ. apply eq_int_add; [exact H|apply eq_int_refl]. }
  unfold eq_int, wrap64 in *.
  assert (B : forall z, 0 <= (z + 2 ^ 63) mod 2 ^ 64 < 2 ^ 64)
    by (intros z; apply Z.mod_pos_bound; lia).
  pose proof (B (Z.succ (Z.of_nat n))).
  pose proof (B ((Z.of_nat n + 2 ^ 63) mod 2 ^ 64 - 2 ^ 63 + 1)).
  set (a := ((Z.of_nat n + 2 ^ 63) mod 2 ^ 64 - 2 ^ 63 + 1 + 2 ^ 63) mod 2 ^ 64) in *.
  set (b := (Z.succ (Z.of_nat n) + 2 ^ 63) mod 2 ^ 64) in *.
  assert (Hab : (a - 2 ^ 63) mod 2 ^ 64 = (b - 2 ^ 63) mod 2 ^ 64) by exact E.
  assert (a = b); [|lia].
  assert (Ha : a = ((a - 2 ^ 63) mod 2 ^ 64 + 2 ^ 63) mod 2 ^ 64).
  { rewrite Zplus_mod_idemp_l. replace (a - 2 ^ 63 + 2 ^ 63) with a by lia.
    symmetry. apply Z.mod_small. lia. }
  assert (Hb : b = ((b - 2 ^ 63) mod 2 ^ 64 + 2 ^ 63) mod 2 ^ 64).
  { rewrite Zplus_mod_idemp_l. replace (b - 2 ^ 63 + 2 ^ 63) with b by lia.
    symmetry. apply Z.mod_small. lia. }
  rewrite Ha, Hb, Hab. reflexivity.
Qed.

Lemma load_inv_append now st radius posX posY direction subDirection
    waitTimeMs bounces isStopped :
  load_inv st ->
  subDirection = 1 \/ subDirection = -1 ->
  direction = DirHorizontal \/ direction = DirVertical ->
  PrimFloat.leb radius 0 = false ->
  let pacman := NewPacman now (ls_idCounter st) radius posX posY direction
                  subDirection waitTimeMs bounces isStopped in
  Forall entity_new (ls_pacmans st ++ [pacman])
  /\ int_add (ls_idCounter st) 1
     = wrap64 (Z.of_nat (length (ls_pacmans st ++ [pacman])))
  /\ forall i p, (ls_pacmans st ++ [pacman]) !! i = Some p ->
       ID p = wrap64 (Z.of_nat i).
Proof.
  intros (Hok & Hid & Hids) Hsd Hdir Hrad. cbv zeta.
  split; [|split].
  - apply Forall_app. split; [exact Hok|]. constructor; [|constructor].
    unfold entity_new, entity_ok, sign_ok, frame_ok, NewPacman. cbn.
    split; [auto|reflexivity].
  - rewrite Hid, length_app. cbn [length]. rewrite Nat.add_1_r.
    apply wrap64_succ.
  - intros i p Hp. apply lookup_app_Some in Hp as [Hp|[Hi Hp]]; [now apply Hids|].
    apply list_lookup_singleton_Some in Hp as [Hz <-]. cbn [ID NewPacman].
    rewrite Hid. f_equal. lia.
Qed.

Ltac line_cases :=
  repeat match goal with
         | |- context [if ?b then _ else _] => destruct b eqn:?
         | |- context [match ?x with inl _ => _ | inr _ => _ end] =>
             destruct x as [?|?] eqn:?
         | |- context [match ?x with Some _ => _ | None => _ end] =>
             destruct x as [?|] eqn:?
         end.

Lemma LoadGame_line_inv go now filepath st text st' :
  load_inv st -> LoadGame_line go now filepath st text = Continue st' ->
  load_inv st'.
Proof.
  intros Hinv. unfold LoadGame_line. cbv zeta.
  cbn [ls_level ls_totalBounces ls_pacmans ls_idCounter].
  line_cases; intros [= <-]; try exact Hinv.
  all: unfold load_inv; cbn [ls_pacmans ls_idCounter].
  all: apply load_inv_append;
         [exact Hinv| |eapply direction_of_ok; eassumption|assumption].
  - auto.
  - match goal with
    | H : negb (?z =? 1) && negb (?z =? -1) = false |- _ =>
        apply andb_false_iff in H as [H|H];
        apply negb_false_iff, Z.eqb_eq in H; auto
    end.
Qed.

Lemma LoadLevelConfig_line_inv go now filepath st text st' :
  load_inv st /\ level_inv st ->
  LoadLevelConfig_line go now filepath st text = Continue st' ->
  load_inv st' /\ level_inv st'.
Proof.
  intros [Hinv Hlvl]. unfold LoadLevelConfig_line. cbv zeta.
  cbn [ls_level ls_totalBounces ls_pacmans ls_idCounter].
  line_cases; intros [= <-]; try (split; [exact Hinv|exact Hlvl]).
  all: unfold load_inv, level_inv in *;
       cbn [ls_pacmans ls_idCounter ls_level] in *.
  all: try (split; [exact Hinv|]; split; [apply Hlvl|]).
  all: try (right; lia).
  all: try (apply orb_false_iff in Heqb1 as [H1 H2];
            apply Z.ltb_ge in H1, H2; right; lia).
  all: split; [apply load_inv_append;
                 [exact Hinv|auto|eapply direction_of_ok; eassumption
                 |assumption]|].
  all: split; [|apply Hlvl].
  all: apply Forall_app; split; [apply Hlvl|repeat constructor].
Qed.

Lemma scan_lines_inv (I : LoadState -> Prop) body now i lines st st' :
  (forall t st text st', I st -> body t st text = Continue st' -> I st') ->
  I st -> scan_lines body now i lines st = Continue st' -> I st'.
Proof.
  intros Hbody. revert i st.
  induction lines as [|text rest IH]; intros i st Hst; cbn [scan_lines].
  - now intros [= <-].
  - destruct (body (now i) st text) as [st1| |] eqn:Hb; try discriminate.
    apply IH. eapply Hbody; eassumption.
Qed.

Lemma scan_lines_totalBounces go now filepath i lines st st' :
  scan_lines (fun t => LoadLevelConfig_line go t filepath) now i lines st
  = Continue st' ->
  ls_totalBounces st' = ls_totalBounces st.
Proof.
  revert i st. induction lines as [|text rest IH]; intros i st; cbn [scan_lines].
  - now intros [= <-].
  - destruct (LoadLevelConfig_line go (now i) filepath st text) as [st1| |] eqn:Hb;
      try discriminate.
    intros H. rewrite (IH _ _ H). revert Hb. unfold LoadLevelConfig_line. cbv zeta.
    line_cases; intros [= <-]; reflexivity.
Qed.

(** Whatever the file holds, and whatever Go's string functions return,
    a game that [LoadGame] returns has entities with a direction sign of
    1 or -1, an axis of 'H' or 'V', a radius that is not at most zero and
    animation frame 0, numbered from 0 in file order; its level and its
    bounce total are not -1.  The level may be any other number, negative
    ones included. *)
Theorem LoadGame_entities_ok go now file filepath g :
  LoadGame go now file filepath = Returns (inl g) ->
  Forall (fun p => entity_ok p /\ animFrame p = 0) (Pacmans g)
  /\ Level g <> -1 /\ TotalBounces g <> -1
  /\ forall i p, Pacmans g !! i = Some p -> ID p = wrap64 (Z.of_nat i).
Proof.
  unfold LoadGame. destruct file as [err [|]|lines scanErr]; try discriminate.
  destruct (scan_lines _ now 0 lines _) as [st| |] eqn:Hscan; try discriminate.
  destruct scanErr; [discriminate|].
  destruct ((ls_level st =? -1) || (ls_totalBounces st =? -1)) eqn:Hsent;
    [discriminate|].
  intros [= <-]. cbn [partial_game Pacmans Level TotalBounces].
  apply orb_false_iff in Hsent as [H1 H2]. apply Z.eqb_neq in H1, H2.
  assert (Hinv : load_inv st).
  { eapply (scan_lines_inv load_inv); [|..|exact Hscan].
    - intros t st0 text st1. apply LoadGame_line_inv.
    - unfold load_inv. cbn. split; [constructor|]. split; [reflexivity|].
      intros i p Hp. destruct i; discriminate. }
  destruct Hinv as (Hok & _ & Hids). auto.
Qed.

(** Whatever the file holds, a level that [LoadLevelConfig] returns has a
    number from 0 to 2 and a bounce total of 0, and its entities head the
    positive way, along 'H' or 'V', with a radius that is not at most
    zero, on animation frame 0, numbered from 0 in file order. *)
Theorem LoadLevelConfig_entities_ok go now file filepath g :
  LoadLevelConfig go now file filepath = Returns (inl g) ->
  Forall (fun p => entity_ok p /\ animFrame p = 0 /\ SubDirection p = 1)
    (Pacmans g)
  /\ 0 <= Level g <= 2 /\ TotalBounces g = 0
  /\ forall i p, Pacmans g !! i = Some p -> ID p = wrap64 (Z.of_nat i).
Proof.
  unfold LoadLevelConfig. destruct file as [err b|lines scanErr]; try discriminate.
  destruct (scan_lines _ now 0 lines _) as [st| |] eqn:Hscan; try discriminate.
  destruct scanErr; [discriminate|].
  destruct (ls_level st =? -1) eqn:Hsent; [discriminate|].
  intros [= <-]. cbn [partial_game Pacmans Level TotalBounces].
  apply Z.eqb_neq in Hsent.
  assert (Hinv : load_inv st /\ level_inv st).
  { eapply (scan_lines_inv (fun st => load_inv st /\ level_inv st));
      [|..|exact Hscan].
    - intros t st0 text st1. apply LoadLevelConfig_line_inv.
    - unfold load_inv, level_inv. cbn.
      repeat split; try constructor; auto.
      intros i p Hp. destruct i; discriminate. }
  destruct Hinv as ((Hok & _ & Hids) & Hsd & Hlvl).
  split; [|split; [|split]]; auto.
  - rewrite Forall_forall in Hok, Hsd. apply Forall_forall. intros p Hp.
    destruct (Hok p Hp) as [H1 H2]. auto.
  - destruct Hlvl; [contradiction|assumption].
Qed.

(** *** Entities through the operations *)

Lemma moved_from_ok p p' : moved_from p p' -> entity_ok p -> entity_ok p'.
Proof.
  intros (cs & _ & ->) (Hs & Hd & Hr & Hf).
  destruct (run_calls_shape p cs) as (_ & H2 & _ & H4 & _ & _ & _ & H8 & H9).
  cbv zeta in *. unfold entity_ok. rewrite H2, H4. auto.
Qed.

Lemma Forall2_moved_ok ps ps' :
  Forall2 moved_from ps ps' -> Forall entity_ok ps -> Forall entity_ok ps'.
Proof.
  induction 1 as [|p p' ps ps' Hm _ IH]; intros Hok; [constructor|].
  apply Forall_cons in Hok as [Hp Hps].
  constructor; [eapply moved_from_ok; eassumption|auto].
Qed.

Lemma click_first_ok ps x y :
  Forall entity_ok ps -> Forall entity_ok (click_first ps x y).
Proof.
  induction 1 as [|p ps Hp Hps IH]; [constructor|]. cbn [click_first].
  destruct (IsClicked p x y); constructor; auto.
  unfold Pacman_Stop. destruct (negb (IsStopped p)); exact Hp.
Qed.

Lemma run_op_entities_ok op st :
  match op_loadFunc op with Some f => entities_ok_loader f | None => True end ->
  Forall entity_ok (Pacmans st.2) -> Forall entity_ok (Pacmans (run_op op st).2).
Proof.
  destruct st as [h g]. cbn [fst snd].
  destruct op as [now clk|x y|chars| |saveFunc|saveFunc
                  |now lhs level configPath loadFunc|now lhs savePath loadFunc];
    cbn [run_op op_loadFunc]; intros Hld Hok.
  - eapply Forall2_moved_ok; [apply Game_Update_moved|exact Hok].
  - unfold Game_HandleClick. destruct (negb _); [exact Hok|]. game_simpl.
    now apply click_first_ok.
  - unfold Game_HandleTextInput.
    destruct (negb _); [|destruct (_ <? _)%nat]; exact Hok.
  - unfold Game_HandleBackspace. destruct (_ && _); exact Hok.
  - destruct (Game_HandleEnter_effect saveFunc h g) as ((_ & _ & _ & _ & _ & _ & _ & -> & _) & _).
    exact Hok.
  - exact Hok.
  - unfold RequestLoadLevel.
    destruct (loadFunc configPath) as [loaded|err] eqn:Hf; [|exact Hok].
    destruct (match lhs with Some _ => _ | None => _ end) as [h' hs].
    cbn. exact (Hld _ _ Hf).
  - unfold RequestLoadSavedGame.
    destruct (loadFunc savePath) as [loaded|err] eqn:Hf; [|exact Hok].
    destruct (match lhs with Some _ => _ | None => _ end) as [h' hs].
    cbn. exact (Hld _ _ Hf).
Qed.

(** When the level and save readers return entities with a direction
    sign of 1 or -1, an axis of 'H' or 'V' and a radius that is not at
    most zero, as those of the repository do, every entity of every state
    reached from a new game is of that kind. *)
Theorem entities_stay_ok w hgt a h0 ops :
  Forall (fun op => match op_loadFunc op with
                    | Some f => entities_ok_loader f
                    | None => True
                    end) ops ->
  Forall entity_ok (Pacmans (run_ops ops (NewGame w hgt a h0)).2).
Proof.
  intros Hops.
  assert (H0 : Forall entity_ok (Pacmans (NewGame w hgt a h0).2))
    by (unfold NewGame; destruct (alloc h0 [] 0); constructor).
  revert H0. generalize (NewGame w hgt a h0). unfold run_ops.
  induction Hops as [|op ops Hop _ IH]; intros st Hst; cbn [fold_left];
    [exact Hst|].
  apply IH. now apply run_op_entities_ok.
Qed.

End Runtime.

(** ** The statements at concrete inputs *)

Abbreviation AddScore' := (AddScore example_pdqsort_large example_growslice_spare).
Abbreviation Game_Update' := (Game_Update example_pdqsort_large example_growslice_spare).
Abbreviation Game_HandleEnter' :=
  (Game_HandleEnter example_pdqsort_large example_growslice_spare).

(** The same with Go's [sort.Sort] on the long slices. *)
Abbreviation AddScore_go :=
  (AddScore (Sort example_breakPatterns) example_growslice_spare).

(** With [Sort] for the long slices, [sort_Sort] is [Sort] on every slice. *)
Lemma sort_Sort_is_Sort breakPatterns (data : ByScore) :
  sort_Sort (Sort breakPatterns) data = Sort breakPatterns data.
Proof.
  unfold sort_Sort, Sort, pdqsort. destruct (Len data <=? 1)%nat; [reflexivity|].
  destruct (Len data <=? maxInsertion)%nat eqn:E; [|reflexivity].
  cbn [pdqsort_from]. now rewrite Nat.sub_0_r, E.
Qed.

(** On twelve ranked runs and a candidate that ties with the best of them,
    [Sort] partitions the thirteen elements once around the seventh and
    sorts the two sides by insertion, whatever the scatter step and the
    growth of [append] are: the candidate is ranked first, before the
    stored run of equal score. *)
Lemma AddScore_twelve_runs breakPatterns growslice_spare :
  let r := AddScore (Sort breakPatterns) growslice_spare
             [twelve_runs] (mkSlice 0 12) (mkScore "new" 1) in
  elems r.1.1 r.1.2 = mkScore "new" 1 :: take 9 twelve_runs /\ r.2 = true.
Proof. cbv zeta. split; vm_compute; reflexivity. Qed.

(** Twenty runs in descending order: [Sort] ranks them without scattering. *)
Example Sort_twenty_descending breakPatterns :
  map Score_
    (Sort breakPatterns
       (map (fun z => mkScore "x" z) (rev (seqZ 1 20))))
  = seqZ 1 20.
Proof. vm_compute. reflexivity. Qed.

(** C1 at an overshoot of hundreds of radii: one second at 6000 pixels per
    second from 15 pixels before the wall gives one bounce, at the wall. *)
Example Pacman_Update_overshoot :
  let r := Pacman_Update 0 0 1 640 480 pacman_near_wall in
  PosX r.1 = 630%float /\ SubDirection r.1 = -1 /\ Bounces r.1 = 4 /\ r.2 = 1.
Proof. cbv zeta. repeat split; reflexivity. Qed.

(** C2 as first stated fails on a full list that is not ascending. *)
Lemma AddScore_returns_unsorted :
  wf_slice [unsorted_full] (mkSlice 0 10)
  /\ (len (mkSlice 0 10) <= MaxHighScores)%nat
  /\ ~ ascending
       (elems (AddScore' [unsorted_full] (mkSlice 0 10) (mkScore "z" 100)).1.1
              (AddScore' [unsorted_full] (mkSlice 0 10) (mkScore "z" 100)).1.2).
Proof.
  split; [split; vm_compute; lia|]. split; [vm_compute; lia|].
  destruct (AddScore_unsorted_full example_pdqsort_large example_growslice_spare)
    as [-> H].
  exact H.
Qed.

Lemma AddScore_sorted_capped_witness :
  wf_slice [three_sorted] (mkSlice 0 3)
  /\ (len (mkSlice 0 3) <= MaxHighScores)%nat
  /\ elems (AddScore' [three_sorted] (mkSlice 0 3) (mkScore "Di" 2)).1.1
           (AddScore' [three_sorted] (mkSlice 0 3) (mkScore "Di" 2)).1.2
     = [mkScore "Ann" 1; mkScore "Di" 2; mkScore "Bob" 3; mkScore "Cy" 3]
  /\ ascending
       (elems (AddScore' [three_sorted] (mkSlice 0 3) (mkScore "Di" 2)).1.1
              (AddScore' [three_sorted] (mkSlice 0 3) (mkScore "Di" 2)).1.2).
Proof.
  assert (Hwf : wf_slice [three_sorted] (mkSlice 0 3)) by (split; vm_compute; lia).
  assert (Hn : (len (mkSlice 0 3) <= MaxHighScores)%nat) by (vm_compute; lia).
  split; [exact Hwf|]. split; [exact Hn|]. split; [reflexivity|].
  apply (AddScore_sorted_capped example_pdqsort_large example_growslice_spare
           [three_sorted] (mkSlice 0 3) (mkScore "Di" 2) Hwf Hn).
  right. left. vm_compute. lia.
Defined.

Lemma AddScore_insert_stable_witness :
  wf_slice [three_sorted] (mkSlice 0 3)
  /\ (len (mkSlice 0 3) < maxInsertion)%nat
  /\ shouldAdd example_pdqsort_large [three_sorted] (mkSlice 0 3) (mkScore "Di" 3) = true
  /\ elems (AddScore' [three_sorted] (mkSlice 0 3) (mkScore "Di" 3)).1.1
           (AddScore' [three_sorted] (mkSlice 0 3) (mkScore "Di" 3)).1.2
     = take MaxHighScores (stable_sort (three_sorted ++ [mkScore "Di" 3])).
Proof.
  assert (Hwf : wf_slice [three_sorted] (mkSlice 0 3)) by (split; vm_compute; lia).
  assert (Hn : (len (mkSlice 0 3) < maxInsertion)%nat) by (vm_compute; lia).
  split; [exact Hwf|]. split; [exact Hn|]. split; [reflexivity|].
  exact (proj1 (AddScore_insert_stable example_pdqsort_large example_growslice_spare
                  [three_sorted] (mkSlice 0 3) (mkScore "Di" 3) Hwf Hn eq_refl)).
Defined.

Lemma AddScore_retained_by_scores_witness :
  (AddScore' [ten_runs_of_one] (mkSlice 0 10) (mkScore "Eve" 0)).2 = true
  /\ (AddScore' [ten_runs_of_one] (mkSlice 0 10) (mkScore "" 0)).2
     = (AddScore' [ten_runs_of_one] (mkSlice 0 10) (mkScore "Eve" 0)).2.
Proof.
  assert (Hwf : wf_slice [ten_runs_of_one] (mkSlice 0 10)) by (split; vm_compute; lia).
  assert (Hn : (len (mkSlice 0 10) <= MaxHighScores)%nat) by (vm_compute; lia).
  destruct (AddScore_retained_by_scores example_pdqsort_large example_growslice_spare
              [ten_runs_of_one] (mkSlice 0 10) (mkScore "Eve" 0)
              [ten_runs_of_one] (mkSlice 0 10) (mkScore "" 0)
              Hwf Hn Hwf eq_refl eq_refl) as [H1 H2].
  split; [exact H1|exact H2].
Defined.

(** C10, at the failing input: a save of level 0, taken when its only
    entity had stopped after 15 bounces, is loaded over ten stored runs of
    1 to 9 and 20 bounces that the reader returns in a slice of capacity
    twelve.  The eligibility check of the tick that ends the game returns
    true, and the game asks for a name; the player types Roy; the insert of
    [HandleEnter], for the same score under that name, returns false.  The
    check has written its nameless candidate over the stored run of 20
    bounces, the writer is never called, and the hall of fame shows the
    nameless entry. *)
Theorem check_admits_insert_rejects :
  let run := run_ops example_pdqsort_large example_growslice_spare in
  let loaded := run (take 1 spare_ops) (NewGame 640 480 false []) in
  let over := Game_Update' 16 (fun _ => (16, 16)) loaded.1 loaded.2 in
  let named := run [OpText [82]; OpText [111]; OpText [121]] over in
  let check :=
    AddScore' loaded.1 (HighScores loaded.2)
      (mkScore EmptyString (TotalBounces over.2)) in
  let insert :=
    AddScore' named.1 (HighScores named.2)
      (mkScore (string_of_runes (playerNameInput named.2)) (TotalBounces named.2)) in
  let e := Game_HandleEnter' (fun _ _ => None) named.1 named.2 in
  (CurrentState loaded.2 = StatePlaying
   /\ elems loaded.1 (HighScores loaded.2) = take 10 full_spare
   /\ TotalBounces over.2 = 15)
  /\ (check.2 = true
      /\ CurrentState over.2 = StateEnteringHighScore
      /\ isNewHighScore over.2 = true)
  /\ (string_of_runes (playerNameInput named.2) = "Roy"%string
      /\ TotalBounces named.2 = 15
      /\ insert.2 = false)
  /\ (run spare_ops (NewGame 640 480 false []) = e.1
      /\ e.2 = []
      /\ CurrentState e.1.2 = StateHallOfFame
      /\ elems e.1.1 (HighScores e.1.2)
         = take 9 full_spare ++ [mkScore EmptyString 15]).
Proof.
  cbv zeta.
  split; [split; [|split]; vm_compute; reflexivity|].
  split; [split; [|split]; vm_compute; reflexivity|].
  split; [split; [|split]; vm_compute; reflexivity|].
  split; [|split; [|split]]; vm_compute; reflexivity.
Qed.

(** C6 as first stated fails on a list of twelve entries: once the
    candidate is appended, [sort.Sort] has thirteen elements to sort and
    leaves insertion sort for a partition step, which swaps the candidate
    ahead of the stored entry of equal score.  The stable sort ranks the
    candidate second, behind that entry; [AddScore] ranks it first. *)
Lemma AddScore_long_list_not_stable :
  wf_slice [twelve_runs] (mkSlice 0 12)
  /\ shouldAdd (Sort example_breakPatterns) [twelve_runs] (mkSlice 0 12)
       (mkScore "new" 1) = true
  /\ elems (AddScore_go [twelve_runs] (mkSlice 0 12) (mkScore "new" 1)).1.1
           (AddScore_go [twelve_runs] (mkSlice 0 12) (mkScore "new" 1)).1.2
     = mkScore "new" 1 :: mkScore "a" 1 :: take 8 (drop 1 twelve_runs)
  /\ take MaxHighScores
       (stable_sort (elems [twelve_runs] (mkSlice 0 12) ++ [mkScore "new" 1]))
     = mkScore "a" 1 :: mkScore "new" 1 :: take 8 (drop 1 twelve_runs)
  /\ elems (AddScore_go [twelve_runs] (mkSlice 0 12) (mkScore "new" 1)).1.1
           (AddScore_go [twelve_runs] (mkSlice 0 12) (mkScore "new" 1)).1.2
     <> take MaxHighScores
          (stable_sort (elems [twelve_runs] (mkSlice 0 12) ++ [mkScore "new" 1])).
Proof.
  split; [split; vm_compute; lia|]. split; [vm_compute; reflexivity|].
  split; [vm_compute; reflexivity|]. split; [vm_compute; reflexivity|].
  vm_compute. discriminate.
Qed.

(** C9 as first stated fails at the largest [int]: one [Bounce] takes the
    counter from [max_int] to [min_int]. *)
Lemma Bounces_wraps_at_max_int :
  in_int (Bounces pacman_at_max_int)
  /\ Bounces (run_calls pacman_at_max_int [CallBounce]) = min_int
  /\ Bounces (run_calls pacman_at_max_int [CallBounce]) < Bounces pacman_at_max_int.
Proof. split; [vm_compute; split; discriminate|]. split; reflexivity. Qed.

Lemma Bounces_nondecreasing_below_max_int_witness :
  in_int (Bounces pacman_near_wall)
  /\ Bounces pacman_near_wall + Z.of_nat (length example_calls) <= max_int
  /\ Bounces pacman_near_wall <= Bounces (run_calls pacman_near_wall example_calls)
     <= Bounces pacman_near_wall + Z.of_nat (length example_calls)
  /\ Bounces (run_calls pacman_near_wall example_calls) = 5.
Proof.
  assert (Hin : in_int (Bounces pacman_near_wall))
    by (vm_compute; split; discriminate).
  assert (Hmax : Bounces pacman_near_wall + Z.of_nat (length example_calls) <= max_int)
    by (vm_compute; discriminate).
  split; [exact Hin|]. split; [exact Hmax|]. split; [|reflexivity].
  exact (proj2 (Bounces_nondecreasing_below_max_int pacman_near_wall example_calls)
           Hin Hmax).
Defined.

(** C3 as first stated fails when no level is loaded: the save file of
    [game_negative_level] put the game in Playing with [Level] -5, every
    entity is stopped, and the tick leaves the state Playing. *)
Lemma Game_Update_negative_level_stays_playing :
  let g' := (Game_Update' 1000 (fun _ => (1000, 1000)) [[]] game_negative_level).2 in
  CurrentState game_negative_level = StatePlaying
  /\ Forall (fun p => IsStopped p = true) (Pacmans g')
  /\ CurrentState g' = StatePlaying.
Proof. cbv zeta. split; [reflexivity|]. split; [|reflexivity]. vm_compute. repeat constructor. Qed.

Lemma Game_Update_all_stopped_witness :
  let g := game_last_tick 3 (mkSlice 0 0) in
  let g' := (Game_Update' 1000 (fun _ => (1000, 1000)) [[]] g).2 in
  CurrentState g = StatePlaying /\ 0 <= Level g
  /\ Forall (fun p => IsStopped p = true) (Pacmans g')
  /\ CurrentState g' = StateEnteringHighScore /\ playerNameInput g' = [].
Proof.
  cbv zeta.
  assert (Hall : Forall (fun p => IsStopped p = true)
                   (Pacmans (Game_Update' 1000 (fun _ => (1000, 1000)) [[]]
                               (game_last_tick 3 (mkSlice 0 0))).2))
    by (vm_compute; repeat constructor).
  assert (Hlevel : 0 <= Level (game_last_tick 3 (mkSlice 0 0))) by (vm_compute; discriminate).
  split; [reflexivity|]. split; [exact Hlevel|]. split; [exact Hall|].
  pose proof (Game_Update_all_stopped example_pdqsort_large example_growslice_spare
                1000 (fun _ => (1000, 1000)) [[]] (game_last_tick 3 (mkSlice 0 0))
                eq_refl Hlevel Hall) as H.
  cbv zeta in H. destruct H as [_ H]. exact H.
Defined.

(** C4 as first stated fails when the candidate is not retained: with ten
    better runs on the list, [HandleEnter] moves to HallOfFame and the
    writer is not called. *)
Lemma Game_HandleEnter_skips_writer :
  let r := Game_HandleEnter' (fun _ _ => None) [ten_runs_of_one] (game_entering []) in
  CurrentState (game_entering []) = StateEnteringHighScore
  /\ r.2 = [] /\ CurrentState r.1.2 = StateHallOfFame.
Proof. cbv zeta. repeat split; reflexivity. Qed.

Lemma Game_HandleEnter_spec_witness :
  let saveFunc := fun (_ : list Score) (_ : string) => Some (errorString "disk full") in
  let g := set_HighScores (game_entering []) (mkSlice 0 3) in
  let r := Game_HandleEnter' saveFunc [three_sorted] g in
  CurrentState g = StateEnteringHighScore
  /\ CurrentState r.1.2 = StateHallOfFame /\ playerNameInput r.1.2 = []
  /\ r.2 = [([mkScore "Ann" 1; mkScore "Bob" 3; mkScore "Cy" 3; mkScore "Anonymous" 5],
             "assets/highscores/highscores_0.gob"%string,
             Some (errorString "disk full"))].
Proof.
  cbv zeta.
  pose proof (Game_HandleEnter_spec example_pdqsort_large example_growslice_spare
                (fun _ _ => Some (errorString "disk full")) [three_sorted]
                (set_HighScores (game_entering []) (mkSlice 0 3))) as H.
  cbv zeta in H. destruct H as [_ H].
  destruct (H eq_refl) as (_ & Hg & Hcalls & _).
  split; [reflexivity|]. rewrite Hg, Hcalls. repeat split; reflexivity.
Defined.

Lemma load_requests_failure_witness :
  let g := game_last_tick 3 (mkSlice 0 0) in
  failing_loader "level.txt" = inr (errorString "open level.txt: no such file or directory")
  /\ RequestLoadLevel 1000 (Some failing_score_loader) 1 "level.txt" failing_loader [[]] g
     = ([[]], g,
        Some (wrapError
                "failed to load level config 'level.txt': open level.txt: no such file or directory"
                (errorString "open level.txt: no such file or directory"))).
Proof.
  cbv zeta. split; [reflexivity|].
  pose proof (load_requests_failure 1000 (Some failing_score_loader) 1
                "level.txt" failing_loader [[]] (game_last_tick 3 (mkSlice 0 0))) as H.
  destruct H as [H _]. destruct (H _ eq_refl) as [H1 _]. exact H1.
Defined.

Lemma Game_Update_keeps_list_witness :
  let h := [[mkScore "Ann" 5]] in
  let g := game_last_tick 3 (mkSlice 0 1) in
  wf_slice h (HighScores g) /\ cap h (HighScores g) = len (HighScores g)
  /\ CurrentState (Game_Update' 1000 (fun _ => (1000, 1000)) h g).2
     = StateEnteringHighScore
  /\ elems (Game_Update' 1000 (fun _ => (1000, 1000)) h g).1 (HighScores g)
     = [mkScore "Ann" 5].
Proof.
  cbv zeta.
  assert (Hwf : wf_slice [[mkScore "Ann" 5]] (HighScores (game_last_tick 3 (mkSlice 0 1))))
    by (split; vm_compute; lia).
  split; [exact Hwf|]. split; [reflexivity|]. split; [reflexivity|].
  pose proof (Game_Update_keeps_list example_pdqsort_large example_growslice_spare
                1000 (fun _ => (1000, 1000)) [[mkScore "Ann" 5]]
                (game_last_tick 3 (mkSlice 0 1)) Hwf eq_refl) as H.
  destruct H as [_ H]. rewrite H. reflexivity.
Defined.

Lemma check_then_insert_agree_witness :
  let h := [[mkScore "Ann" 5]] in
  let g := game_last_tick 3 (mkSlice 0 1) in
  let r := Game_Update' 1000 (fun _ => (1000, 1000)) h g in
  let e := Game_HandleEnter' (fun _ _ => None) r.1 r.2 in
  wf_slice h (HighScores g) /\ cap h (HighScores g) = len (HighScores g)
  /\ (len (HighScores g) <= MaxHighScores)%nat
  /\ CurrentState g = StatePlaying
  /\ CurrentState r.2 = StateEnteringHighScore
  /\ CurrentState e.1.2 = StateHallOfFame
  /\ elems e.1.1 (HighScores e.1.2) = [mkScore "Anonymous" 3; mkScore "Ann" 5]
  /\ length e.2 = 1%nat.
Proof.
  cbv zeta.
  assert (Hwf : wf_slice [[mkScore "Ann" 5]] (HighScores (game_last_tick 3 (mkSlice 0 1))))
    by (split; vm_compute; lia).
  assert (Hn : (len (HighScores (game_last_tick 3 (mkSlice 0 1))) <= MaxHighScores)%nat)
    by (vm_compute; lia).
  pose proof (check_then_insert_agree example_pdqsort_large example_growslice_spare
                1000 (fun _ => (1000, 1000)) (fun _ _ => None)
                [[mkScore "Ann" 5]] (game_last_tick 3 (mkSlice 0 1))
                Hwf eq_refl Hn eq_refl eq_refl) as H.
  cbv zeta in H. destruct H as (H1 & _ & H3).
  split; [exact Hwf|]. split; [reflexivity|]. split; [exact Hn|].
  split; [reflexivity|]. split; [reflexivity|]. split; [exact H1|].
  split; [reflexivity|]. rewrite H3. reflexivity.
Defined.

Lemma AddScore_all_invariant_witness :
  let r := AddScore_all example_pdqsort_large example_growslice_spare [[]] (mkSlice 0 0)
             [mkScore "Ann" 7; mkScore "Bob" 3; mkScore "Cy" 7; mkScore "Di" 1] in
  wf_slice [[]] (mkSlice 0 0) /\ (len (mkSlice 0 0) <= MaxHighScores)%nat
  /\ ascending (elems [[]] (mkSlice 0 0))
  /\ elems r.1 r.2 = [mkScore "Di" 1; mkScore "Bob" 3; mkScore "Ann" 7; mkScore "Cy" 7]
  /\ ascending (elems r.1 r.2).
Proof.
  cbv zeta.
  assert (Hwf : wf_slice [[]] (mkSlice 0 0)) by (split; vm_compute; lia).
  assert (Hn : (len (mkSlice 0 0) <= MaxHighScores)%nat) by (vm_compute; lia).
  assert (Hs : ascending (elems [[]] (mkSlice 0 0))) by constructor.
  pose proof (AddScore_all_invariant example_pdqsort_large example_growslice_spare
                [[]] (mkSlice 0 0)
                [mkScore "Ann" 7; mkScore "Bob" 3; mkScore "Cy" 7; mkScore "Di" 1]
                Hwf Hn Hs) as H.
  cbv zeta in H. destruct H as (_ & _ & H).
  split; [exact Hwf|]. split; [exact Hn|]. split; [exact Hs|].
  split; [reflexivity|exact H].
Defined.

Lemma example_ops_tight : ops_loaders tight_loader example_ops.
Proof.
  unfold ops_loaders, example_ops.
  constructor; [|repeat (constructor; [exact I|]); constructor].
  cbn [op_loader]. intros pth l spare [= <- <-]. reflexivity.
Qed.

Lemma spare_ops_ranked : ops_loaders ranked_loader spare_ops.
Proof.
  unfold ops_loaders, spare_ops.
  constructor; [|repeat (constructor; [exact I|]); constructor].
  cbn [op_loader]. intros pth l spare [= <- <-].
  split; [vm_compute; lia|].
  apply (stable_sort_ascending (take 10 full_spare)).
Qed.

Lemma reachable_tick_keeps_scores_witness :
  let st := run_ops example_pdqsort_large example_growslice_spare example_ops
              (NewGame 640 480 false []) in
  let r := Game_Update' 32 (fun _ => (32, 32)) st.1 st.2 in
  HighScores r.2 = HighScores st.2
  /\ elems r.1 (HighScores r.2) = elems st.1 (HighScores st.2).
Proof.
  apply (reachable_tick_keeps_scores example_pdqsort_large example_growslice_spare
           640 480 false [] example_ops 32 (fun _ => (32, 32))).
  exact example_ops_tight.
Defined.

Lemma reachable_scores_ranked_witness :
  let st := run_ops example_pdqsort_large example_growslice_spare spare_ops
              (NewGame 640 480 false []) in
  let scores := (GetHighScoreData st.1 st.2).1.2 in
  ascending scores /\ (length scores <= MaxHighScores)%nat.
Proof.
  apply (reachable_scores_ranked example_pdqsort_large example_growslice_spare
           640 480 false [] spare_ops).
  exact spare_ops_ranked.
Defined.

Lemma name_within_cap_single_keys_witness :
  (length (playerNameInput
             (run_ops example_pdqsort_large example_growslice_spare
                (take 4 example_ops) (NewGame 640 480 false [])).2) <= 15)%nat.
Proof.
  apply (name_within_cap_single_keys example_pdqsort_large example_growslice_spare
           (take 4 example_ops) (NewGame 640 480 false [])).
  - repeat constructor.
  - vm_compute. lia.
Defined.

Lemma rest_states_left_by_load_only_witness :
  let g := (Game_Update' 16 (fun _ => (16, 16)) [ten_runs_of_one]
              (game_last_tick 3 (mkSlice 0 10))).2 in
  let st' := run_ops example_pdqsort_large example_growslice_spare
               (drop 1 example_ops) ([ten_runs_of_one], g) in
  st'.1 = [ten_runs_of_one] /\ CurrentState st'.2 = CurrentState g
  /\ Pacmans st'.2 = Pacmans g /\ TotalBounces st'.2 = TotalBounces g
  /\ Level st'.2 = Level g /\ HighScores st'.2 = HighScores g.
Proof.
  apply (rest_states_left_by_load_only example_pdqsort_large example_growslice_spare
           (drop 1 example_ops) [ten_runs_of_one]).
  - vm_compute. discriminate.
  - vm_compute. discriminate.
  - repeat constructor.
Defined.

Lemma Game_Update_running_witness :
  let g := mkGame [pacman_near_wall; stopped_pacman] 0 0 640 480 StatePlaying
             (mkSlice 0 10) "" "" "" 0 0%float [] false false in
  let r := Game_Update' 16 (fun _ => (16, 16)) [ten_runs_of_one] g in
  r.1 = [ten_runs_of_one] /\ CurrentState r.2 = CurrentState g
  /\ playerNameInput r.2 = playerNameInput g
  /\ isNewHighScore r.2 = isNewHighScore g
  /\ HighScores r.2 = HighScores g.
Proof.
  apply (Game_Update_running example_pdqsort_large example_growslice_spare).
  apply Exists_cons_hd. reflexivity.
Defined.

Lemma Game_Update_check_writes_spare_witness :
  let h := [one_run_spare] in
  let g := game_last_tick 3 (mkSlice 0 1) in
  let r := Game_Update' 16 (fun _ => (16, 16)) h g in
  HighScores r.2 = HighScores g
  /\ elems r.1 (HighScores r.2)
     = take (len (HighScores g))
         (stable_sort (elems h (HighScores g)
                       ++ [mkScore EmptyString (TotalBounces r.2)]))
  /\ wf_slice r.1 (HighScores r.2)
  /\ cap r.1 (HighScores r.2) = cap h (HighScores g).
Proof.
  apply (Game_Update_check_writes_spare example_pdqsort_large
           example_growslice_spare 16 (fun _ => (16, 16)) [one_run_spare]
           (game_last_tick 3 (mkSlice 0 1))).
  - vm_compute. lia.
  - vm_compute. lia.
  - vm_compute. lia.
  - reflexivity.
  - reflexivity.
Defined.

Lemma spare_check_then_insert_rejects_witness :
  let h := [full_spare] in
  let g := game_last_tick 15 (mkSlice 0 10) in
  let r := Game_Update' 16 (fun _ => (16, 16)) h g in
  let e := Game_HandleEnter' (fun _ _ => None) r.1 r.2 in
  elems r.1 (HighScores r.2)
  = take 9 full_spare ++ [mkScore EmptyString (TotalBounces r.2)]
  /\ e.2 = []
  /\ CurrentState e.1.2 = StateHallOfFame
  /\ elems e.1.1 (HighScores e.1.2)
     = take 9 full_spare ++ [mkScore EmptyString (TotalBounces r.2)].
Proof.
  apply (spare_check_then_insert_rejects example_pdqsort_large
           example_growslice_spare 16 (fun _ => (16, 16)) (fun _ _ => None)
           [full_spare] (game_last_tick 15 (mkSlice 0 10))
           (take 9 full_spare) (mkScore "j" 20)).
  - vm_compute. lia.
  - reflexivity.
  - vm_compute. lia.
  - reflexivity.
  - apply (stable_sort_ascending (take 10 full_spare)).
  - reflexivity.
  - reflexivity.
  - vm_compute. repeat constructor; discriminate.
  - vm_compute. reflexivity.
Defined.

Lemma AddScore_drops_at_most_worst_witness :
  let r := AddScore' [unsorted_full] (mkSlice 0 10) (mkScore "k" 4) in
  exists dropped,
    Permutation (elems r.1.1 r.1.2 ++ dropped)
      (elems [unsorted_full] (mkSlice 0 10) ++ [mkScore "k" 4])
    /\ (length dropped <= 1)%nat
    /\ Forall (fun d => Forall (fun k => Score_ k <= Score_ d)
                          (elems r.1.1 r.1.2)) dropped
    /\ ((len (mkSlice 0 10) < MaxHighScores)%nat -> dropped = []).
Proof.
  apply (AddScore_drops_at_most_worst example_pdqsort_large
           example_growslice_spare [unsorted_full] (mkSlice 0 10) (mkScore "k" 4)).
  - vm_compute. lia.
  - vm_compute. lia.
Defined.

Lemma repeatingKeyPressed_spec_witness :
  repeatingKeyPressed 35 = true <-> 35 = 1 \/ exists k, 0 <= k /\ 35 = 30 + 5 * k.
Proof.
  apply (repeatingKeyPressed_spec 35). unfold in_int, min_int, max_int. lia.
Defined.

Lemma itoa_zero level : itoa level = "0"%string -> level = 0.
Proof.
  unfold itoa. intros H. rewrite <- (DecimalZ.of_to level).
  destruct (Z.to_int level) as [u|u] eqn:E.
  - destruct u; try (cbn in H; discriminate); try reflexivity.
    cbn in H. injection H as H. destruct u; try discriminate. reflexivity.
  - cbn in H. discriminate.
Qed.

Lemma save_name_level level :
  ("assets/saves/savegame_" ++ itoa level ++ ".txt")%string
  = "assets/saves/savegame_0.txt"%string -> level = 0.
Proof.
  intros H. apply itoa_zero. cbn [String.append] in H.
  repeat match type of H with String _ _ = String _ _ => injection H as H end.
  destruct (itoa level) as [|c [|c' s]]; cbn [String.append] in H.
  - discriminate.
  - now injection H as ->.
  - exfalso. injection H as _ _ H.
    destruct s as [|a [|b [|d s]]]; cbn [String.append] in H;
      try discriminate; injection H as H; try discriminate.
    destruct s; discriminate.
Qed.

Lemma example_saves_named : saves_named_by_level example_persistence.
Proof.
  intros level loaded. cbn [loadGame example_persistence].
  destruct (String.eqb_spec
              ("assets/saves/savegame_" ++ itoa level ++ ".txt")
              "assets/saves/savegame_0.txt") as [E|_]; [|discriminate].
  intros [= <-]. symmetry. now apply save_name_level.
Qed.

Lemma engine_files_follow_level_witness :
  let st := (run_frames example_pdqsort_large example_growslice_spare
               example_persistence example_frames
               (NewEbitenGame false [])).1 in
  highScorePath st.2
  = ("assets/highscores/highscores_" ++ itoa (Level st.2) ++ ".gob")%string
  /\ saveGamePath st.2
     = ("assets/saves/savegame_" ++ itoa (Level st.2) ++ ".txt")%string.
Proof.
  apply (engine_files_follow_level example_pdqsort_large example_growslice_spare
           example_persistence example_frames false []).
  - exact example_saves_named.
  - vm_compute. discriminate.
Defined.

Lemma negative_level_never_ends_witness :
  let st' := run_ops example_pdqsort_large example_growslice_spare
               (drop 1 example_ops) ([[]], game_negative_level) in
  st'.1 = [[]] /\ CurrentState st'.2 = StatePlaying
  /\ Level st'.2 = Level game_negative_level
  /\ TotalBounces st'.2 = TotalBounces game_negative_level
  /\ motion (Pacmans st'.2) = motion (Pacmans game_negative_level)
  /\ forall saveFunc,
       RequestSaveGame saveFunc st'.2
       = Some (errorString "cannot save game: not playing").
Proof.
  apply (negative_level_never_ends example_pdqsort_large example_growslice_spare
           (drop 1 example_ops) [[]] game_negative_level).
  - vm_compute. reflexivity.
  - reflexivity.
  - repeat constructor.
Defined.

Lemma Game_Update_no_collision_witness :
  let g := mkGame [pacman_near_wall; stopped_pacman] 0 0 640 480 StatePlaying
             (mkSlice 0 10) "" "" "" 0 0%float [] false false in
  let clk := fun _ : nat => (16, 16) in
  let g' := (Game_Update' 16 clk [ten_runs_of_one] g).2 in
  Pacmans g'
  = imap (fun k p => (Pacman_Update (clk k).1 (clk k).2 (deltaTime g')
                        (ScreenWidth g) (ScreenHeight g) p).1) (Pacmans g).
Proof.
  apply (Game_Update_no_collision example_pdqsort_large example_growslice_spare).
  - reflexivity.
  - vm_compute. discriminate.
  - intros [|[|i]] [|[|j]] p q Hij Hp Hq; try congruence; try discriminate.
    + injection Hq as <-. right. reflexivity.
    + injection Hp as <-. left. reflexivity.
Defined.

Lemma LoadGame_entities_ok_witness :
  let g := partial_game (-5) 7
             [NewPacman 2 0 10 50 60 DirVertical (-1) 100 2 false;
              NewPacman 4 1 15 90 60 DirHorizontal 1 100 0 true] in
  LoadGame example_go (fun i => Z.of_nat i) example_save_file "save.txt"
  = Returns (inl g)
  /\ Forall (fun p => entity_ok p /\ animFrame p = 0) (Pacmans g)
  /\ Level g <> -1 /\ TotalBounces g <> -1
  /\ forall i p, Pacmans g !! i = Some p -> ID p = wrap64 (Z.of_nat i).
Proof.
  cbv zeta.
  assert (H : LoadGame example_go (fun i => Z.of_nat i) example_save_file "save.txt"
              = Returns (inl (partial_game (-5) 7
                   [NewPacman 2 0 10 50 60 DirVertical (-1) 100 2 false;
                    NewPacman 4 1 15 90 60 DirHorizontal 1 100 0 true])))
    by (vm_compute; reflexivity).
  split; [exact H|].
  exact (LoadGame_entities_ok example_go (fun i => Z.of_nat i) example_save_file
           "save.txt" _ H).
Defined.

Lemma LoadLevelConfig_entities_ok_witness :
  let g := partial_game 0 0
             [NewPacman 2 0 10 50 60 DirHorizontal 1 100 0 false] in
  LoadLevelConfig example_go (fun i => Z.of_nat i) example_level_file "level.txt"
  = Returns (inl g)
  /\ Forall (fun p => entity_ok p /\ animFrame p = 0 /\ SubDirection p = 1)
       (Pacmans g)
  /\ 0 <= Level g <= 2 /\ TotalBounces g = 0
  /\ forall i p, Pacmans g !! i = Some p -> ID p = wrap64 (Z.of_nat i).
Proof.
  cbv zeta.
  assert (H : LoadLevelConfig example_go (fun i => Z.of_nat i) example_level_file
                "level.txt"
              = Returns (inl (partial_game 0 0
                   [NewPacman 2 0 10 50 60 DirHorizontal 1 100 0 false])))
    by (vm_compute; reflexivity).
  split; [exact H|].
  exact (LoadLevelConfig_entities_ok example_go (fun i => Z.of_nat i)
           example_level_file "level.txt" _ H).
Defined.

Lemma entities_stay_ok_witness :
  Forall entity_ok
    (Pacmans (run_ops example_pdqsort_large example_growslice_spare example_ops
                (NewGame 640 480 false [])).2).
Proof.
  apply (entities_stay_ok example_pdqsort_large example_growslice_spare
           640 480 false [] example_ops).
  unfold example_ops.
  constructor; [|repeat (constructor; [exact I|]); constructor].
  cbn [op_loadFunc]. intros pth loaded [= <-].
  repeat constructor; vm_compute; auto.
Defined.
